(** * MCP framework: protocol engine

    A shallow embedding of the TypeScript sources

      - [src/errors/mcp-errors.ts]        (error taxonomy)
      - [src/transport/stdio.ts]          (line framing over stdin/stdout)
      - [src/validation/schema-validator.ts]
      - [src/client/mcp-client.ts]        (class [MCPServer])
      - [src/middleware/auth.ts]          (class [AuthMiddleware])

    together with the properties of the specification that concern them.

    Conventions.  A JavaScript string is a [string] where only equality and
    concatenation matter (method names, messages) and a list of UTF-16 code
    units in the transport, where [trim] and [indexOf] look at single
    units.  [undefined] is [None].  A thrown value is a [JsError].  Log lines
    go to the diagnostic stream and are not part of the model; the logger's
    filter level is. *)

From Stdlib Require Import ZArith NArith List String Ascii Bool Lia Sorted.
From Stdlib Require Import DecimalString.
From Equations Require Import Equations.
Import ListNotations.

Set Implicit Arguments.
Set Warnings "-register-all".
Local Open Scope string_scope.
Local Open Scope list_scope.

(** String concatenation, as in a template literal. *)
Infix "+++" := String.append (right associativity, at level 60).

(** Remember the equation of a scrutinee in a [with] clause. *)
Definition inspect {A : Type} (a : A) : {b : A | a = b} := exist _ a eq_refl.


(* ===================================================================== *)
(** * JSON values *)
(* ===================================================================== *)

Module Json.

(** The values [JSON.parse] can produce.  Numbers are restricted to the
    integers, which is all the protocol engine itself ever inspects. *)
Inductive JSON : Type :=
| JNull
| JBool (b : bool)
| JNum (n : Z)
| JStr (s : string)
| JArr (l : list JSON)
| JObj (fields : list (string * JSON)).

(** JavaScript truthiness ([if (v)], [v || d], [a && b]). *)
Definition truthy (v : JSON) : bool :=
  match v with
  | JNull => false
  | JBool b => b
  | JNum n => negb (n =? 0)%Z
  | JStr s => negb (s =? "")%string
  | JArr _ => true
  | JObj _ => true
  end.

Definition truthy_opt (v : option JSON) : bool :=
  match v with
  | Some x => truthy x
  | None => false
  end.

(** [v || {}]. *)
Definition or_empty_object (v : option JSON) : JSON :=
  match v with
  | Some x => if truthy x then x else JObj []
  | None => JObj []
  end.

Fixpoint assoc (k : string) (fields : list (string * JSON)) : option JSON :=
  match fields with
  | [] => None
  | (k', v) :: rest => if (k' =? k)%string then Some v else assoc k rest
  end.

(** Property read [v.k] on a parsed value that is neither [null] nor
    [undefined]: own properties of objects, [undefined] elsewhere. *)
Definition get_prop (k : string) (v : JSON) : option JSON :=
  match v with
  | JObj fields => assoc k fields
  | _ => None
  end.

(** An object literal [{k1: v1, ...}] some of whose values may be
    [undefined]; such members do not reach the wire. *)
Fixpoint obj_of (fields : list (string * option JSON)) : list (string * JSON) :=
  match fields with
  | [] => []
  | (k, Some v) :: rest => (k, v) :: obj_of rest
  | (_, None) :: rest => obj_of rest
  end.

Definition string_of_Z (n : Z) : string := NilZero.string_of_int (Z.to_int n).

Fixpoint join (sep : string) (l : list string) : string :=
  match l with
  | [] => ""
  | [x] => x
  | x :: rest => x +++ sep +++ join sep rest
  end.

(** [String(v)], which a template literal applies to an interpolated
    value. *)
Fixpoint to_display (v : JSON) : string :=
  match v with
  | JNull => "null"
  | JBool true => "true"
  | JBool false => "false"
  | JNum n => string_of_Z n
  | JStr s => s
  | JArr l =>
      join "," (map (fun x => match x with
                              | JNull => ""
                              | _ => to_display x
                              end) l)
  | JObj _ => "[object Object]"
  end.

Definition to_display_opt (v : option JSON) : string :=
  match v with
  | Some x => to_display x
  | None => "undefined"
  end.

End Json.
Export Json.

(* ===================================================================== *)
(** * Error taxonomy ([src/errors/mcp-errors.ts]) *)
(* ===================================================================== *)

Module Errors.

Inductive MCPErrorCode : Type :=
| PARSE_ERROR
| INVALID_REQUEST
| METHOD_NOT_FOUND
| INVALID_PARAMS
| INTERNAL_ERROR
| INITIALIZATION_FAILED
| TOOL_EXECUTION_ERROR
| RESOURCE_NOT_FOUND
| PERMISSION_DENIED
| RATE_LIMIT_EXCEEDED
| VALIDATION_ERROR
| TIMEOUT_ERROR.

Definition code_value (c : MCPErrorCode) : Z :=
  match c with
  | PARSE_ERROR => -32700
  | INVALID_REQUEST => -32600
  | METHOD_NOT_FOUND => -32601
  | INVALID_PARAMS => -32602
  | INTERNAL_ERROR => -32603
  | INITIALIZATION_FAILED => -32000
  | TOOL_EXECUTION_ERROR => -32001
  | RESOURCE_NOT_FOUND => -32002
  | PERMISSION_DENIED => -32003
  | RATE_LIMIT_EXCEEDED => -32004
  | VALIDATION_ERROR => -32005
  | TIMEOUT_ERROR => -32006
  end%Z.

(** What [MCPError.toJSON] puts on the wire. *)
Record ErrorObject : Type := mkErrorObject {
  err_code : Z;
  err_message : string;
  err_data : option JSON
}.

(** Thrown values: a plain [Error] (also [TypeError]), or an [MCPError]
    (with its subclasses [ValidationError], [ToolExecutionError],
    [ResourceNotFoundError], which only fix the code). *)
Inductive JsError : Type :=
| PlainError (msg : string)
| McpError (code : Z) (msg : string) (data : option JSON).

Definition MCPError (c : MCPErrorCode) (msg : string) (data : option JSON) : JsError :=
  McpError (code_value c) msg data.

Definition ValidationError (msg : string) (data : option JSON) : JsError :=
  MCPError VALIDATION_ERROR msg data.

Definition ToolExecutionError (msg : string) (data : option JSON) : JsError :=
  MCPError TOOL_EXECUTION_ERROR msg data.

(** [(error as Error).message] *)
Definition message_of (e : JsError) : string :=
  match e with
  | PlainError m => m
  | McpError _ m _ => m
  end.

(** [error instanceof MCPError] *)
Definition instanceof_MCPError (e : JsError) : bool :=
  match e with
  | PlainError _ => false
  | McpError _ _ _ => true
  end.

(** [error.toJSON()] *)
Definition toJSON (code : Z) (msg : string) (data : option JSON) : ErrorObject :=
  mkErrorObject code msg data.

(** How a call ends: it returns (its promise resolves) or it throws (its
    promise rejects). *)
Inductive Outcome (A : Type) : Type :=
| Returns (a : A)
| Throws (e : JsError).
Arguments Returns {A} a.
Arguments Throws {A} e.

End Errors.
Export Errors.

(* ===================================================================== *)
(** * Stdio transport ([src/transport/stdio.ts]) *)
(* ===================================================================== *)

Module Transport.

(** A UTF-16 code unit; [process.stdin.setEncoding('utf8')] makes every
    chunk a decoded string. *)
Definition code_unit : Type := N.
Definition jsstring : Type := list code_unit.

Definition LF : code_unit := 10%N.

(** ECMAScript WhiteSpace and LineTerminator, the units [trim] strips. *)
Definition is_space (c : code_unit) : bool :=
  ((9 <=? c) && (c <=? 13)
   || (c =? 32) || (c =? 160) || (c =? 5760)
   || (8192 <=? c) && (c <=? 8202)
   || (c =? 8232) || (c =? 8233) || (c =? 8239) || (c =? 8287)
   || (c =? 12288) || (c =? 65279))%N.

Fixpoint trimStart (s : jsstring) : jsstring :=
  match s with
  | [] => []
  | c :: r => if is_space c then trimStart r else s
  end.

Definition trimEnd (s : jsstring) : jsstring := rev (trimStart (rev s)).

Definition trim (s : jsstring) : jsstring := trimEnd (trimStart s).

(** [s.indexOf('\n')], with [None] for [-1]. *)
Fixpoint indexOf_LF (s : jsstring) : option nat :=
  match s with
  | [] => None
  | c :: r =>
      if (c =? LF)%N then Some 0
      else match indexOf_LF r with
           | Some i => Some (S i)
           | None => None
           end
  end.

(** [s.slice(0, i)] and [s.slice(i)] for [0 <= i]. *)
Definition slice_to (i : nat) (s : jsstring) : jsstring := firstn i s.
Definition slice_from (i : nat) (s : jsstring) : jsstring := skipn i s.

Section Reader.

(** The parsed message type and [JSON.parse] restricted to it: [None]
    when [JSON.parse] throws. *)
Variable Msg : Type.
Variable JSON_parse : jsstring -> option Msg.

Inductive Event : Type :=
| EvMessage (m : Msg)
| EvError (code : MCPErrorCode) (msg : string) (line : jsstring).

Record State : Type := mkState {
  buffer : jsstring;
  closed : bool
}.

Definition initial : State := mkState [] false.

Definition processLine (line : jsstring) : Event :=
  match JSON_parse line with
  | Some message => EvMessage message
  | None => EvError PARSE_ERROR "Invalid JSON received" line
  end.

(** [if (line) this.processLine(line)]: a string is truthy when it is
    not empty. *)
Definition line_events (raw : jsstring) : list Event :=
  match trim raw with
  | [] => []
  | line => [processLine line]
  end.

(** The [while] loop of [processBuffer]; every turn shortens the
    buffer.  Returns the events emitted and the buffer left. *)
Equations? processBuffer (buf : jsstring) : list Event * jsstring
  by wf (List.length buf) lt :=
  processBuffer buf with inspect (indexOf_LF buf) := {
    | exist _ (Some newlineIndex) Hidx =>
        let line := slice_to newlineIndex buf in
        let rest := slice_from (newlineIndex + 1) buf in
        let '(evs, final) := processBuffer rest in
        (line_events line ++ evs, final);
    | exist _ None _ => ([], buf) }.
Proof.
  assert (Hlt : forall (s : jsstring) (i : nat),
             indexOf_LF s = Some i -> i < List.length s).
  { intros s; induction s as [|c r IH]; intros i; simpl; [discriminate|].
    destruct (c =? LF)%N.
    - intros [= <-]. lia.
    - destruct (indexOf_LF r) as [j|]; [|discriminate].
      intros [= <-]. specialize (IH j eq_refl). lia. }
  apply Hlt in Hidx. subst rest. unfold slice_from.
  rewrite length_skipn. lia.
Qed.

Definition handleData (st : State) (chunk : jsstring) : State * list Event :=
  if closed st then (st, [])
  else
    let '(evs, buf) := processBuffer (buffer st ++ chunk) in
    (mkState buf (closed st), evs).

(** Successive ['data'] events. *)
Fixpoint feed (st : State) (chunks : list jsstring) : State * list Event :=
  match chunks with
  | [] => (st, [])
  | chunk :: rest =>
      let '(st1, evs1) := handleData st chunk in
      let '(st2, evs2) := feed st1 rest in
      (st2, evs1 ++ evs2)
  end.

(** ** Reference framing

    What the specification calls the complete lines of a stream (the
    pieces that end in a line feed) and the partial trailing line. *)
Fixpoint split_lines (s : jsstring) : list jsstring * jsstring :=
  match s with
  | [] => ([], [])
  | c :: r =>
      let '(ls, tl) := split_lines r in
      if (c =? LF)%N then ([] :: ls, tl)
      else match ls with
           | [] => ([], c :: tl)
           | l :: ls' => ((c :: l) :: ls', tl)
           end
  end.

Definition complete_lines (s : jsstring) : list jsstring := fst (split_lines s).
Definition partial_line (s : jsstring) : jsstring := snd (split_lines s).



End Reader.

End Transport.

(* ===================================================================== *)
(** * Stdio transport, both directions ([src/transport/stdio.ts]) *)
(* ===================================================================== *)

Module Stdio.
Import Transport.

Section Endpoint.

Variable Msg : Type.
Variable JSON_parse : jsstring -> option Msg.

(** [JSON.stringify(message)], which may throw. *)
Variable JSON_stringify : Msg -> Outcome jsstring.

(** What a transport does to the outside: events to its listeners, bytes
    to standard output, the end of standard input, and how the promise of
    a [send] is settled.  A write is taken to succeed. *)
Inductive Output : Type :=
| Emit (e : Event Msg)
| EmitClose
| EmitError (e : JsError)
| Write (bytes : jsstring)
| DestroyStdin
| Settled (o : Outcome unit).

Definition handleEnd (st : State) : State * list Output :=
  (mkState (buffer st) true, [EmitClose]).

Definition handleError (e : JsError) (st : State) : State * list Output :=
  (st, [EmitError e]).

Definition send (message : Msg) (st : State) : State * list Output :=
  if closed st
  then (st, [Settled (Throws (PlainError "Transport is closed"))])
  else match JSON_stringify message with
       | Returns json => (st, [Write (json ++ [LF]); Settled (Returns tt)])
       | Throws e => (st, [Settled (Throws e)])
       end.

Definition close (st : State) : State * list Output :=
  if closed st then (st, [])
  else (mkState (buffer st) true, [DestroyStdin; EmitClose]).

Inductive Op : Type :=
| Data (chunk : jsstring)
| End_
| Error_ (e : JsError)
| Send (message : Msg)
| Close.

Definition step (st : State) (op : Op) : State * list Output :=
  match op with
  | Data chunk =>
      let '(st', evs) := handleData JSON_parse st chunk in (st', map Emit evs)
  | End_ => handleEnd st
  | Error_ e => handleError e st
  | Send message => send message st
  | Close => close st
  end.

Fixpoint run (st : State) (ops : list Op) : State * list Output :=
  match ops with
  | [] => (st, [])
  | op :: rest =>
      let '(st1, out1) := step st op in
      let '(st2, out2) := run st1 rest in
      (st2, out1 ++ out2)
  end.



(** A stream whose lines end in carriage return and line feed, and the
    same lines ended by a line feed alone. *)
Definition CR : code_unit := 13%N.

Definition crlf_stream (lines : list jsstring) : jsstring :=
  flat_map (fun l => l ++ [CR; LF]) lines.

Definition lf_stream (lines : list jsstring) : jsstring :=
  flat_map (fun l => l ++ [LF]) lines.

End Endpoint.

End Stdio.

(* ===================================================================== *)
(** * Schema validator ([src/validation/schema-validator.ts]) *)
(* ===================================================================== *)

Module Validator.

(** An entry of [validate.errors]. *)
Record AjvError : Type := mkAjvError {
  instancePath : string;
  schemaPath : string;
  keyword : string;
  ajv_params : JSON;
  ajv_message : string
}.

(** What [ajv.compile(schema)] followed by [validate(input)] does:
    [compile] throws, or the compiled function accepts the input, or it
    rejects it and leaves [validate.errors] (possibly absent). *)
Inductive AjvResult : Type :=
| CompileThrows (msg : string)
| Valid
| Invalid (errors : option (list AjvError)).

Definition AjvError_to_json (e : AjvError) : JSON :=
  JObj [("instancePath", JStr (instancePath e));
        ("schemaPath", JStr (schemaPath e));
        ("keyword", JStr (keyword e));
        ("params", ajv_params e);
        ("message", JStr (ajv_message e))].

Definition errors_to_json (errors : option (list AjvError)) : option JSON :=
  match errors with
  | Some l => Some (JArr (map AjvError_to_json l))
  | None => None
  end.

(** [validate.errors?.map(err => `${err.instancePath} ${err.message}`)
      .join(', ') || fallback] *)
Definition errors_text (errors : option (list AjvError)) (fallback : string) : string :=
  match errors with
  | Some l =>
      let joined := join ", " (map (fun err => instancePath err +++ " " +++ ajv_message err) l) in
      if (joined =? "")%string then fallback else joined
  | None => fallback
  end.

Section WithAjv.

(** The Ajv library, which is not part of this repository. *)
Variable ajv : JSON -> JSON -> AjvResult.

Definition validateToolInput (schema : JSON) (input : JSON) : Outcome JSON :=
  match ajv schema input with
  | Valid => Returns input
  | Invalid errors =>
      Throws (ValidationError
                ("Tool input validation failed: " +++ errors_text errors "Invalid input")
                (Some (JObj (obj_of [("errors", errors_to_json errors);
                                     ("input", Some input)]))))
  | CompileThrows msg =>
      Throws (ValidationError "Schema compilation failed"
                (Some (JObj [("error", JStr msg)])))
  end.

(** [validate]: the same check for any schema; here [ajv.compile] is not
    guarded, so what it throws leaves as it is. *)
Definition validate (schema : JSON) (data : JSON) : Outcome JSON :=
  match ajv schema data with
  | Valid => Returns data
  | Invalid errors =>
      Throws (ValidationError
                ("Schema validation failed: " +++ errors_text errors "Validation failed")
                (Some (JObj (obj_of [("errors", errors_to_json errors);
                                     ("data", Some data)]))))
  | CompileThrows msg => Throws (PlainError msg)
  end.

End WithAjv.

End Validator.

(* ===================================================================== *)
(** * JavaScript [Map]: a map that remembers insertion order *)
(* ===================================================================== *)

Module JsMap.

Section Map.

Variables K V : Type.
Variable K_eq_dec : forall x y : K, {x = y} + {x <> y}.

(** Entries in iteration order; keys are pairwise distinct. *)
Definition t : Type := list (K * V).

Definition empty : t := [].

Fixpoint get (k : K) (m : t) : option V :=
  match m with
  | [] => None
  | (k', v) :: rest => if K_eq_dec k' k then Some v else get k rest
  end.

(** [m.set(k, v)]: a key already present keeps its place and takes the
    new value; a new key goes last. *)
Fixpoint set (k : K) (v : V) (m : t) : t :=
  match m with
  | [] => [(k, v)]
  | (k', v') :: rest =>
      if K_eq_dec k' k then (k', v) :: rest
      else (k', v') :: set k v rest
  end.

(** [m.delete(k)]: the entry of [k] goes, the others keep their order. *)
Fixpoint delete (k : K) (m : t) : t :=
  match m with
  | [] => []
  | (k', v') :: rest =>
      if K_eq_dec k' k then delete k rest
      else (k', v') :: delete k rest
  end.

(** [m.clear()] *)
Definition clear (m : t) : t := [].

(** [m.keys()], [m.values()] *)
Definition keys (m : t) : list K := map fst m.
Definition values (m : t) : list V := map snd m.

(** ** Histories of registrations

    A registry is a map driven by [set] and [delete].  What the
    specification says of it is phrased over the history of these calls,
    key by key: the value a key should have, and the rank of the call that
    inserted it. *)
Inductive RegOp : Type :=
| Add (k : K) (v : V)
| Remove (k : K).

Definition apply_op (m : t) (op : RegOp) : t :=
  match op with
  | Add k v => set k v m
  | Remove k => delete k m
  end.

Definition apply_ops (ops : list RegOp) (m : t) : t := fold_left apply_op ops m.

(** The most recent registration of [k], if it was not removed since. *)
Definition latest_step (k : K) (cur : option V) (op : RegOp) : option V :=
  match op with
  | Add k' v => if K_eq_dec k' k then Some v else cur
  | Remove k' => if K_eq_dec k' k then None else cur
  end.

Definition latest (k : K) (ops : list RegOp) : option V :=
  fold_left (latest_step k) ops None.

(** The rank in the history of the registration that inserted [k]: the
    first one since [k] was last removed, or since the start. *)
Definition inserted_step (k : K) (now : nat) (cur : option nat) (op : RegOp)
  : option nat :=
  match op with
  | Add k' _ =>
      if K_eq_dec k' k
      then match cur with
           | Some rank => Some rank
           | None => Some now
           end
      else cur
  | Remove k' => if K_eq_dec k' k then None else cur
  end.

Fixpoint inserted_from (k : K) (ops : list RegOp) (now : nat) (cur : option nat)
  : option nat :=
  match ops with
  | [] => cur
  | op :: rest => inserted_from k rest (S now) (inserted_step k now cur op)
  end.

Definition inserted_at (k : K) (ops : list RegOp) : option nat :=
  inserted_from k ops 0 None.

Definition earlier (a b : option nat) : Prop :=
  match a, b with
  | Some x, Some y => x < y
  | _, _ => False
  end.

(** The registry agrees with its history: every key has its most recent
    definition or is absent, and iteration goes by rank of insertion. *)
Definition follows (ops : list RegOp) (m : t) : Prop :=
  (forall k, get k m = latest k ops)
  /\ NoDup (keys m)
  /\ StronglySorted (fun k1 k2 => earlier (inserted_at k1 ops) (inserted_at k2 ops))
                    (keys m).

(** The invariant carried along a history: [T] gives the rank of insertion
    of the keys present, all ranks lie in the past, and iteration goes by
    rank. *)
Definition tracked (m : t) (now : nat) (T : K -> option nat) : Prop :=
  NoDup (keys m)
  /\ (forall k, In k (keys m) <-> T k <> None)
  /\ (forall k rank, T k = Some rank -> rank < now)
  /\ StronglySorted (fun k1 k2 => earlier (T k1) (T k2)) (keys m).

End Map.

Arguments Add {K V} k v.
Arguments Remove {K V} k.

End JsMap.

(* ===================================================================== *)
(** * String helpers *)
(* ===================================================================== *)

Module JsString.

Definition upper_ascii (c : ascii) : ascii :=
  let n := nat_of_ascii c in
  if ((97 <=? n) && (n <=? 122))%nat then ascii_of_nat (n - 32) else c.

Definition lower_ascii (c : ascii) : ascii :=
  let n := nat_of_ascii c in
  if ((65 <=? n) && (n <=? 90))%nat then ascii_of_nat (n + 32) else c.

Fixpoint map_chars (f : ascii -> ascii) (s : string) : string :=
  match s with
  | EmptyString => EmptyString
  | String c r => String (f c) (map_chars f r)
  end.

(** [s.toUpperCase()] and [s.toLowerCase()] on the ASCII letters, which
    are the only ones the comparisons of this program can tell apart. *)
Definition toUpperCase (s : string) : string := map_chars upper_ascii s.
Definition toLowerCase (s : string) : string := map_chars lower_ascii s.

(** [s.split(' ')] *)
Fixpoint split_space (s : string) : list string :=
  match s with
  | EmptyString => [EmptyString]
  | String c r =>
      if Ascii.eqb c " "%char then EmptyString :: split_space r
      else match split_space r with
           | [] => [String c EmptyString]
           | part :: parts => String c part :: parts
           end
  end.

Fixpoint count_spaces (s : string) : nat :=
  match s with
  | EmptyString => 0
  | String c r => if Ascii.eqb c " "%char then S (count_spaces r) else count_spaces r
  end.

End JsString.

(* ===================================================================== *)
(** * The server ([src/client/mcp-client.ts], class [MCPServer]) *)
(* ===================================================================== *)

Module Server.
Import Validator.

(** ** Messages and definitions

    Modelled from the spec: the declarations of [src/types/mcp.ts]
    ([MCPMessage], [MCPTool], [MCPResource], [MCPPrompt]) are not among
    the sources; the shapes are those of the data model of the
    specification.  The constant member [jsonrpc: '2.0'] is left out. *)

Inductive Id : Type :=
| IdNum (n : Z)
| IdStr (s : string).

Definition Id_eq_dec (x y : Id) : {x = y} + {x <> y}.
Proof. decide equality; [apply Z.eq_dec | apply string_dec]. Defined.

Record MCPMessage : Type := mkMessage {
  id : option Id;
  method : option string;
  params : option JSON;
  result : option JSON;
  error : option ErrorObject
}.

Record MCPTool : Type := mkTool {
  tool_name : string;
  tool_description : string;
  inputSchema : option JSON
}.

Record MCPResource : Type := mkResource {
  uri : string;
  resource_name : option string;
  resource_description : option string;
  mimeType : option string
}.

Record MCPPrompt : Type := mkPrompt {
  prompt_name : string;
  prompt_description : option string;
  prompt_arguments : option JSON
}.

Definition opt_str (o : option string) : option JSON :=
  match o with
  | Some x => Some (JStr x)
  | None => None
  end.

Definition MCPTool_to_json (d : MCPTool) : JSON :=
  JObj (obj_of [("name", Some (JStr (tool_name d)));
                ("description", Some (JStr (tool_description d)));
                ("inputSchema", inputSchema d)]).

Definition MCPResource_to_json (d : MCPResource) : JSON :=
  JObj (obj_of [("uri", Some (JStr (uri d)));
                ("name", opt_str (resource_name d));
                ("description", opt_str (resource_description d));
                ("mimeType", opt_str (mimeType d))]).

Definition MCPPrompt_to_json (d : MCPPrompt) : JSON :=
  JObj (obj_of [("name", Some (JStr (prompt_name d)));
                ("description", opt_str (prompt_description d));
                ("arguments", prompt_arguments d)]).

(** ** Handlers

    Application code.  A handler is taken to settle: it returns a value
    or throws. *)
Definition ToolHandler : Type := JSON -> Outcome JSON.

Record ResourceContents : Type := mkContents {
  contents : JSON;
  contents_mimeType : option string
}.

Definition ResourceHandler : Type := string -> Outcome ResourceContents.
Definition PromptHandler : Type := JSON -> Outcome JSON.

Record ToolEntry : Type := mkToolEntry {
  tool_definition : MCPTool;
  tool_handler : ToolHandler
}.

Record ResourceEntry : Type := mkResourceEntry {
  resource_definition : MCPResource;
  resource_handler : ResourceHandler
}.

Record PromptEntry : Type := mkPromptEntry {
  prompt_definition : MCPPrompt;
  prompt_handler : PromptHandler
}.

(** ** Logger level ([LogLevel], [Logger.setLogLevel])

    A numeric TypeScript enum is an object that maps names to numbers and
    numbers back to names, so [LogLevel[key]] is defined for the four
    names and for ["0"] to ["3"]. *)
Inductive LogLevel : Type := DEBUG | INFO | WARN | ERROR.

Inductive LogLevelMember : Type :=
| LevelNumber (l : LogLevel)
| LevelName (l : LogLevel).

Definition LogLevel_member (key : string) : option LogLevelMember :=
  if (key =? "DEBUG")%string then Some (LevelNumber DEBUG)
  else if (key =? "INFO")%string then Some (LevelNumber INFO)
  else if (key =? "WARN")%string then Some (LevelNumber WARN)
  else if (key =? "ERROR")%string then Some (LevelNumber ERROR)
  else if (key =? "0")%string then Some (LevelName DEBUG)
  else if (key =? "1")%string then Some (LevelName INFO)
  else if (key =? "2")%string then Some (LevelName WARN)
  else if (key =? "3")%string then Some (LevelName ERROR)
  else None.

(** ** State *)

Record ServerInfo : Type := mkServerInfo {
  info_name : string;
  info_version : string
}.

(** An entry of [pendingRequests].  Its [resolve] and [reject] settle the
    promise that [sendRequest] returned and [timeout] is the timer armed
    by the same call; one ticket, the rank of the call, names both. *)
Record PendingRequest : Type := mkPending {
  ticket : nat
}.

Record MCPServer : Type := mkServer {
  initialized : bool;
  tools : JsMap.t string ToolEntry;
  resources : JsMap.t string ResourceEntry;
  prompts : JsMap.t string PromptEntry;
  requestId : Z;
  pendingRequests : JsMap.t Id PendingRequest;
  serverInfo : ServerInfo;
  logLevel : LogLevelMember;
  (** [transport.closed] *)
  transport_closed : bool;
  (** armed deadline timers: ticket and the request id the callback
      deletes *)
  timers : list (nat * Z);
  (** number of [sendRequest] calls so far *)
  tickets : nat
}.

(** What the outside can observe of a run. *)
Inductive Effect : Type :=
| ESend (m : MCPMessage)                    (* a line written by transport.send *)
| EEmit (event : string)                    (* this.emit(event) *)
| ECallTool (name : string) (args : JSON)   (* tool.handler(args) *)
| ECallResource (u : string)                (* resource.handler(uri) *)
| ECallPrompt (name : string) (args : JSON) (* prompt.handler(args) *)
| EResolve (t : nat) (value : JSON)         (* pending.resolve(value) *)
| EReject (t : nat) (e : JsError)           (* pending.reject(e) / reject(e) *)
| ESetTimeout (t : nat) (ms : Z)
| EClearTimeout (t : nat)
| EDestroyStdin
| EExitAfter (ms : Z) (exitCode : Z).

(** Field updates. *)
Definition set_initialized (b : bool) (s : MCPServer) : MCPServer :=
  mkServer b (tools s) (resources s) (prompts s) (requestId s)
           (pendingRequests s) (serverInfo s) (logLevel s)
           (transport_closed s) (timers s) (tickets s).

Definition set_tools (m : JsMap.t string ToolEntry) (s : MCPServer) : MCPServer :=
  mkServer (initialized s) m (resources s) (prompts s) (requestId s)
           (pendingRequests s) (serverInfo s) (logLevel s)
           (transport_closed s) (timers s) (tickets s).

Definition set_resources (m : JsMap.t string ResourceEntry) (s : MCPServer) : MCPServer :=
  mkServer (initialized s) (tools s) m (prompts s) (requestId s)
           (pendingRequests s) (serverInfo s) (logLevel s)
           (transport_closed s) (timers s) (tickets s).

Definition set_prompts (m : JsMap.t string PromptEntry) (s : MCPServer) : MCPServer :=
  mkServer (initialized s) (tools s) (resources s) m (requestId s)
           (pendingRequests s) (serverInfo s) (logLevel s)
           (transport_closed s) (timers s) (tickets s).

Definition set_requestId (n : Z) (s : MCPServer) : MCPServer :=
  mkServer (initialized s) (tools s) (resources s) (prompts s) n
           (pendingRequests s) (serverInfo s) (logLevel s)
           (transport_closed s) (timers s) (tickets s).

Definition set_pendingRequests (m : JsMap.t Id PendingRequest) (s : MCPServer) : MCPServer :=
  mkServer (initialized s) (tools s) (resources s) (prompts s) (requestId s)
           m (serverInfo s) (logLevel s)
           (transport_closed s) (timers s) (tickets s).

Definition set_logLevel (l : LogLevelMember) (s : MCPServer) : MCPServer :=
  mkServer (initialized s) (tools s) (resources s) (prompts s) (requestId s)
           (pendingRequests s) (serverInfo s) l
           (transport_closed s) (timers s) (tickets s).

Definition set_transport_closed (b : bool) (s : MCPServer) : MCPServer :=
  mkServer (initialized s) (tools s) (resources s) (prompts s) (requestId s)
           (pendingRequests s) (serverInfo s) (logLevel s)
           b (timers s) (tickets s).

Definition set_timers (l : list (nat * Z)) (s : MCPServer) : MCPServer :=
  mkServer (initialized s) (tools s) (resources s) (prompts s) (requestId s)
           (pendingRequests s) (serverInfo s) (logLevel s)
           (transport_closed s) l (tickets s).

Definition set_tickets (n : nat) (s : MCPServer) : MCPServer :=
  mkServer (initialized s) (tools s) (resources s) (prompts s) (requestId s)
           (pendingRequests s) (serverInfo s) (logLevel s)
           (transport_closed s) (timers s) n.

(** [new MCPServer(options)]; [options.logLevel || LogLevel.INFO] takes
    [INFO] also for [DEBUG], which is [0]. *)
Definition MCPServer_new (level : option LogLevel) (info : option ServerInfo) : MCPServer :=
  mkServer false (JsMap.empty _ _) (JsMap.empty _ _) (JsMap.empty _ _) 0
           (JsMap.empty _ _)
           (match info with
            | Some i => i
            | None => mkServerInfo "MCP Server" "1.0.0"
            end)
           (match level with
            | Some DEBUG | None => LevelNumber INFO
            | Some l => LevelNumber l
            end)
           false [] 0.

(** ** A state, exception and output monad for the methods *)

Definition M (A : Type) : Type := MCPServer -> Outcome A * MCPServer * list Effect.

Definition ret {A : Type} (a : A) : M A := fun s => (Returns a, s, []).

Definition throw {A : Type} (e : JsError) : M A := fun s => (Throws e, s, []).

Definition bind {A B : Type} (c : M A) (k : A -> M B) : M B :=
  fun s =>
    match c s with
    | (Returns a, s1, out1) =>
        let '(r, s2, out2) := k a s1 in (r, s2, out1 ++ out2)
    | (Throws e, s1, out1) => (Throws e, s1, out1)
    end.

(** [try { c } catch (error) { h error }] *)
Definition try_catch {A : Type} (c : M A) (h : JsError -> M A) : M A :=
  fun s =>
    match c s with
    | (Returns a, s1, out1) => (Returns a, s1, out1)
    | (Throws e, s1, out1) =>
        let '(r, s2, out2) := h e s1 in (r, s2, out1 ++ out2)
    end.

(** Read a member of [this]. *)
Definition reads {A : Type} (member : MCPServer -> A) : M A :=
  fun s => (Returns (member s), s, []).
Definition modify (f : MCPServer -> MCPServer) : M unit := fun s => (Returns tt, f s, []).
Definition emit (e : Effect) : M unit := fun s => (Returns tt, s, [e]).
Definition settle {A : Type} (o : Outcome A) : M A := fun s => (o, s, []).

Declare Scope mcp_scope.
Delimit Scope mcp_scope with mcp.
Notation "x <- c1 ;; c2" := (bind c1 (fun x => c2))
  (at level 61, c1 at next level, right associativity) : mcp_scope.
Notation "c1 ;; c2" := (bind c1 (fun _ => c2))
  (at level 61, right associativity) : mcp_scope.
Local Open Scope mcp_scope.

(** [const { k } = params]: a [TypeError] when [params] is [undefined] or
    [null]. *)
Definition destructure (what : string) (k : string) (v : option JSON) : M JSON :=
  match v with
  | None =>
      throw (PlainError ("Cannot destructure property '" +++ k +++ "' of '"
                         +++ what +++ "' as it is undefined."))
  | Some JNull =>
      throw (PlainError ("Cannot destructure property '" +++ k +++ "' of '"
                         +++ what +++ "' as it is null."))
  | Some p => ret p
  end.

(** [map.get(key)] for a key read off the wire: only a string can be a
    key of the registries.  The key found is returned with the entry. *)
Definition get_by_json {V : Type} (key : option JSON) (m : JsMap.t string V)
  : option (string * V) :=
  match key with
  | Some (JStr k) =>
      match JsMap.get string_dec k m with
      | Some v => Some (k, v)
      | None => None
      end
  | _ => None
  end.

Section Engine.

(** Library code the class calls: Ajv and
    [JSON.stringify(value, null, 2)]. *)
Variable ajv : JSON -> JSON -> AjvResult.
Variable JSON_stringify : JSON -> string.

(** [typeof v === 'string' ? v : JSON.stringify(v, null, 2)] *)
Definition as_text (v : JSON) : string :=
  match v with
  | JStr text => text
  | _ => JSON_stringify v
  end.

(** *** Transport *)

Definition transport_send (message : MCPMessage) : M unit :=
  fun s =>
    if transport_closed s
    then (Throws (PlainError "Transport is closed"), s, [])
    else (Returns tt, s, [ESend message]).

Definition sendResult (i : Id) (res : JSON) : M unit :=
  transport_send (mkMessage (Some i) None None (Some res) None).

Definition sendError (i : Id) (e : ErrorObject) : M unit :=
  transport_send
    (mkMessage (Some i) None None None
               (Some (toJSON (err_code e) (err_message e) (err_data e)))).

(** *** Method handlers *)

Definition capabilities : JSON :=
  JObj [("logging", JObj []);
        ("tools", JObj [("listChanged", JBool true)]);
        ("resources", JObj [("subscribe", JBool true); ("listChanged", JBool true)]);
        ("prompts", JObj [("listChanged", JBool true)])].

Definition handleInitialize (p : option JSON) : M JSON :=
  info <- reads serverInfo ;;
  ret (JObj [("protocolVersion", JStr "2024-11-05");
             ("capabilities", capabilities);
             ("serverInfo", JObj [("name", JStr (info_name info));
                                  ("version", JStr (info_version info))])]).

Definition handleInitialized : M unit :=
  modify (set_initialized true) ;;
  emit (EEmit "initialized").

Definition handleToolsList : M JSON :=
  registry <- reads tools ;;
  ret (JObj [("tools",
              JArr (map (fun tool => MCPTool_to_json (tool_definition tool))
                        (JsMap.values registry)))]).

(** [if (tool.definition.inputSchema && args) {
       this.validator.validateToolInput(tool.definition.inputSchema, args);
     }] *)
Definition check_arguments (tool : ToolEntry) (args : option JSON) : Outcome unit :=
  if truthy_opt (inputSchema (tool_definition tool)) && truthy_opt args
  then match inputSchema (tool_definition tool), args with
       | Some schema, Some input =>
           match validateToolInput ajv schema input with
           | Returns _ => Returns tt
           | Throws e => Throws e
           end
       | _, _ => Returns tt
       end
  else Returns tt.

Definition handleToolsCall (p : option JSON) : M JSON :=
  obj <- destructure "params" "name" p ;;
  let name := get_prop "name" obj in
  let args := get_prop "arguments" obj in
  registry <- reads tools ;;
  match get_by_json name registry with
  | None =>
      throw (MCPError METHOD_NOT_FOUND ("Tool not found: " +++ to_display_opt name) None)
  | Some (key, tool) =>
      try_catch
        (settle (check_arguments tool args) ;;
         emit (ECallTool key (or_empty_object args)) ;;
         res <- settle (tool_handler tool (or_empty_object args)) ;;
         ret (JObj [("content",
                     JArr [JObj [("type", JStr "text");
                                 ("text", JStr (as_text res))]])]))
        (fun err =>
           throw (ToolExecutionError
                    ("Tool execution failed: " +++ message_of err)
                    (Some (JObj (obj_of [("tool", name); ("arguments", args)])))))
  end.

Definition handleResourcesList : M JSON :=
  registry <- reads resources ;;
  ret (JObj [("resources",
              JArr (map (fun r => MCPResource_to_json (resource_definition r))
                        (JsMap.values registry)))]).

Definition handleResourcesRead (p : option JSON) : M JSON :=
  obj <- destructure "params" "uri" p ;;
  let u := get_prop "uri" obj in
  registry <- reads resources ;;
  match get_by_json u registry with
  | None =>
      throw (MCPError RESOURCE_NOT_FOUND ("Resource not found: " +++ to_display_opt u) None)
  | Some (key, resource) =>
      try_catch
        (emit (ECallResource key) ;;
         res <- settle (resource_handler resource key) ;;
         ret (JObj [("contents",
                     JArr [JObj (obj_of
                             [("uri", u);
                              ("mimeType",
                               Some (JStr (match contents_mimeType res with
                                           | Some mt => if (mt =? "")%string
                                                        then "text/plain" else mt
                                           | None => "text/plain"
                                           end)));
                              ("text", Some (JStr (as_text (contents res))))])])]))
        (fun err =>
           throw (MCPError INTERNAL_ERROR
                    ("Failed to read resource: " +++ message_of err)
                    (Some (JObj (obj_of [("uri", u)])))))
  end.

Definition handlePromptsList : M JSON :=
  registry <- reads prompts ;;
  ret (JObj [("prompts",
              JArr (map (fun pr => MCPPrompt_to_json (prompt_definition pr))
                        (JsMap.values registry)))]).

Definition handlePromptsGet (p : option JSON) : M JSON :=
  obj <- destructure "params" "name" p ;;
  let name := get_prop "name" obj in
  let args := get_prop "arguments" obj in
  registry <- reads prompts ;;
  match get_by_json name registry with
  | None =>
      throw (MCPError METHOD_NOT_FOUND ("Prompt not found: " +++ to_display_opt name) None)
  | Some (key, prompt) =>
      try_catch
        (emit (ECallPrompt key (or_empty_object args)) ;;
         settle (prompt_handler prompt (or_empty_object args)))
        (fun err =>
           throw (MCPError INTERNAL_ERROR
                    ("Prompt execution failed: " +++ message_of err)
                    (Some (JObj (obj_of [("prompt", name); ("arguments", args)])))))
  end.

Definition handleLoggingSetLevel (p : option JSON) : M unit :=
  obj <- destructure "params" "level" p ;;
  match get_prop "level" obj with
  | Some (JStr level) =>
      match LogLevel_member (JsString.toUpperCase level) with
      | Some l => modify (set_logLevel l)
      | None => ret tt
      end
  | Some _ => throw (PlainError "level.toUpperCase is not a function")
  | None =>
      throw (PlainError "Cannot read properties of undefined (reading 'toUpperCase')")
  end.

(** *** Dispatch *)

(** The [switch] of [handleRequest]: [Some result] where the case ends
    in [break], [None] where it ends in [return]. *)
Definition dispatch (m : option string) (p : option JSON) : M (option JSON) :=
  match m with
  | Some name =>
      if (name =? "initialize")%string then
        res <- handleInitialize p ;; ret (Some res)
      else if (name =? "initialized")%string then
        handleInitialized ;; ret None
      else if (name =? "tools/list")%string then
        res <- handleToolsList ;; ret (Some res)
      else if (name =? "tools/call")%string then
        res <- handleToolsCall p ;; ret (Some res)
      else if (name =? "resources/list")%string then
        res <- handleResourcesList ;; ret (Some res)
      else if (name =? "resources/read")%string then
        res <- handleResourcesRead p ;; ret (Some res)
      else if (name =? "prompts/list")%string then
        res <- handlePromptsList ;; ret (Some res)
      else if (name =? "prompts/get")%string then
        res <- handlePromptsGet p ;; ret (Some res)
      else if (name =? "logging/setLevel")%string then
        handleLoggingSetLevel p ;; ret None
      else
        throw (MCPError METHOD_NOT_FOUND ("Method not found: " +++ name) None)
  | None =>
      throw (MCPError METHOD_NOT_FOUND "Method not found: undefined" None)
  end.

(** [error instanceof MCPError ? error
      : new MCPError(MCPErrorCode.INTERNAL_ERROR, error.message)] *)
Definition as_MCPError (e : JsError) : ErrorObject :=
  match e with
  | McpError code msg data => mkErrorObject code msg data
  | PlainError msg => mkErrorObject (code_value INTERNAL_ERROR) msg None
  end.

Definition handleRequest (message : MCPMessage) : M unit :=
  try_catch
    (r <- dispatch (method message) (params message) ;;
     match r with
     | None => ret tt
     | Some res =>
         match id message with
         | Some i => sendResult i res
         | None => ret tt
         end
     end)
    (fun err =>
       match id message with
       | Some i => sendError i (as_MCPError err)
       | None => ret tt
       end).

(** [clearTimeout(pending.timeout)] *)
Definition clearTimeout (t : nat) : M unit :=
  modify (fun s => set_timers (JsMap.delete Nat.eq_dec t (timers s)) s) ;;
  emit (EClearTimeout t).

Definition handleResponse (i : Id) (res : JSON) : M unit :=
  table <- reads pendingRequests ;;
  match JsMap.get Id_eq_dec i table with
  | Some pending =>
      clearTimeout (ticket pending) ;;
      modify (fun s => set_pendingRequests
                         (JsMap.delete Id_eq_dec i (pendingRequests s)) s) ;;
      emit (EResolve (ticket pending) res)
  | None => ret tt
  end.

Definition handleErrorResponse (i : Id) (e : ErrorObject) : M unit :=
  table <- reads pendingRequests ;;
  match JsMap.get Id_eq_dec i table with
  | Some pending =>
      clearTimeout (ticket pending) ;;
      modify (fun s => set_pendingRequests
                         (JsMap.delete Id_eq_dec i (pendingRequests s)) s) ;;
      emit (EReject (ticket pending)
                    (McpError (err_code e) (err_message e) (err_data e)))
  | None => ret tt
  end.

Definition handleMessage (message : MCPMessage) : M unit :=
  try_catch
    (match id message, result message, error message with
     | Some i, Some res, _ => handleResponse i res
     | Some i, None, Some e => handleErrorResponse i e
     | _, _, _ =>
         match method message with
         | Some name =>
             if (name =? "")%string then ret tt else handleRequest message
         | None => ret tt
         end
     end)
    (fun err =>
       match id message with
       | Some i =>
           sendError i
             (mkErrorObject (code_value INTERNAL_ERROR) "Internal server error"
                (Some (JObj [("originalError", JStr (message_of err))])))
       | None => ret tt
       end).

(** *** Outbound requests *)

(** [++n] on a JavaScript number that counts up from [0]: exact below
    [2^53]; at [2^53] the sum rounds back to [2^53]. *)
Definition js_incr (n : Z) : Z :=
  if (n <? 2 ^ 53)%Z then (n + 1)%Z else n.

(** What the caller of [sendRequest] holds: the promise, named by its
    ticket; the id of the envelope is recorded with it. *)
Record Issued : Type := mkIssued {
  issued_id : Z;
  issued_ticket : nat
}.

Definition sendRequest (m : string) (p : option JSON) (timeout : option Z)
  : MCPServer -> Issued * MCPServer * list Effect :=
  fun s =>
    let ms := match timeout with
              | Some t => t
              | None => 30000%Z
              end in
    let i := js_incr (requestId s) in
    let message := mkMessage (Some (IdNum i)) (Some m) p None None in
    let t := tickets s in
    let s1 := set_tickets (S t) (set_requestId i s) in
    (* setTimeout(..., timeout) *)
    let s2 := set_timers (JsMap.set Nat.eq_dec t i (timers s1)) s1 in
    (* this.pendingRequests.set(id, {resolve, reject, timeout}) *)
    let s3 := set_pendingRequests
                (JsMap.set Id_eq_dec (IdNum i) (mkPending t) (pendingRequests s2)) s2 in
    (* this.transport.send(message).catch(reject) *)
    match transport_send message s3 with
    | (Returns _, s4, out) => (mkIssued i t, s4, ESetTimeout t ms :: out)
    | (Throws e, s4, out) => (mkIssued i t, s4, ESetTimeout t ms :: out ++ [EReject t e])
    end.

(** The callback of the deadline timer of ticket [t], run by the event
    loop if the timer is still armed. *)
Definition timer_fires (t : nat) : MCPServer -> MCPServer * list Effect :=
  fun s =>
    match JsMap.get Nat.eq_dec t (timers s) with
    | Some i =>
        let s1 := set_timers (JsMap.delete Nat.eq_dec t (timers s)) s in
        let s2 := set_pendingRequests
                    (JsMap.delete Id_eq_dec (IdNum i) (pendingRequests s1)) s1 in
        (s2, [EReject t (MCPError TIMEOUT_ERROR "Request timeout" None)])
    | None => (s, [])
    end.

(** *** Registration API *)

Definition addTool (definition : MCPTool) (handler : ToolHandler) (s : MCPServer) : MCPServer :=
  set_tools (JsMap.set string_dec (tool_name definition)
                       (mkToolEntry definition handler) (tools s)) s.

Definition addResource (definition : MCPResource) (handler : ResourceHandler)
           (s : MCPServer) : MCPServer :=
  set_resources (JsMap.set string_dec (uri definition)
                           (mkResourceEntry definition handler) (resources s)) s.

Definition addPrompt (definition : MCPPrompt) (handler : PromptHandler)
           (s : MCPServer) : MCPServer :=
  set_prompts (JsMap.set string_dec (prompt_name definition)
                         (mkPromptEntry definition handler) (prompts s)) s.

Definition removeTool (name : string) (s : MCPServer) : MCPServer :=
  set_tools (JsMap.delete string_dec name (tools s)) s.

Definition removeResource (u : string) (s : MCPServer) : MCPServer :=
  set_resources (JsMap.delete string_dec u (resources s)) s.

Definition removePrompt (name : string) (s : MCPServer) : MCPServer :=
  set_prompts (JsMap.delete string_dec name (prompts s)) s.

Definition isInitialized (s : MCPServer) : bool := initialized s.

(** *** Shutdown *)

(** The [for ... of this.pendingRequests] loop of [shutdown], over the
    entries in iteration order. *)
Fixpoint reject_all (entries : list (Id * PendingRequest)) : M unit :=
  match entries with
  | [] => ret tt
  | (_, pending) :: rest =>
      clearTimeout (ticket pending) ;;
      emit (EReject (ticket pending) (PlainError "Server shutting down")) ;;
      reject_all rest
  end.

(** [transport.close()]; the transport's ['close'] event is re-emitted
    by [handleTransportClose]. *)
Definition transport_close : M unit :=
  closed <- reads transport_closed ;;
  if closed : bool then ret tt
  else
    modify (set_transport_closed true) ;;
    emit EDestroyStdin ;;
    emit (EEmit "close").

Definition shutdown (exitCode : option Z) : M unit :=
  table <- reads pendingRequests ;;
  reject_all table ;;
  modify (fun s => set_pendingRequests (JsMap.clear (pendingRequests s)) s) ;;
  transport_close ;;
  emit (EEmit "shutdown") ;;
  emit (EExitAfter 1000 (match exitCode with
                         | Some c => c
                         | None => 0%Z
                         end)).

(** *** Runs *)

Inductive Op : Type :=
| Receive (message : MCPMessage)
| SendRequest (m : string) (p : option JSON) (timeout : option Z)
| TimerFires (t : nat)
| Shutdown (exitCode : option Z)
| AddTool (definition : MCPTool) (handler : ToolHandler)
| AddResource (definition : MCPResource) (handler : ResourceHandler)
| AddPrompt (definition : MCPPrompt) (handler : PromptHandler)
| RemoveTool (name : string)
| RemoveResource (u : string)
| RemovePrompt (name : string).

(** One turn of the event loop.  Besides the new state and the effects,
    the id handed out when the turn is a [sendRequest]. *)
Definition step (s : MCPServer) (op : Op) : MCPServer * list Effect * option Z :=
  match op with
  | Receive message =>
      let '(_, s', out) := handleMessage message s in (s', out, None)
  | SendRequest m p timeout =>
      let '(issued, s', out) := sendRequest m p timeout s in
      (s', out, Some (issued_id issued))
  | TimerFires t =>
      let '(s', out) := timer_fires t s in (s', out, None)
  | Shutdown exitCode =>
      let '(_, s', out) := shutdown exitCode s in (s', out, None)
  | AddTool d h => (addTool d h s, [], None)
  | AddResource d h => (addResource d h s, [], None)
  | AddPrompt d h => (addPrompt d h s, [], None)
  | RemoveTool name => (removeTool name s, [], None)
  | RemoveResource u => (removeResource u s, [], None)
  | RemovePrompt name => (removePrompt name s, [], None)
  end.

Fixpoint run (s : MCPServer) (ops : list Op) : MCPServer * list Effect * list Z :=
  match ops with
  | [] => (s, [], [])
  | op :: rest =>
      let '(s1, out1, issued) := step s op in
      let '(s2, out2, ids) := run s1 rest in
      (s2, out1 ++ out2,
       match issued with
       | Some i => i :: ids
       | None => ids
       end)
  end.

(** The lines written to the peer. *)
Definition sent (out : list Effect) : list MCPMessage :=
  flat_map (fun e => match e with
                     | ESend m => [m]
                     | _ => []
                     end) out.

(** The handler calls made. *)
Definition is_call (e : Effect) : bool :=
  match e with
  | ECallTool _ _ | ECallResource _ | ECallPrompt _ _ => true
  | _ => false
  end.

(** How the promise of ticket [t] is settled by a run: the first call
    of its [resolve] or [reject]; later ones do nothing. *)
Inductive Settlement : Type :=
| Resolved (value : JSON)
| Rejected (e : JsError).

Fixpoint settlement (t : nat) (out : list Effect) : option Settlement :=
  match out with
  | [] => None
  | EResolve t' v :: rest =>
      if Nat.eqb t' t then Some (Resolved v) else settlement t rest
  | EReject t' e :: rest =>
      if Nat.eqb t' t then Some (Rejected e) else settlement t rest
  | _ :: rest => settlement t rest
  end.

(** *** Vocabulary of the properties *)

(** A computation is quiet when it sends no line and leaves the transport
    as it is. *)
Definition quiet {A : Type} (c : M A) : Prop :=
  forall s, sent (snd (c s)) = []
            /\ transport_closed (snd (fst (c s))) = transport_closed s.

(** The envelope [handleRequest] writes once [dispatch] has ended with
    [r]: a result, an error, or nothing when the message has no id or the
    case returned. *)
Definition result_envelope (i : Id) (res : JSON) : MCPMessage :=
  mkMessage (Some i) None None (Some res) None.

Definition error_envelope (i : Id) (e : ErrorObject) : MCPMessage :=
  mkMessage (Some i) None None None (Some e).

Definition reply_to (i : option Id) (r : Outcome (option JSON)) : list MCPMessage :=
  match i, r with
  | Some i', Returns (Some res) => [result_envelope i' res]
  | Some i', Throws e => [error_envelope i' (as_MCPError e)]
  | _, _ => []
  end.

(** The result of a successful [tools/call] and the error of a failed
    one, as [handleToolsCall] builds them. *)
Definition text_content (res : JSON) : JSON :=
  JObj [("content",
         JArr [JObj [("type", JStr "text"); ("text", JStr (as_text res))]])].

Definition tool_failure (name args : option JSON) (err : JsError) : JsError :=
  ToolExecutionError ("Tool execution failed: " +++ message_of err)
                     (Some (JObj (obj_of [("tool", name); ("arguments", args)]))).

(** A [tools/call] request with id [i] for the tool [name]: its params
    hold the name, and [args] under [arguments] when defined. *)
Definition is_tools_call (message : MCPMessage) (i : Id) (name : string)
           (args : option JSON) : Prop :=
  id message = Some i
  /\ method message = Some "tools/call"
  /\ result message = None
  /\ error message = None
  /\ exists obj : JSON,
       params message = Some obj
       /\ get_prop "name" obj = Some (JStr name)
       /\ get_prop "arguments" obj = args.

(** The tool has no schema to check against, or its schema accepts the
    empty object. *)
Definition accepts_empty_object (tool : ToolEntry) : Prop :=
  truthy_opt (inputSchema (tool_definition tool)) = false
  \/ exists schema : JSON,
       inputSchema (tool_definition tool) = Some schema
       /\ ajv schema (JObj []) = Valid.

(** A computation keeps a member of the state when it leaves it as it
    found it. *)
Definition keeps {A B : Type} (member : MCPServer -> B) (c : M A) : Prop :=
  forall s, member (snd (fst (c s))) = member s.

(** What [shutdown] does to the entries of the pending table, in
    iteration order. *)
Definition shutdown_rejections (table : JsMap.t Id PendingRequest) : list Effect :=
  flat_map (fun entry =>
              [EClearTimeout (ticket (snd entry));
               EReject (ticket (snd entry)) (PlainError "Server shutting down")])
           table.

(** The timers left armed once those of a pending table are cleared. *)
Definition cancel_all (table : JsMap.t Id PendingRequest) (armed : list (nat * Z))
  : list (nat * Z) :=
  fold_left (fun tm entry => JsMap.delete Nat.eq_dec (ticket (snd entry)) tm)
            table armed.

(** The registrations of each kind among the turns of a run. *)
Definition tool_op (op : Op) : option (JsMap.RegOp string ToolEntry) :=
  match op with
  | AddTool d h => Some (JsMap.Add (tool_name d) (mkToolEntry d h))
  | RemoveTool name => Some (JsMap.Remove name)
  | _ => None
  end.

Definition resource_op (op : Op) : option (JsMap.RegOp string ResourceEntry) :=
  match op with
  | AddResource d h => Some (JsMap.Add (uri d) (mkResourceEntry d h))
  | RemoveResource u => Some (JsMap.Remove u)
  | _ => None
  end.

Definition prompt_op (op : Op) : option (JsMap.RegOp string PromptEntry) :=
  match op with
  | AddPrompt d h => Some (JsMap.Add (prompt_name d) (mkPromptEntry d h))
  | RemovePrompt name => Some (JsMap.Remove name)
  | _ => None
  end.

Definition history {R : Type} (select : Op -> option R) (ops : list Op) : list R :=
  flat_map (fun op => match select op with
                      | Some r => [r]
                      | None => []
                      end) ops.

(** The message is neither a response nor an error response and has a
    method: [handleMessage] hands it to [handleRequest]. *)
Definition is_dispatched (message : MCPMessage) : bool :=
  match id message, result message, error message with
  | Some _, Some _, _ => false
  | Some _, None, Some _ => false
  | _, _, _ =>
      match method message with
      | Some name => negb (name =? "")%string
      | None => false
      end
  end.

Definition has_method (name : string) (message : MCPMessage) : bool :=
  match method message with
  | Some name' => (name' =? name)%string
  | None => false
  end.

(** The methods the switch of [handleRequest] knows. *)
Definition recognized : list string :=
  ["initialize"; "initialized"; "tools/list"; "tools/call"; "resources/list";
   "resources/read"; "prompts/list"; "prompts/get"; "logging/setLevel"].

(** The turns of a run that set the [initialized] flag. *)
Definition sets_initialized (op : Op) : bool :=
  match op with
  | Receive message => is_dispatched message && has_method "initialized" message
  | _ => false
  end.

(** The pending table and the armed timers tell the same story: a timer
    is armed for request [i] under ticket [t] exactly when the table holds
    that ticket under the numeric id [i]; tickets and ids in use have been
    handed out. *)
Definition consistent (s : MCPServer) : Prop :=
  (forall t i, JsMap.get Nat.eq_dec t (timers s) = Some i ->
               JsMap.get Id_eq_dec (IdNum i) (pendingRequests s) = Some (mkPending t)
               /\ t < tickets s /\ (i <= requestId s)%Z)
  /\ (forall k pending,
        JsMap.get Id_eq_dec k (pendingRequests s) = Some pending ->
        exists i, k = IdNum i
                  /\ JsMap.get Nat.eq_dec (ticket pending) (timers s) = Some i).

(** A computation is hushed when, started on a closed transport, it
    writes nothing and leaves the transport closed. *)
Definition hushed {A : Type} (c : M A) : Prop :=
  forall s, transport_closed s = true ->
            sent (snd (c s)) = []
            /\ transport_closed (snd (fst (c s))) = true.

(** A computation is blind to the [initialized] flag when setting the flag
    beforehand changes neither its outcome nor its effects, nor the state
    it leaves, the flag apart. *)
Definition flag_blind {A : Type} (c : M A) : Prop :=
  forall s b, exists b',
    c (set_initialized b s) =
      (fst (fst (c s)), set_initialized b' (snd (fst (c s))), snd (c s)).

(** A computation is mild when every error it throws goes on the wire
    with a code other than [INITIALIZATION_FAILED]. *)
Definition mild {A : Type} (c : M A) : Prop :=
  forall s e, fst (fst (c s)) = Throws e ->
              err_code (as_MCPError e) <> code_value INITIALIZATION_FAILED.

End Engine.

End Server.

(* ===================================================================== *)
(** * Authentication hook ([src/middleware/auth.ts]) *)
(* ===================================================================== *)

Module Auth.

(** [customValidator] returns a promise: it resolves to a boolean or it
    rejects. *)
Record AuthConfig : Type := mkAuthConfig {
  apiKeys : option (list string);
  allowAnonymous : option bool;
  customValidator : option (string -> Outcome bool)
}.

(** [headers?: Record<string, string>] *)
Definition Headers : Type := list (string * string).

Fixpoint header (k : string) (h : Headers) : option string :=
  match h with
  | [] => None
  | (k', v) :: rest => if (k' =? k)%string then Some v else header k rest
  end.

(** [headers?.authorization] *)
Definition authorization (headers : option Headers) : option string :=
  match headers with
  | Some h => header "authorization" h
  | None => None
  end.

(** Truthiness of an optional string and of an optional boolean. *)
Definition present (v : option string) : bool :=
  match v with
  | Some x => negb (x =? "")%string
  | None => false
  end.

Definition enabled (v : option bool) : bool :=
  match v with
  | Some b => b
  | None => false
  end.

(** [apiKeys.includes(token)] *)
Fixpoint includes (token : string) (keys : list string) : bool :=
  match keys with
  | [] => false
  | k :: rest => (k =? token)%string || includes token rest
  end.

Definition extractToken (authHeader : string) : string :=
  match JsString.split_space authHeader with
  | [scheme; credentials] =>
      if (JsString.toLowerCase scheme =? "bearer")%string then credentials
      else authHeader
  | _ => authHeader
  end.

Definition authenticate (config : AuthConfig) (headers : option Headers) : Outcome unit :=
  if enabled (allowAnonymous config) && negb (present (authorization headers))
  then Returns tt
  else
    match authorization headers with
    | None => Throws (MCPError PERMISSION_DENIED "Authentication required" None)
    | Some authHeader =>
        if negb (present (Some authHeader))
        then Throws (MCPError PERMISSION_DENIED "Authentication required" None)
        else
          let token := extractToken authHeader in
          match customValidator config with
          | Some validator =>
              match validator token with
              | Returns isValid =>
                  if negb isValid
                  then Throws (MCPError PERMISSION_DENIED "Invalid authentication token" None)
                  else Returns tt
              | Throws e => Throws e
              end
          | None =>
              match apiKeys config with
              | Some keys =>
                  if includes token keys then Returns tt
                  else Throws (MCPError PERMISSION_DENIED
                                        "Invalid authentication credentials" None)
              | None =>
                  Throws (MCPError PERMISSION_DENIED
                                   "Invalid authentication credentials" None)
              end
          end
    end.

End Auth.

(* ===================================================================== *)
(** * Logger filter (second unnamed source file, [Logger.log]) *)
(* ===================================================================== *)

Module Logger.
Import Server.

Definition level_number (l : LogLevel) : Z :=
  match l with
  | DEBUG => 0
  | INFO => 1
  | WARN => 2
  | ERROR => 3
  end%Z.


(** [if (level < this.logLevel) return;].  When [logLevel] holds the name
    of a level, a string that is no numeral, the comparison converts it to
    [NaN] and is false. *)
Definition filtered (level : LogLevel) (setting : LogLevelMember) : bool :=
  match setting with
  | LevelNumber l => (level_number level <? level_number l)%Z
  | LevelName _ => false
  end.

End Logger.

(* ===================================================================== *)
(** * Rate limiter (third unnamed source file, class [RateLimiter]) *)
(* ===================================================================== *)

Module RateLimiter.

(** [keyGenerator] absent stands for the default [(method) => method] the
    constructor puts in.  [windowMs] and [maxRequests] are whole numbers,
    as in the presets, and so are the values of [Date.now()]. *)
Record RateLimitConfig : Type := mkConfig {
  windowMs : Z;
  maxRequests : Z;
  keyGenerator : option (string -> option JSON -> string)
}.

Record RateLimiter : Type := mkLimiter {
  requests : JsMap.t string (list Z);
  config : RateLimitConfig
}.

Definition RateLimiter_new (c : RateLimitConfig) : RateLimiter :=
  mkLimiter (JsMap.empty _ _) c.

Definition key_of (c : RateLimitConfig) (method : string) (params : option JSON) : string :=
  match keyGenerator c with
  | Some generate => generate method params
  | None => method
  end.

(** [this.requests.get(key) || []] *)
Definition times_of (key : string) (m : JsMap.t string (list Z)) : list Z :=
  match JsMap.get string_dec key m with
  | Some times => times
  | None => []
  end.

(** [times.filter(time => time > windowStart)] *)
Definition recent (windowStart : Z) (times : list Z) : list Z :=
  filter (fun time => (windowStart <? time)%Z) times.

(** [Math.ceil(x / 1000)] for an integer [x]. *)
Definition ceil_seconds (x : Z) : Z := (- ((- x) / 1000))%Z.

(** [retryAfter]; with no sample in the window [requestTimes[0]] is
    [undefined] and the value is [NaN], which goes on the wire as
    [null]. *)
Definition retryAfter (c : RateLimitConfig) (requestTimes : list Z) (now : Z) : JSON :=
  match requestTimes with
  | first :: _ => JNum (ceil_seconds (first + windowMs c - now))
  | [] => JNull
  end.

Definition limit_error (c : RateLimitConfig) (method : string)
           (requestTimes : list Z) (now : Z) : JsError :=
  MCPError RATE_LIMIT_EXCEEDED
    ("Rate limit exceeded for " +++ method +++ ". Max "
     +++ string_of_Z (maxRequests c) +++ " requests per "
     +++ string_of_Z (windowMs c) +++ "ms")
    (Some (JObj [("method", JStr method);
                 ("limit", JNum (maxRequests c));
                 ("windowMs", JNum (windowMs c));
                 ("retryAfter", retryAfter c requestTimes now)])).

(** [checkLimit(method, params)], with the value of [Date.now()]. *)
Definition checkLimit (method : string) (params : option JSON) (now : Z)
           (rl : RateLimiter) : Outcome unit * RateLimiter :=
  let key := key_of (config rl) method params in
  let windowStart := (now - windowMs (config rl))%Z in
  let requestTimes := recent windowStart (times_of key (requests rl)) in
  if (maxRequests (config rl) <=? Z.of_nat (List.length requestTimes))%Z
  then (Throws (limit_error (config rl) method requestTimes now), rl)
  else (Returns tt,
        mkLimiter (JsMap.set string_dec key (requestTimes ++ [now]) (requests rl))
                  (config rl)).

(** The body of the loop of [cleanup] for one entry. *)
Definition cleanup_entry (windowStart : Z) (m : JsMap.t string (list Z))
           (entry : string * list Z) : JsMap.t string (list Z) :=
  match recent windowStart (snd entry) with
  | [] => JsMap.delete string_dec (fst entry) m
  | validRequests => JsMap.set string_dec (fst entry) validRequests m
  end.

Definition cleanup (now : Z) (rl : RateLimiter) : RateLimiter :=
  let windowStart := (now - windowMs (config rl))%Z in
  mkLimiter (fold_left (cleanup_entry windowStart) (requests rl) (requests rl))
            (config rl).

(** [reset(key?)]: an empty key is falsy and clears everything. *)
Definition reset (key : option string) (rl : RateLimiter) : RateLimiter :=
  match key with
  | Some k =>
      if (k =? "")%string
      then mkLimiter (JsMap.clear (requests rl)) (config rl)
      else mkLimiter (JsMap.delete string_dec k (requests rl)) (config rl)
  | None => mkLimiter (JsMap.clear (requests rl)) (config rl)
  end.

(** [getStats()], with the value of [Date.now()]: one entry for each key
    of the map, to be looked up by key. *)
Record Stats : Type := mkStats {
  stat_requests : Z;
  stat_remaining : Z
}.

Definition getStats (now : Z) (rl : RateLimiter) : list (string * Stats) :=
  let windowStart := (now - windowMs (config rl))%Z in
  map (fun entry =>
         let validRequests := recent windowStart (snd entry) in
         (fst entry,
          mkStats (Z.of_nat (List.length validRequests))
                  (Z.max 0 (maxRequests (config rl)
                            - Z.of_nat (List.length validRequests)))))
      (requests rl).

(** Calls over time: each with the clock value it reads. *)
Inductive Call : Type :=
| Check (method : string) (params : option JSON) (now : Z)
| Cleanup (now : Z).

Definition clock (c : Call) : Z :=
  match c with
  | Check _ _ now => now
  | Cleanup now => now
  end.

(** A run, with the log of the accepted calls: key and time. *)
Fixpoint run (rl : RateLimiter) (calls : list Call)
  : RateLimiter * list (string * Z) :=
  match calls with
  | [] => (rl, [])
  | Check method params now :: rest =>
      match checkLimit method params now rl with
      | (Returns _, rl1) =>
          let '(rl2, accepted) := run rl1 rest in
          (rl2, (key_of (config rl) method params, now) :: accepted)
      | (Throws _, rl1) => run rl1 rest
      end
  | Cleanup now :: rest => run (cleanup now rl) rest
  end.

(** The clock never goes back. *)
Fixpoint monotone (last : Z) (calls : list Call) : Prop :=
  match calls with
  | [] => True
  | c :: rest => (last <= clock c)%Z /\ monotone (clock c) rest
  end.

(** The accepted calls of [key] whose time lies in the window of length
    [w] that ends at [t]. *)
Definition accepted_in_window (key : string) (w t : Z) (accepted : list (string * Z))
  : list (string * Z) :=
  filter (fun a => (fst a =? key)%string && (t - w <? snd a)%Z && (snd a <=? t)%Z)
         accepted.

(** The times of the accepted calls of [key], in order. *)
Definition accepted_times (key : string) (accepted : list (string * Z)) : list Z :=
  map snd (filter (fun a => (fst a =? key)%string) accepted).

(** The samples stored and a log of accepted calls tell the same story
    for every window that starts at [from] or later. *)
Definition agrees (from : Z) (m : JsMap.t string (list Z))
           (accepted : list (string * Z)) : Prop :=
  forall (key : string) (b : Z),
    (from <= b)%Z ->
    recent b (times_of key m) = recent b (accepted_times key accepted).

(** Two stores hold the same samples for every such window. *)
Definition alike (from : Z) (m1 m2 : JsMap.t string (list Z)) : Prop :=
  forall (key : string) (b : Z),
    (from <= b)%Z ->
    recent b (times_of key m1) = recent b (times_of key m2).

(** No more than the limit in any window. *)
Definition bounded (c : RateLimitConfig) (accepted : list (string * Z)) : Prop :=
  forall (key : string) (t : Z),
    (Z.of_nat (List.length (accepted_in_window key (windowMs c) t accepted))
     <= Z.max 0 (maxRequests c))%Z.

Definition is_check (c : Call) : bool :=
  match c with
  | Check _ _ _ => true
  | Cleanup _ => false
  end.

End RateLimiter.

(* ===================================================================== *)
(** * Concrete instances used to run the model *)
(* ===================================================================== *)

Module Examples.
Import Transport.

(** A stand-in for [JSON.parse] that accepts a line when it starts with
    an opening brace and ends with a closing one, and keeps its text. *)
Definition toy_parse (line : jsstring) : option jsstring :=
  match line, rev line with
  | 123%N :: _, 125%N :: _ => Some line
  | _, _ => None
  end.

(** A stand-in for [JSON.stringify(value, null, 2)]: two-space
    indentation, escapes for the quote and the backslash only. *)
Definition quote : string := String (ascii_of_nat 34) EmptyString.
Definition newline : string := String (ascii_of_nat 10) EmptyString.

Fixpoint escape (s : string) : string :=
  match s with
  | EmptyString => EmptyString
  | String c r =>
      if (nat_of_ascii c =? 34)%nat || (nat_of_ascii c =? 92)%nat
      then String (ascii_of_nat 92) (String c (escape r))
      else String c (escape r)
  end.

Fixpoint stringify_at (indent : string) (v : JSON) {struct v} : string :=
  let inner := indent +++ "  " in
  match v with
  | JNull => "null"
  | JBool true => "true"
  | JBool false => "false"
  | JNum n => string_of_Z n
  | JStr text => quote +++ escape text +++ quote
  | JArr [] => "[]"
  | JArr l =>
      "[" +++ newline +++
      (fix items (l : list JSON) : string :=
         match l with
         | [] => ""
         | [x] => inner +++ stringify_at inner x
         | x :: rest => inner +++ stringify_at inner x +++ "," +++ newline +++ items rest
         end) l
      +++ newline +++ indent +++ "]"
  | JObj [] => "{}"
  | JObj fields =>
      "{" +++ newline +++
      (fix members (l : list (string * JSON)) : string :=
         match l with
         | [] => ""
         | [(k, x)] => inner +++ quote +++ escape k +++ quote +++ ": " +++ stringify_at inner x
         | (k, x) :: rest =>
             inner +++ quote +++ escape k +++ quote +++ ": " +++ stringify_at inner x
             +++ "," +++ newline +++ members rest
         end) fields
      +++ newline +++ indent +++ "}"
  end.

Definition toy_stringify (v : JSON) : string := stringify_at "" v.

(** A stand-in for Ajv on the schemas of the examples: an object schema
    with a [required] list.  As Ajv does with [allErrors], one error per
    missing property, at the instance path of the object. *)
Definition required_of (schema : JSON) : list string :=
  match get_prop "required" schema with
  | Some (JArr l) =>
      flat_map (fun x => match x with
                         | JStr k => [k]
                         | _ => []
                         end) l
  | _ => []
  end.

Definition toy_ajv (schema input : JSON) : Validator.AjvResult :=
  match input with
  | JObj fields =>
      match filter (fun k => match assoc k fields with
                             | Some _ => false
                             | None => true
                             end) (required_of schema) with
      | [] => Validator.Valid
      | missing =>
          Validator.Invalid
            (Some (map (fun k =>
                          Validator.mkAjvError "" "#/required" "required"
                            (JObj [("missingProperty", JStr k)])
                            ("must have required property '" +++ k +++ "'"))
                       missing))
      end
  | _ =>
      Validator.Invalid
        (Some [Validator.mkAjvError "" "#/type" "type"
                 (JObj [("type", JStr "object")]) "must be object"])
  end.

(** The [add] tool of the calculator example (first unnamed source
    file).  A sum that is not a number goes on the wire as [null]. *)
Definition add_schema : JSON :=
  JObj [("type", JStr "object");
        ("properties",
         JObj [("a", JObj [("type", JStr "number"); ("description", JStr "First number")]);
               ("b", JObj [("type", JStr "number"); ("description", JStr "Second number")])]);
        ("required", JArr [JStr "a"; JStr "b"])].

Definition addTool_definition : Server.MCPTool :=
  Server.mkTool "add" "Add two numbers" (Some add_schema).

Definition add_handler : Server.ToolHandler :=
  fun args =>
    Returns (JObj [("result",
                    match get_prop "a" args, get_prop "b" args with
                    | Some (JNum a), Some (JNum b) => JNum (a + b)
                    | _, _ => JNull
                    end);
                   ("operation", JStr "addition")]).

Definition calculator : Server.MCPServer :=
  Server.addTool addTool_definition add_handler
    (Server.MCPServer_new (Some Server.INFO)
       (Some (Server.mkServerInfo "Calculator Server" "1.0.0"))).

Definition receive (s : Server.MCPServer) (message : Server.MCPMessage)
  : Server.MCPServer * list Server.Effect :=
  let '(_, s', out) := Server.handleMessage toy_ajv toy_stringify message s in (s', out).

Definition request (i : Z) (m : string) (p : option JSON) : Server.MCPMessage :=
  Server.mkMessage (Some (Server.IdNum i)) (Some m) p None None.

Definition tools_call (i : Z) (name : string) (args : option JSON) : Server.MCPMessage :=
  request i "tools/call"
          (Some (JObj (obj_of [("name", Some (JStr name)); ("arguments", args)]))).

Definition subtractTool_definition : Server.MCPTool :=
  Server.mkTool "subtract" "Subtract two numbers" (Some add_schema).

Definition registrations : list Server.Op :=
  [Server.AddTool addTool_definition add_handler;
   Server.AddTool subtractTool_definition add_handler;
   Server.AddTool (Server.mkTool "add" "Add, again" None) add_handler;
   Server.Receive (request 7 "tools/list" None);
   Server.RemoveTool "add";
   Server.AddTool addTool_definition add_handler].

(** Authentication set-ups. *)
Definition secret_validator : string -> Outcome bool :=
  fun token => Returns (token =? "s3cret")%string.

Definition failing_validator : string -> Outcome bool :=
  fun _ => Throws (PlainError "key store unreachable").

Definition guarded : Auth.AuthConfig :=
  Auth.mkAuthConfig (Some ["other"]) None (Some secret_validator).

(** A new server that has issued one request, not answered yet. *)
Definition pinged : Server.MCPServer :=
  snd (fst (Server.sendRequest "ping" None None (Server.MCPServer_new None None))).

(** Wire images: the text of [{"id":1}], of [{}] and of [oops]; a
    serializer for messages that are kept as their text. *)
Definition wire_id1 : jsstring := [123; 34; 105; 100; 34; 58; 49; 125]%N.
Definition wire_empty : jsstring := [123; 125]%N.
Definition wire_oops : jsstring := [111; 111; 112; 115]%N.


(** An Ajv that rejects every schema at compilation. *)
Definition broken_ajv (schema input : JSON) : Validator.AjvResult :=
  Validator.CompileThrows "schema is invalid".

(** The [divide] tool of the calculator example, cut down to its guard:
    a zero divisor throws; the quotient is left out. *)
Definition divideTool_definition : Server.MCPTool :=
  Server.mkTool "divide" "Divide two numbers" (Some add_schema).

Definition divide_handler : Server.ToolHandler :=
  fun args =>
    match get_prop "b" args with
    | Some (JNum 0) => Throws (PlainError "Division by zero is not allowed")
    | _ => Returns (JObj [("operation", JStr "division")])
    end.

(** A resource whose handler gives no mime type, and the [math_help]
    prompt with an empty answer. *)
Definition notes_definition : Server.MCPResource :=
  Server.mkResource "calc://notes" (Some "notes") None None.

Definition notes_handler : Server.ResourceHandler :=
  fun _ => Returns (Server.mkContents (JStr "2 + 2 = 4") None).

Definition mathHelpPrompt : Server.MCPPrompt :=
  Server.mkPrompt "math_help" (Some "Get help with mathematical operations") None.

Definition mathHelp_handler : Server.PromptHandler :=
  fun _ => Returns (JObj [("messages", JArr [])]).

Definition workshop : Server.MCPServer :=
  Server.addPrompt mathHelpPrompt mathHelp_handler
    (Server.addResource notes_definition notes_handler
       (Server.addTool divideTool_definition divide_handler calculator)).

(** A response and an error response to request [i]. *)
Definition response (i : Z) (res : JSON) : Server.MCPMessage :=
  Server.mkMessage (Some (Server.IdNum i)) None None (Some res) None.

Definition error_response (i : Z) (e : ErrorObject) : Server.MCPMessage :=
  Server.mkMessage (Some (Server.IdNum i)) None None None (Some e).

(** The preset [PER_SECOND_5] of the rate limiter, with the default key. *)
Definition PER_SECOND_5 : RateLimiter.RateLimitConfig :=
  RateLimiter.mkConfig 1000 5 None.

(** Two calls a second, with the default key. *)
Definition two_per_second : RateLimiter.RateLimitConfig :=
  RateLimiter.mkConfig 1000 2 None.

(** A key list, and no validator. *)
Definition keyed : Auth.AuthConfig :=
  Auth.mkAuthConfig (Some ["alpha"; "beta"]) (Some true) None.

End Examples.

(* ===================================================================== *)
(** * PROPERTIES *)
(* ===================================================================== *)

Unset Implicit Arguments.

Module JsMapFacts.
Import JsMap.

Section Map.

Variables K V : Type.
Variable K_eq_dec : forall x y : K, {x = y} + {x <> y}.

Abbreviation get := (JsMap.get K_eq_dec).
Abbreviation set := (JsMap.set K_eq_dec).
Abbreviation delete := (JsMap.delete K_eq_dec).

Lemma get_set_eq (k : K) (v : V) (m : t K V) : get k (set k v m) = Some v.
Proof.
  induction m as [|[k' v'] rest IH]; simpl.
  - now destruct (K_eq_dec k k).
  - destruct (K_eq_dec k' k) as [->|Hne]; simpl.
    + now destruct (K_eq_dec k k).
    + now destruct (K_eq_dec k' k).
Qed.

Lemma get_set_ne (k k0 : K) (v : V) (m : t K V) :
  k <> k0 -> get k0 (set k v m) = get k0 m.
Proof.
  intros Hne. induction m as [|[k' v'] rest IH]; simpl.
  - now destruct (K_eq_dec k k0).
  - destruct (K_eq_dec k' k) as [->|Hne']; simpl.
    + now destruct (K_eq_dec k k0).
    + now rewrite IH.
Qed.

Lemma get_delete_eq (k : K) (m : t K V) : get k (delete k m) = None.
Proof.
  induction m as [|[k' v'] rest IH]; simpl; [reflexivity|].
  destruct (K_eq_dec k' k) as [->|Hne]; simpl; [assumption|].
  now destruct (K_eq_dec k' k).
Qed.

Lemma get_delete_ne (k k0 : K) (m : t K V) :
  k <> k0 -> get k0 (delete k m) = get k0 m.
Proof.
  intros Hne. induction m as [|[k' v'] rest IH]; simpl; [reflexivity|].
  destruct (K_eq_dec k' k) as [->|Hne']; simpl.
  - now destruct (K_eq_dec k k0).
  - now rewrite IH.
Qed.

Lemma get_None_notin (k : K) (m : t K V) : get k m = None <-> ~ In k (keys m).
Proof.
  induction m as [|[k' v'] rest IH]; simpl; [tauto|].
  destruct (K_eq_dec k' k) as [->|Hne].
  - split; [discriminate | tauto].
  - rewrite IH. tauto.
Qed.

Lemma get_In (k : K) (v : V) (m : t K V) : get k m = Some v -> In (k, v) m.
Proof.
  induction m as [|[k' v'] rest IH]; simpl; [discriminate|].
  destruct (K_eq_dec k' k) as [->|Hne]; [intros [= ->]; now left | auto].
Qed.

Lemma get_nowhere (m : t K V) : (forall k, get k m = None) -> m = [].
Proof.
  destruct m as [|[k v] rest]; [reflexivity|].
  intros H. specialize (H k). simpl in H.
  now destruct (K_eq_dec k k).
Qed.

(** Removing a key that is not there changes nothing. *)
Lemma delete_absent (k : K) (m : t K V) : get k m = None -> delete k m = m.
Proof.
  induction m as [|[k' v'] rest IH]; simpl; [reflexivity|].
  destruct (K_eq_dec k' k); [discriminate|].
  intros H. now rewrite IH.
Qed.

Lemma delete_idempotent (k : K) (m : t K V) : delete k (delete k m) = delete k m.
Proof. apply delete_absent, get_delete_eq. Qed.

Lemma keys_delete (k : K) (m : t K V) :
  keys (delete k m) = filter (fun k' => if K_eq_dec k' k then false else true) (keys m).
Proof.
  induction m as [|[k' v'] rest IH]; simpl; [reflexivity|].
  destruct (K_eq_dec k' k); simpl; now rewrite IH.
Qed.

Lemma keys_set_present (k : K) (v : V) (m : t K V) :
  In k (keys m) -> keys (set k v m) = keys m.
Proof.
  induction m as [|[k' v'] rest IH]; simpl; [tauto|].
  destruct (K_eq_dec k' k) as [->|Hne]; simpl; [reflexivity|].
  intros [H | H]; [congruence|]. now rewrite IH.
Qed.

Lemma keys_set_absent (k : K) (v : V) (m : t K V) :
  ~ In k (keys m) -> keys (set k v m) = keys m ++ [k].
Proof.
  induction m as [|[k' v'] rest IH]; simpl; [reflexivity|].
  destruct (K_eq_dec k' k) as [->|Hne]; simpl; [tauto|].
  intros H. rewrite IH; tauto.
Qed.

Lemma NoDup_keys_set (k : K) (v : V) (m : t K V) :
  NoDup (keys m) -> NoDup (keys (set k v m)).
Proof.
  intros Hnd. destruct (in_dec K_eq_dec k (keys m)) as [Hin | Hout].
  - now rewrite keys_set_present.
  - rewrite keys_set_absent by assumption.
    apply NoDup_app; [assumption | repeat constructor; intros []|].
    intros x Hx [<- | []]. contradiction.
Qed.

Lemma NoDup_keys_delete (k : K) (m : t K V) :
  NoDup (keys m) -> NoDup (keys (delete k m)).
Proof. intros Hnd. rewrite keys_delete. now apply NoDup_filter. Qed.

(** ** A registry follows its history *)

Abbreviation apply_op := (JsMap.apply_op K_eq_dec).
Abbreviation apply_ops := (JsMap.apply_ops K_eq_dec).
Abbreviation latest_step := (JsMap.latest_step K_eq_dec (V := V)).
Abbreviation inserted_step := (JsMap.inserted_step K_eq_dec (V := V)).
Abbreviation inserted_from := (JsMap.inserted_from K_eq_dec (V := V)).

Lemma get_apply_op (k : K) (m : t K V) (op : RegOp K V) :
  get k (apply_op m op) = latest_step k (get k m) op.
Proof.
  destruct op as [k' v | k']; simpl; destruct (K_eq_dec k' k) as [->|Hne].
  - apply get_set_eq.
  - now apply get_set_ne.
  - apply get_delete_eq.
  - now apply get_delete_ne.
Qed.

Lemma get_apply_ops (k : K) (ops : list (RegOp K V)) (m : t K V) :
  get k (apply_ops ops m) = fold_left (latest_step k) ops (get k m).
Proof.
  revert m. induction ops as [|op rest IH]; intros m; simpl; [reflexivity|].
  unfold JsMap.apply_ops in *. simpl. now rewrite IH, get_apply_op.
Qed.

Lemma StronglySorted_snoc {A : Type} (R : A -> A -> Prop) (l : list A) (x : A) :
  StronglySorted R l -> Forall (fun y => R y x) l -> StronglySorted R (l ++ [x]).
Proof.
  induction 1 as [|a l Hl IH Ha]; intros Hall; simpl.
  - repeat constructor.
  - inversion Hall as [|? ? Hax Hlx]; subst. constructor; [now apply IH|].
    apply Forall_app. split; [assumption | now repeat constructor].
Qed.

Lemma StronglySorted_filter {A : Type} (R : A -> A -> Prop) (f : A -> bool)
      (l : list A) :
  StronglySorted R l -> StronglySorted R (filter f l).
Proof.
  induction 1 as [|a l Hl IH Ha]; simpl; [constructor|].
  destruct (f a); [|assumption]. constructor; [assumption|].
  apply Forall_forall. intros x Hx. apply filter_In in Hx.
  rewrite Forall_forall in Ha. now apply Ha.
Qed.

Lemma StronglySorted_ext {A : Type} (R R' : A -> A -> Prop) (l : list A) :
  (forall x y, In x l -> In y l -> R x y -> R' x y) ->
  StronglySorted R l -> StronglySorted R' l.
Proof.
  intros Himp Hs. induction Hs as [|a l Hl IH Ha]; [constructor|].
  constructor.
  - apply IH. intros x y Hx Hy. apply Himp; now right.
  - rewrite Forall_forall in *. intros x Hx.
    apply Himp; [now left | now right | now apply Ha].
Qed.

Lemma tracked_step (m : t K V) (now : nat) (T : K -> option nat) (op : RegOp K V) :
  tracked m now T ->
  tracked (apply_op m op) (S now) (fun k => inserted_step k now (T k) op).
Proof.
  intros (Hnd & Hin & Hpast & Hsorted).
  destruct op as [k0 v | k0]; unfold tracked; simpl.
  - (* set *)
    destruct (in_dec K_eq_dec k0 (keys m)) as [Hpresent | Habsent].
    + assert (HT : T k0 <> None) by now apply Hin.
      rewrite keys_set_present by assumption.
      repeat split.
      * assumption.
      * intros Hk. destruct (K_eq_dec k0 k) as [<-|Hne].
        -- destruct (T k0); congruence.
        -- now apply Hin.
      * intros Hk. destruct (K_eq_dec k0 k) as [<-|Hne]; [assumption|].
        now apply Hin.
      * intros k rank. destruct (K_eq_dec k0 k) as [<-|Hne].
        -- destruct (T k0) as [r|] eqn:Hr; [|congruence].
           intros [= <-]. specialize (Hpast k0 r Hr). lia.
        -- intros Hk. specialize (Hpast k rank Hk). lia.
      * eapply StronglySorted_ext; [|exact Hsorted].
        intros x y _ _ Hxy. cbv beta.
        destruct (K_eq_dec k0 x) as [<-|Hx]; destruct (K_eq_dec k0 y) as [<-|Hy];
          try assumption;
          destruct (T k0); try congruence; assumption.
    + assert (HT : T k0 = None).
      { destruct (T k0) eqn:Hr; [|reflexivity].
        elim Habsent. apply Hin. congruence. }
      rewrite keys_set_absent by assumption.
      repeat split.
      * apply NoDup_app; [assumption | repeat constructor; intros []|].
        intros x Hx [<- | []]. contradiction.
      * intros Hk. apply in_app_or in Hk.
        destruct (K_eq_dec k0 k) as [<-|Hne].
        -- rewrite HT. discriminate.
        -- destruct Hk as [Hk | [Hk | []]]; [now apply Hin | contradiction].
      * intros Hk. apply in_or_app.
        destruct (K_eq_dec k0 k) as [<-|Hne]; [right; now left|].
        left. now apply Hin.
      * intros k rank. destruct (K_eq_dec k0 k) as [<-|Hne].
        -- rewrite HT. intros [= <-]. lia.
        -- intros Hk. specialize (Hpast k rank Hk). lia.
      * apply StronglySorted_snoc.
        -- eapply StronglySorted_ext; [|exact Hsorted].
           intros x y Hx Hy Hxy. cbv beta.
           destruct (K_eq_dec k0 x) as [<-|_]; [contradiction|].
           destruct (K_eq_dec k0 y) as [<-|_]; [contradiction|]. assumption.
        -- apply Forall_forall. intros x Hx.
           destruct (K_eq_dec k0 x) as [<-|_]; [contradiction|].
           destruct (K_eq_dec k0 k0) as [_|Hne]; [|congruence].
           rewrite HT. apply Hin in Hx.
           destruct (T x) as [r|] eqn:Hr; [|congruence]. simpl.
           exact (Hpast x r Hr).
  - (* delete *)
    rewrite keys_delete. repeat split.
    + now apply NoDup_filter.
    + intros Hk. apply filter_In in Hk. destruct Hk as [Hk Hne].
      destruct (K_eq_dec k k0) as [->|Hne']; [discriminate|].
      destruct (K_eq_dec k0 k) as [->|_]; [congruence|]. now apply Hin.
    + intros Hk. apply filter_In.
      destruct (K_eq_dec k0 k) as [<-|Hne]; [congruence|].
      split; [now apply Hin|].
      destruct (K_eq_dec k k0) as [->|_]; [congruence | reflexivity].
    + intros k rank. destruct (K_eq_dec k0 k) as [<-|Hne]; [discriminate|].
      intros Hk. specialize (Hpast k rank Hk). lia.
    + eapply StronglySorted_ext;
        [|apply StronglySorted_filter; exact Hsorted].
      intros x y Hx Hy Hxy. cbv beta.
      apply filter_In in Hx, Hy. destruct Hx as [_ Hx], Hy as [_ Hy].
      destruct (K_eq_dec x k0) as [->|Hx']; [discriminate|].
      destruct (K_eq_dec y k0) as [->|Hy']; [discriminate|].
      destruct (K_eq_dec k0 x) as [<-|_]; [congruence|].
      destruct (K_eq_dec k0 y) as [<-|_]; [congruence|]. assumption.
Qed.

Lemma tracked_ops (ops : list (RegOp K V)) (m : t K V) (now : nat)
      (T : K -> option nat) :
  tracked m now T ->
  tracked (apply_ops ops m) (now + List.length ops)
          (fun k => inserted_from k ops now (T k)).
Proof.
  revert m now T. induction ops as [|op rest IH]; intros m now T Htracked; simpl.
  - now rewrite Nat.add_0_r.
  - rewrite <- Nat.add_succ_comm. unfold JsMap.apply_ops. simpl.
    apply (IH (apply_op m op) (S now) (fun k => inserted_step k now (T k) op)).
    now apply tracked_step.
Qed.

(** A registry built from nothing follows its history. *)
Lemma follows_history (ops : list (RegOp K V)) :
  follows K_eq_dec ops (apply_ops ops (empty K V)).
Proof.
  assert (H0 : tracked (empty K V) 0 (fun _ => None)).
  { repeat split; simpl; try constructor; try tauto; try discriminate. }
  destruct (tracked_ops ops _ _ _ H0) as (Hnd & _ & _ & Hsorted).
  repeat split; try assumption.
  intros k. now rewrite get_apply_ops.
Qed.

(** A property of the entries that every registration has holds of the
    registry. *)
Lemma Forall_apply_ops (P : K * V -> Prop) (ops : list (RegOp K V)) (m : t K V) :
  Forall P m ->
  Forall (fun op => match op with
                    | Add k v => P (k, v)
                    | Remove _ => True
                    end) ops ->
  Forall P (apply_ops ops m).
Proof.
  revert m. induction ops as [|op rest IH]; intros m Hm Hops; [assumption|].
  inversion Hops as [|? ? Hop Hrest]; subst.
  unfold JsMap.apply_ops. simpl. apply IH; [|assumption].
  destruct op as [k v | k]; simpl.
  - clear - Hm Hop. induction m as [|[k' v'] m IH]; simpl.
    + now repeat constructor.
    + inversion Hm; subst. destruct (K_eq_dec k' k) as [->|Hne].
      * now constructor.
      * constructor; [assumption | now apply IH].
  - clear - Hm. induction m as [|[k' v'] m IH]; simpl; [constructor|].
    inversion Hm; subst. destruct (K_eq_dec k' k).
    + now apply IH.
    + constructor; [assumption | now apply IH].
Qed.

End Map.

End JsMapFacts.

Module TransportFacts.
Import Transport.

Section Reader.

Variable Msg : Type.
Variable JSON_parse : jsstring -> option Msg.

Lemma indexOf_LF_None (s : jsstring) :
  indexOf_LF s = None -> split_lines s = ([], s).
Proof.
  induction s as [|c r IH]; simpl; [reflexivity|].
  destruct (c =? LF)%N; [discriminate|].
  destruct (indexOf_LF r); [discriminate|].
  intros _. rewrite IH by reflexivity. reflexivity.
Qed.

Lemma indexOf_LF_Some (s : jsstring) (i : nat) :
  indexOf_LF s = Some i ->
  split_lines s =
    (slice_to i s :: complete_lines (slice_from (i + 1) s),
     partial_line (slice_from (i + 1) s)).
Proof.
  unfold complete_lines, partial_line, slice_to, slice_from.
  revert i; induction s as [|c r IH]; intros i; simpl; [discriminate|].
  destruct (c =? LF)%N eqn:Hc.
  - intros [= <-]. simpl. destruct (split_lines r); reflexivity.
  - destruct (indexOf_LF r) as [j|]; [|discriminate].
    intros [= <-]. rewrite (IH j eq_refl). simpl. reflexivity.
Qed.

(** The loop computes the reference framing. *)
Lemma processBuffer_spec (buf : jsstring) :
  processBuffer JSON_parse buf =
    (flat_map (line_events JSON_parse) (complete_lines buf), partial_line buf).
Proof.
  funelim (processBuffer JSON_parse buf).
  - rewrite H. unfold complete_lines, partial_line.
    rewrite (indexOf_LF_Some _ _ Hidx). simpl. reflexivity.
  - unfold complete_lines, partial_line.
    rewrite (indexOf_LF_None _ e). reflexivity.
Qed.


Lemma split_lines_no_LF (s : jsstring) :
  Forall (fun l => indexOf_LF l = None) (complete_lines s)
  /\ indexOf_LF (partial_line s) = None.
Proof.
  unfold complete_lines, partial_line.
  induction s as [|c r [IHl IHp]]; simpl; [split; [constructor|reflexivity]|].
  destruct (split_lines r) as [ls tl]; simpl in *.
  destruct (c =? LF)%N eqn:Hc; simpl.
  - split; [constructor; [reflexivity|assumption]|assumption].
  - destruct ls as [|l ls']; simpl.
    + split; [constructor|]. now rewrite Hc, IHp.
    + inversion IHl as [|? ? Hl Hls]; subst. split; [|assumption].
      constructor; [|assumption]. simpl. now rewrite Hc, Hl.
Qed.

(** Where a chunk boundary falls does not matter: the lines of [s ++ t]
    are those of [s], then those of what [s] left over followed by
    [t]. *)
Lemma split_lines_app (s t : jsstring) :
  split_lines (s ++ t) =
    (complete_lines s ++ complete_lines (partial_line s ++ t),
     partial_line (partial_line s ++ t)).
Proof.
  unfold complete_lines, partial_line.
  induction s as [|c r IH]; simpl.
  - now destruct (split_lines t).
  - rewrite IH. destruct (split_lines r) as [ls tl]; simpl.
    destruct (c =? LF)%N eqn:Hc; simpl; [reflexivity|].
    destruct ls as [|l ls']; simpl; [|reflexivity].
    destruct (split_lines (tl ++ t)) as [ls2 tl2]; simpl.
    rewrite Hc. now destruct ls2.
Qed.

Lemma complete_lines_app (s t : jsstring) :
  complete_lines (s ++ t) =
    complete_lines s ++ complete_lines (partial_line s ++ t).
Proof. unfold complete_lines at 1. now rewrite split_lines_app. Qed.

Lemma partial_line_app (s t : jsstring) :
  partial_line (s ++ t) = partial_line (partial_line s ++ t).
Proof. unfold partial_line at 1. now rewrite split_lines_app. Qed.

Lemma handleData_spec (st : State) (chunk : jsstring) :
  closed st = false ->
  handleData JSON_parse st chunk =
    (mkState (partial_line (buffer st ++ chunk)) false,
     flat_map (line_events JSON_parse) (complete_lines (buffer st ++ chunk))).
Proof.
  intros Hopen. unfold handleData. rewrite Hopen, processBuffer_spec.
  reflexivity.
Qed.

(** Between two reads the buffer holds no terminator. *)
Lemma feed_spec (chunks : list jsstring) (st : State) :
  closed st = false ->
  indexOf_LF (buffer st) = None ->
  feed JSON_parse st chunks =
    (mkState (partial_line (buffer st ++ List.concat chunks)) false,
     flat_map (line_events JSON_parse)
              (complete_lines (buffer st ++ List.concat chunks))).
Proof.
  revert st; induction chunks as [|chunk rest IH]; intros st Hopen Hbuf.
  - simpl. rewrite app_nil_r. unfold partial_line, complete_lines.
    rewrite indexOf_LF_None by assumption. simpl.
    destruct st as [b c]; simpl in *. now subst c.
  - simpl. rewrite handleData_spec by assumption.
    rewrite IH; [|reflexivity|apply split_lines_no_LF]. simpl.
    rewrite app_assoc.
    rewrite (complete_lines_app (buffer st ++ chunk) (List.concat rest)).
    rewrite (partial_line_app (buffer st ++ chunk) (List.concat rest)).
    now rewrite flat_map_app.
Qed.

Lemma split_lines_terminated (s : jsstring) :
  indexOf_LF s = None -> split_lines (s ++ [LF]) = ([s], []).
Proof.
  induction s as [|c r IH]; simpl; [reflexivity|].
  destruct (c =? LF)%N; [discriminate|].
  destruct (indexOf_LF r); [discriminate|].
  intros _. now rewrite IH.
Qed.




End Reader.


End TransportFacts.

Module ServerFacts.
Import Validator Server.
Local Open Scope mcp_scope.

Section Engine.

Variable ajv : JSON -> JSON -> AjvResult.
Variable JSON_stringify : JSON -> string.

Abbreviation handleMessage := (Server.handleMessage ajv JSON_stringify).
Abbreviation handleRequest := (Server.handleRequest ajv JSON_stringify).
Abbreviation dispatch := (Server.dispatch ajv JSON_stringify).
Abbreviation handleToolsCall := (Server.handleToolsCall ajv JSON_stringify).


(** ** Handlers write nothing to the peer *)

Lemma sent_app (a b : list Effect) : sent (a ++ b) = sent a ++ sent b.
Proof. apply flat_map_app. Qed.

Lemma quiet_ret {A : Type} (a : A) : quiet (ret a).
Proof. intros s; split; reflexivity. Qed.

Lemma quiet_throw {A : Type} (e : JsError) : quiet (@throw A e).
Proof. intros s; split; reflexivity. Qed.

Lemma quiet_reads {A : Type} (member : MCPServer -> A) : quiet (reads member).
Proof. intros s; split; reflexivity. Qed.

Lemma quiet_settle {A : Type} (o : Outcome A) : quiet (settle o).
Proof. intros s; split; reflexivity. Qed.

Lemma quiet_modify (f : MCPServer -> MCPServer) :
  (forall s, transport_closed (f s) = transport_closed s) -> quiet (modify f).
Proof. intros Hf s; split; [reflexivity | apply Hf]. Qed.

Lemma quiet_emit (e : Effect) :
  (forall m, e <> ESend m) -> quiet (emit e).
Proof.
  intros He s; split; [|reflexivity].
  destruct e; try reflexivity. now elim (He m).
Qed.

Lemma quiet_bind {A B : Type} (c : M A) (k : A -> M B) :
  quiet c -> (forall a, quiet (k a)) -> quiet (bind c k).
Proof.
  intros Hc Hk s. unfold bind. destruct (Hc s) as [Hout Hst].
  destruct (c s) as [[[a|e] s1] out1]; simpl in *; [|now split].
  destruct (Hk a s1) as [Hout2 Hst2].
  destruct (k a s1) as [[r s2] out2]; simpl in *.
  rewrite sent_app, Hout, Hout2. split; [reflexivity | congruence].
Qed.

Lemma quiet_try_catch {A : Type} (c : M A) (h : JsError -> M A) :
  quiet c -> (forall e, quiet (h e)) -> quiet (try_catch c h).
Proof.
  intros Hc Hh s. unfold try_catch. destruct (Hc s) as [Hout Hst].
  destruct (c s) as [[[a|e] s1] out1]; simpl in *; [now split|].
  destruct (Hh e s1) as [Hout2 Hst2].
  destruct (h e s1) as [[r s2] out2]; simpl in *.
  rewrite sent_app, Hout, Hout2. split; [reflexivity | congruence].
Qed.

Lemma quiet_destructure (what k : string) (v : option JSON) :
  quiet (destructure what k v).
Proof.
  destruct v as [[]|]; simpl; first [apply quiet_ret | apply quiet_throw].
Qed.

Create HintDb quiet.
Hint Resolve quiet_ret quiet_throw quiet_reads quiet_settle
     quiet_destructure : quiet.

Ltac quiet_step :=
  match goal with
  | |- quiet (bind _ _) => apply quiet_bind; [|intros ?]
  | |- quiet (try_catch _ _) => apply quiet_try_catch; [|intros ?]
  | |- quiet (emit _) => apply quiet_emit; intros ?; discriminate
  | |- quiet (modify _) => apply quiet_modify; intros ?; reflexivity
  | |- quiet (match ?x with _ => _ end) => destruct x
  | |- quiet _ => solve [auto with quiet]
  end.

Lemma quiet_handleToolsCall (p : option JSON) : quiet (handleToolsCall p).
Proof. unfold Server.handleToolsCall. repeat quiet_step. Qed.

Lemma quiet_handleResourcesRead (p : option JSON) :
  quiet (handleResourcesRead JSON_stringify p).
Proof. unfold handleResourcesRead. repeat quiet_step. Qed.

Lemma quiet_handlePromptsGet (p : option JSON) : quiet (handlePromptsGet p).
Proof. unfold handlePromptsGet. repeat quiet_step. Qed.

Lemma quiet_handleLoggingSetLevel (p : option JSON) :
  quiet (handleLoggingSetLevel p).
Proof. unfold handleLoggingSetLevel. repeat quiet_step. Qed.

Lemma quiet_dispatch (m : option string) (p : option JSON) :
  quiet (dispatch m p).
Proof.
  unfold Server.dispatch.
  pose proof quiet_handleToolsCall. pose proof quiet_handleResourcesRead.
  pose proof quiet_handlePromptsGet. pose proof quiet_handleLoggingSetLevel.
  unfold handleInitialize, handleInitialized, handleToolsList,
    handleResourcesList, handlePromptsList.
  repeat quiet_step.
Qed.

Lemma quiet_handleResponse (i : Id) (res : JSON) : quiet (handleResponse i res).
Proof. unfold handleResponse, clearTimeout. repeat quiet_step. Qed.

Lemma quiet_handleErrorResponse (i : Id) (e : ErrorObject) :
  quiet (handleErrorResponse i e).
Proof. unfold handleErrorResponse, clearTimeout. repeat quiet_step. Qed.

(** ** What [handleRequest] and [handleMessage] write on an open transport *)

Lemma transport_send_open (m : MCPMessage) (s : MCPServer) :
  transport_closed s = false ->
  transport_send m s = (Returns tt, s, [ESend m]).
Proof. intros H. unfold transport_send. now rewrite H. Qed.

Lemma handleRequest_open (message : MCPMessage) (s : MCPServer) :
  transport_closed s = false ->
  let d := dispatch (method message) (params message) s in
  fst (fst (handleRequest message s)) = Returns tt
  /\ snd (fst (handleRequest message s)) = snd (fst d)
  /\ sent (snd (handleRequest message s)) = reply_to (id message) (fst (fst d)).
Proof.
  intros Hopen d. subst d. unfold Server.handleRequest, try_catch, bind.
  destruct (quiet_dispatch (method message) (params message) s) as [Hq Hc].
  destruct (dispatch (method message) (params message) s) as [[r s1] out1].
  simpl in *. rewrite Hopen in Hc.
  destruct r as [[res|]|e]; destruct (id message) as [i|]; simpl;
    unfold sendResult, sendError, toJSON;
    try rewrite (transport_send_open _ _ Hc); simpl;
    rewrite ?sent_app, ?Hq, ?app_nil_r; simpl; repeat split;
    try assumption; try reflexivity.
  now destruct (as_MCPError e).
Qed.

Lemma handleMessage_request_open (message : MCPMessage) (name : string) (s : MCPServer) :
  transport_closed s = false ->
  method message = Some name -> name <> "" ->
  (id message = None \/ (result message = None /\ error message = None)) ->
  handleMessage message s = handleRequest message s.
Proof.
  intros Hopen Hm Hname Hcls.
  destruct (handleRequest_open message s Hopen) as [Hr _].
  unfold Server.handleMessage, try_catch.
  assert (Hbranch :
    match id message, result message, error message with
    | Some i, Some res, _ => handleResponse i res
    | Some i, None, Some e => handleErrorResponse i e
    | _, _, _ =>
        match method message with
        | Some name => if (name =? "")%string then ret tt else handleRequest message
        | None => ret tt
        end
    end = handleRequest message).
  { rewrite Hm. apply String.eqb_neq in Hname. rewrite Hname.
    destruct Hcls as [Hid | [Hres Herr]].
    - now rewrite Hid.
    - rewrite Hres, Herr. now destruct (id message). }
  rewrite Hbranch.
  destruct (handleRequest message s) as [[r s1] out1]; simpl in *.
  now rewrite Hr.
Qed.

Lemma handleRequest_open_effects (message : MCPMessage) (s : MCPServer) :
  transport_closed s = false ->
  let d := dispatch (method message) (params message) s in
  snd (handleRequest message s) =
    snd d ++ map ESend (reply_to (id message) (fst (fst d))).
Proof.
  intros Hopen d. subst d. unfold Server.handleRequest, try_catch, bind.
  destruct (quiet_dispatch (method message) (params message) s) as [Hq Hc].
  destruct (dispatch (method message) (params message) s) as [[r s1] out1].
  simpl in *. rewrite Hopen in Hc.
  destruct r as [[res|]|e]; destruct (id message) as [i|]; simpl;
    unfold sendResult, sendError, toJSON;
    try rewrite (transport_send_open _ _ Hc); simpl;
    rewrite ?app_nil_r; try reflexivity.
  now destruct (as_MCPError e).
Qed.

(** ** [tools/call] *)

Lemma handleToolsCall_found (obj : JSON) (name : string) (tool : ToolEntry)
      (s : MCPServer) :
  get_prop "name" obj = Some (JStr name) ->
  JsMap.get string_dec name (tools s) = Some tool ->
  let args := get_prop "arguments" obj in
  handleToolsCall (Some obj) s =
    match check_arguments ajv tool args with
    | Throws err => (Throws (tool_failure (Some (JStr name)) args err), s, [])
    | Returns _ =>
        match tool_handler tool (or_empty_object args) with
        | Returns res =>
            (Returns (text_content JSON_stringify res), s,
             [ECallTool name (or_empty_object args)])
        | Throws err =>
            (Throws (tool_failure (Some (JStr name)) args err), s,
             [ECallTool name (or_empty_object args)])
        end
    end.
Proof.
  intros Hname Hget args. subst args.
  unfold Server.handleToolsCall, bind, try_catch, reads, settle, emit.
  destruct obj; simpl in Hname; try discriminate. simpl.
  rewrite Hname. simpl. rewrite Hget.
  destruct (check_arguments ajv tool (assoc "arguments" fields)); [|reflexivity].
  now destruct (tool_handler tool (or_empty_object (assoc "arguments" fields))).
Qed.

Lemma tools_call_effects (s : MCPServer) (message : MCPMessage) (i : Id)
      (name : string) (args : option JSON) (tool : ToolEntry) :
  transport_closed s = false ->
  is_tools_call message i name args ->
  JsMap.get string_dec name (tools s) = Some tool ->
  snd (handleMessage message s) =
    match check_arguments ajv tool args with
    | Throws err =>
        [ESend (error_envelope i (as_MCPError (tool_failure (Some (JStr name)) args err)))]
    | Returns _ =>
        ECallTool name (or_empty_object args)
        :: match tool_handler tool (or_empty_object args) with
           | Returns res =>
               [ESend (result_envelope i (text_content JSON_stringify res))]
           | Throws err =>
               [ESend (error_envelope i
                         (as_MCPError (tool_failure (Some (JStr name)) args err)))]
           end
    end.
Proof.
  intros Hopen (Hid & Hm & Hres & Herr & obj & Hp & Hname & Hargs) Hget.
  rewrite (handleMessage_request_open message "tools/call" s Hopen Hm
             ltac:(discriminate) (or_intror (conj Hres Herr))).
  rewrite (handleRequest_open_effects message s Hopen).
  rewrite Hm, Hp, Hid. unfold Server.dispatch. simpl. unfold bind at 1 2.
  rewrite (handleToolsCall_found obj name tool s Hname Hget), Hargs.
  destruct (check_arguments ajv tool args); [|reflexivity].
  now destruct (tool_handler tool (or_empty_object args)).
Qed.

Lemma check_arguments_falsy (tool : ToolEntry) (args : option JSON) :
  truthy_opt args = false -> check_arguments ajv tool args = Returns tt.
Proof.
  intros H. unfold check_arguments. rewrite H, andb_false_r. reflexivity.
Qed.

Lemma check_arguments_invalid (tool : ToolEntry) (schema input : JSON) :
  inputSchema (tool_definition tool) = Some schema ->
  truthy schema = true -> truthy input = true ->
  ajv schema input <> Valid ->
  exists err, check_arguments ajv tool (Some input) = Throws err
              /\ err_code (as_MCPError err) = code_value VALIDATION_ERROR.
Proof.
  intros Hs Hts Hti Hinv. unfold check_arguments, validateToolInput.
  rewrite Hs. simpl. rewrite Hts, Hti. simpl.
  destruct (ajv schema input); [eexists; split; reflexivity | congruence
                               | eexists; split; reflexivity].
Qed.

Lemma check_arguments_empty (tool : ToolEntry) :
  check_arguments ajv tool (Some (JObj [])) = Returns tt
  <-> accepts_empty_object ajv tool.
Proof.
  unfold check_arguments, accepts_empty_object, validateToolInput.
  destruct (inputSchema (tool_definition tool)) as [schema|]; simpl;
    [|split; [now left | reflexivity]].
  destruct (truthy schema) eqn:Ht; simpl; [|split; [now left | reflexivity]].
  split.
  - intros H. right. exists schema. split; [reflexivity|].
    destruct (ajv schema (JObj [])); [discriminate | reflexivity | discriminate].
  - intros [H | (schema' & [= <-] & Hv)]; [discriminate|]. now rewrite Hv.
Qed.

(** C2, as the code has it.  For a [tools/call] request naming a
    registered tool, received on an open transport: when the arguments are
    truthy and fail the tool's input schema, the handler is not invoked
    and the request gets exactly one response, an error; when the
    arguments are falsy ([null], [false], [0], the empty string, or
    absent), they are not validated and the handler is invoked with the
    empty object. *)
Theorem invalid_arguments_rejected (s : MCPServer) (message : MCPMessage)
        (i : Id) (name : string) (args : option JSON) (tool : ToolEntry) :
  transport_closed s = false ->
  is_tools_call message i name args ->
  JsMap.get string_dec name (tools s) = Some tool ->
  let out := snd (handleMessage message s) in
  (forall schema input : JSON,
      inputSchema (tool_definition tool) = Some schema ->
      truthy schema = true ->
      args = Some input -> truthy input = true ->
      ajv schema input <> Valid ->
      (forall e, In e out -> is_call e = false)
      /\ exists e : ErrorObject, out = [ESend (error_envelope i e)])
  /\ (truthy_opt args = false ->
      exists reply : MCPMessage, out = [ECallTool name (JObj []); ESend reply]).
Proof.
  intros Hopen Hcall Hget out. subst out.
  rewrite (tools_call_effects s message i name args tool Hopen Hcall Hget).
  split.
  - intros schema input Hs Hts -> Hti Hinv.
    destruct (check_arguments_invalid tool schema input Hs Hts Hti Hinv)
      as (err & -> & _).
    split.
    + intros e [<- | []]. reflexivity.
    + eexists. reflexivity.
  - intros Hfalsy. rewrite (check_arguments_falsy tool args Hfalsy).
    assert (Hempty : or_empty_object args = JObj []).
    { destruct args as [v|]; simpl in *; [now rewrite Hfalsy | reflexivity]. }
    rewrite Hempty.
    destruct (tool_handler tool (JObj [])); eexists; reflexivity.
Qed.

(** C8, as the code has it.  For a registered tool and an open transport,
    compare a [tools/call] without [arguments] and one with the empty
    object.  Without arguments nothing is validated and the handler is
    invoked; whenever the handler is invoked, in either case, it receives
    the empty object.  When the tool has no schema or its schema accepts
    the empty object, both requests get the same result if the handler
    returns, and errors with the same code and message if it throws.  When
    the schema rejects the empty object, the request with the empty object
    is refused without invoking the handler, the one without arguments is
    not. *)
Theorem absent_arguments_not_validated (s : MCPServer) (absent empty : MCPMessage)
        (i : Id) (name : string) (tool : ToolEntry) :
  transport_closed s = false ->
  is_tools_call absent i name None ->
  is_tools_call empty i name (Some (JObj [])) ->
  JsMap.get string_dec name (tools s) = Some tool ->
  let out_absent := snd (handleMessage absent s) in
  let out_empty := snd (handleMessage empty s) in
  (exists reply : MCPMessage, out_absent = [ECallTool name (JObj []); ESend reply])
  /\ (forall (n : string) (a : JSON),
        In (ECallTool n a) out_absent \/ In (ECallTool n a) out_empty -> a = JObj [])
  /\ (accepts_empty_object ajv tool ->
      (forall res : JSON,
          tool_handler tool (JObj []) = Returns res ->
          out_empty = out_absent
          /\ out_absent = [ECallTool name (JObj []);
                           ESend (result_envelope i (text_content JSON_stringify res))])
      /\ (forall err : JsError,
            tool_handler tool (JObj []) = Throws err ->
            exists e1 e2 : ErrorObject,
              out_absent = [ECallTool name (JObj []); ESend (error_envelope i e1)]
              /\ out_empty = [ECallTool name (JObj []); ESend (error_envelope i e2)]
              /\ err_code e1 = err_code e2
              /\ err_message e1 = err_message e2))
  /\ (~ accepts_empty_object ajv tool ->
      (forall e, In e out_empty -> is_call e = false)
      /\ (exists e : ErrorObject, out_empty = [ESend (error_envelope i e)])
      /\ out_empty <> out_absent).
Proof.
  intros Hopen Habsent Hempty Hget out_absent out_empty.
  subst out_absent out_empty.
  rewrite (tools_call_effects s absent i name None tool Hopen Habsent Hget).
  rewrite (tools_call_effects s empty i name (Some (JObj [])) tool Hopen Hempty Hget).
  rewrite (check_arguments_falsy tool None eq_refl). simpl or_empty_object.
  repeat split.
  - destruct (tool_handler tool (JObj [])); eexists; reflexivity.
  - intros n a [Hin | Hin].
    + destruct (tool_handler tool (JObj []));
        destruct Hin as [[= _ <-] | [[=] | []]]; reflexivity.
    + destruct (check_arguments ajv tool (Some (JObj []))).
      * destruct (tool_handler tool (JObj []));
          destruct Hin as [[= _ <-] | [[=] | []]]; reflexivity.
      * destruct Hin as [[=] | []].
  - apply check_arguments_empty in H. rewrite H, H0. reflexivity.
  - apply check_arguments_empty in H. now rewrite H0.
  - intros err Herr. apply check_arguments_empty in H. rewrite H, Herr.
    do 2 eexists. repeat split.
  - intros e Hin.
    destruct (check_arguments ajv tool (Some (JObj []))) as [[]|err] eqn:Hc.
    + elim H. now apply check_arguments_empty.
    + destruct Hin as [<- | []]. reflexivity.
  - destruct (check_arguments ajv tool (Some (JObj []))) as [[]|err] eqn:Hc.
    + elim H. now apply check_arguments_empty.
    + eexists. reflexivity.
  - destruct (check_arguments ajv tool (Some (JObj []))) as [[]|err] eqn:Hc.
    + elim H. now apply check_arguments_empty.
    + destruct (tool_handler tool (JObj [])); discriminate.
Qed.

(** ** Shutdown *)

Lemma reject_all_spec (table : JsMap.t Id PendingRequest) (s : MCPServer) :
  reject_all table s =
    (Returns tt, set_timers (cancel_all table (timers s)) s,
     shutdown_rejections table).
Proof.
  revert s. induction table as [|[i pending] rest IH]; intros s.
  - simpl. now destruct s.
  - simpl. unfold bind, clearTimeout, modify, emit. simpl.
    rewrite IH. simpl. reflexivity.
Qed.

Lemma get_cancel_all (table : JsMap.t Id PendingRequest) (armed : list (nat * Z))
      (i : Id) (pending : PendingRequest) :
  In (i, pending) table ->
  JsMap.get Nat.eq_dec (ticket pending) (cancel_all table armed) = None.
Proof.
  assert (Hkeep : forall rest armed' t,
             JsMap.get Nat.eq_dec t armed' = None ->
             JsMap.get Nat.eq_dec t (cancel_all rest armed') = None).
  { induction rest as [|e rest IH]; intros armed' t Ht; simpl; [assumption|].
    apply IH. destruct (Nat.eq_dec (ticket (snd e)) t) as [<-|Hne].
    - apply JsMapFacts.get_delete_eq.
    - now rewrite JsMapFacts.get_delete_ne. }
  revert armed. induction table as [|e rest IH]; intros armed Hin; [destruct Hin|].
  destruct Hin as [-> | Hin]; simpl.
  - apply Hkeep, JsMapFacts.get_delete_eq.
  - now apply IH.
Qed.

Lemma In_shutdown_rejections (table : JsMap.t Id PendingRequest) (e : Effect) :
  In e (shutdown_rejections table) <->
  exists i pending,
    In (i, pending) table
    /\ (e = EClearTimeout (ticket pending)
        \/ e = EReject (ticket pending) (PlainError "Server shutting down")).
Proof.
  unfold shutdown_rejections. rewrite in_flat_map. split.
  - intros ([i pending] & Hin & [<- | [<- | []]]); exists i, pending; auto.
  - intros (i & pending & Hin & [-> | ->]); exists (i, pending); simpl; auto.
Qed.

Lemma shutdown_spec (s : MCPServer) (exitCode : option Z) :
  shutdown exitCode s =
    (Returns tt,
     set_transport_closed true
       (set_pendingRequests []
          (set_timers (cancel_all (pendingRequests s) (timers s)) s)),
     shutdown_rejections (pendingRequests s)
     ++ (if transport_closed s then [] else [EDestroyStdin; EEmit "close"])
     ++ [EEmit "shutdown";
         EExitAfter 1000 (match exitCode with
                          | Some c => c
                          | None => 0%Z
                          end)]).
Proof.
  unfold shutdown, bind at 1, reads. simpl.
  unfold bind at 1. rewrite reject_all_spec.
  unfold bind, modify, transport_close, reads, emit. simpl.
  destruct s as [ini tl rs ps rid pr info lvl closed tm tk]; simpl.
  destruct closed; simpl; rewrite ?app_nil_r; reflexivity.
Qed.

(** C5, as the code has it.  [shutdown] clears the timer of every entry of
    the pending table and rejects it with a plain [Error] whose message is
    ["Server shutting down"] (no MCP code), in iteration order; it leaves
    the table empty, closes the transport if it is open, emits
    ['shutdown'] and arms the exit timer of 1000 ms. *)
Theorem shutdown_rejects_pending (s : MCPServer) (exitCode : option Z) :
  let r := shutdown exitCode s in
  fst (fst r) = Returns tt
  /\ pendingRequests (snd (fst r)) = []
  /\ snd r =
       shutdown_rejections (pendingRequests s)
       ++ (if transport_closed s then [] else [EDestroyStdin; EEmit "close"])
       ++ [EEmit "shutdown";
           EExitAfter 1000 (match exitCode with
                            | Some c => c
                            | None => 0%Z
                            end)]
  /\ (forall (i : Id) (pending : PendingRequest),
        In (i, pending) (pendingRequests s) ->
        In (EClearTimeout (ticket pending)) (snd r)
        /\ In (EReject (ticket pending) (PlainError "Server shutting down")) (snd r)
        /\ JsMap.get Nat.eq_dec (ticket pending) (timers (snd (fst r))) = None)
  /\ (forall (t : nat) (e : JsError),
        In (EReject t e) (snd r) -> e = PlainError "Server shutting down").
Proof.
  intros r. subst r. rewrite shutdown_spec. simpl. repeat split.
  - apply in_or_app. left. apply In_shutdown_rejections. eauto.
  - apply in_or_app. left. apply In_shutdown_rejections. eauto.
  - now apply get_cancel_all with (i := i).
  - intros t e Hin. apply in_app_or in Hin. destruct Hin as [Hin | Hin].
    + apply In_shutdown_rejections in Hin.
      destruct Hin as (i & pending & _ & [H | H]); congruence.
    + apply in_app_or in Hin. destruct Hin as [Hin | Hin].
      * destruct (transport_closed s); simpl in Hin;
          intuition discriminate.
      * simpl in Hin. intuition discriminate.
Qed.

(** ** Outbound requests *)

Lemma keeps_ret {A B : Type} (member : MCPServer -> B) (a : A) :
  keeps member (ret a).
Proof. intros s; reflexivity. Qed.

Lemma keeps_throw {A B : Type} (member : MCPServer -> B) (e : JsError) :
  keeps member (@throw A e).
Proof. intros s; reflexivity. Qed.

Lemma keeps_reads {A B : Type} (member : MCPServer -> B) (m' : MCPServer -> A) :
  keeps member (reads m').
Proof. intros s; reflexivity. Qed.

Lemma keeps_settle {A B : Type} (member : MCPServer -> B) (o : Outcome A) :
  keeps member (settle o).
Proof. intros s; reflexivity. Qed.

Lemma keeps_emit {B : Type} (member : MCPServer -> B) (e : Effect) :
  keeps member (emit e).
Proof. intros s; reflexivity. Qed.

Lemma keeps_modify {B : Type} (member : MCPServer -> B) (f : MCPServer -> MCPServer) :
  (forall s, member (f s) = member s) -> keeps member (modify f).
Proof. intros H s. apply H. Qed.

Lemma keeps_transport_send {B : Type} (member : MCPServer -> B) (m : MCPMessage) :
  keeps member (transport_send m).
Proof. intros s. unfold transport_send. now destruct (transport_closed s). Qed.

Lemma keeps_bind {A A' B : Type} (member : MCPServer -> B) (c : M A) (k : A -> M A') :
  keeps member c -> (forall a, keeps member (k a)) -> keeps member (bind c k).
Proof.
  intros Hc Hk s. unfold bind. specialize (Hc s).
  destruct (c s) as [[[a|e] s1] out1]; simpl in *; [|assumption].
  specialize (Hk a s1). destruct (k a s1) as [[r s2] out2]; simpl in *.
  congruence.
Qed.

Lemma keeps_try_catch {A B : Type} (member : MCPServer -> B) (c : M A)
      (h : JsError -> M A) :
  keeps member c -> (forall e, keeps member (h e)) -> keeps member (try_catch c h).
Proof.
  intros Hc Hh s. unfold try_catch. specialize (Hc s).
  destruct (c s) as [[[a|e] s1] out1]; simpl in *; [assumption|].
  specialize (Hh e s1). destruct (h e s1) as [[r s2] out2]; simpl in *.
  congruence.
Qed.

Lemma keeps_destructure {B : Type} (member : MCPServer -> B)
      (what k : string) (v : option JSON) :
  keeps member (destructure what k v).
Proof. destruct v as [[]|]; intros ?; reflexivity. Qed.

Ltac keeps_step :=
  match goal with
  | |- keeps _ (bind _ _) => apply keeps_bind; [|intros ?]
  | |- keeps _ (try_catch _ _) => apply keeps_try_catch; [|intros ?]
  | |- keeps _ (modify _) => apply keeps_modify; intros ?; reflexivity
  | |- keeps _ (match ?x with _ => _ end) => destruct x
  | |- keeps _ _ =>
      first [apply keeps_ret | apply keeps_throw | apply keeps_reads
            | apply keeps_settle | apply keeps_emit | apply keeps_transport_send
            | apply keeps_destructure]
  end.

Lemma keeps_requestId_handleMessage (message : MCPMessage) :
  keeps requestId (handleMessage message).
Proof.
  unfold Server.handleMessage, Server.handleRequest, handleResponse,
    handleErrorResponse, clearTimeout, sendResult, sendError,
    Server.dispatch, handleInitialize, handleInitialized, handleToolsList,
    Server.handleToolsCall, handleResourcesList, handleResourcesRead,
    handlePromptsList, handlePromptsGet, handleLoggingSetLevel.
  repeat keeps_step.
Qed.

Lemma js_incr_le (n : Z) : (n <= js_incr n)%Z.
Proof. unfold js_incr. destruct (n <? 2 ^ 53)%Z; lia. Qed.

Lemma js_incr_exact (n : Z) : (n < 2 ^ 53)%Z -> js_incr n = (n + 1)%Z.
Proof.
  intros H. unfold js_incr. apply Z.ltb_lt in H. now rewrite H.
Qed.

Lemma sendRequest_requestId (m : string) (p : option JSON) (timeout : option Z)
      (s : MCPServer) :
  issued_id (fst (fst (sendRequest m p timeout s))) = js_incr (requestId s)
  /\ requestId (snd (fst (sendRequest m p timeout s))) = js_incr (requestId s).
Proof.
  unfold sendRequest, transport_send. simpl.
  destruct (transport_closed s); simpl; split; reflexivity.
Qed.

(** Only [sendRequest] moves the counter. *)
Lemma step_requestId (s : MCPServer) (op : Op) :
  match snd (step ajv JSON_stringify s op) with
  | Some i =>
      i = js_incr (requestId s)
      /\ requestId (fst (fst (step ajv JSON_stringify s op))) = i
  | None =>
      requestId (fst (fst (step ajv JSON_stringify s op))) = requestId s
  end.
Proof.
  destruct op; unfold step; try reflexivity.
  - pose proof (keeps_requestId_handleMessage message s) as H.
    destruct (handleMessage message s) as [[r s1] out1]. exact H.
  - pose proof (sendRequest_requestId m p timeout s) as H.
    destruct (sendRequest m p timeout s) as [[issued s1] out1]. simpl in *.
    destruct H as [H1 H2]. split; congruence.
  - unfold timer_fires.
    destruct (JsMap.get Nat.eq_dec t (timers s)); reflexivity.
  - rewrite shutdown_spec. reflexivity.
Qed.

Lemma run_ids (ops : list Op) (s : MCPServer) :
  let r := run ajv JSON_stringify s ops in
  (requestId s <= requestId (fst (fst r)))%Z
  /\ ((requestId (fst (fst r)) < 2 ^ 53)%Z ->
      StronglySorted Z.lt (snd r)
      /\ Forall (fun i => requestId s < i <= requestId (fst (fst r)))%Z (snd r)).
Proof.
  revert s. induction ops as [|op rest IH]; intros s; simpl.
  - split; [lia|]. intros _. split; constructor.
  - pose proof (step_requestId s op) as Hstep.
    destruct (step ajv JSON_stringify s op) as [[s1 out1] issued];
      cbn [fst snd] in Hstep.
    specialize (IH s1).
    destruct (run ajv JSON_stringify s1 rest) as [[s2 out2] ids];
      cbn [fst snd] in *.
    destruct IH as [Hle IH].
    destruct issued as [i|].
    + destruct Hstep as [-> Hs1]. pose proof (js_incr_le (requestId s)) as Hincr.
      split; [lia|]. intros Hbound.
      destruct (IH Hbound) as [Hsorted Hall].
      assert (Hexact : js_incr (requestId s) = (requestId s + 1)%Z)
        by (apply js_incr_exact; lia).
      rewrite Hexact in *.
      split.
      * constructor; [assumption|].
        eapply Forall_impl; [|exact Hall]. cbv beta. intros a Ha. lia.
      * constructor; [lia|].
        eapply Forall_impl; [|exact Hall]. cbv beta. intros a Ha. lia.
    + rewrite Hstep in *. split; [assumption|]. intros Hbound.
      exact (IH Hbound).
Qed.

Lemma handleMessage_unknown_response (message : MCPMessage) (i : Id) (res : JSON)
      (s : MCPServer) :
  id message = Some i -> result message = Some res ->
  JsMap.get Id_eq_dec i (pendingRequests s) = None ->
  handleMessage message s = (Returns tt, s, []).
Proof.
  intros Hid Hres Hget. unfold Server.handleMessage, try_catch.
  rewrite Hid, Hres. unfold handleResponse, bind, reads. simpl.
  now rewrite Hget.
Qed.

(** C6.  [sendRequest] hands out ids that grow strictly, as long as the
    counter stays in the range where [++] is exact on a JavaScript number;
    it arms the deadline timer with the given timeout or 30000 ms by
    default and records the entry in the pending table.  When the timer
    fires, its callback rejects with the [TimeoutError] code -32006 and
    removes the entry, so a response that arrives afterwards finds no
    entry: it settles nothing and changes nothing.  On an open transport
    the promise the caller holds is then settled by that rejection. *)
Theorem sendRequest_ids_and_deadline :
  (forall (s : MCPServer) (ops : list Op),
      let r := run ajv JSON_stringify s ops in
      (0 <= requestId s)%Z ->
      (requestId (fst (fst r)) < 2 ^ 53)%Z ->
      StronglySorted Z.lt (snd r)
      /\ Forall (fun i => requestId s < i)%Z (snd r))
  /\ (forall (s : MCPServer) (m : string) (p : option JSON) (timeout : option Z),
        let r := sendRequest m p timeout s in
        let issued := fst (fst r) in
        In (ESetTimeout (issued_ticket issued)
                        (match timeout with
                         | Some ms => ms
                         | None => 30000%Z
                         end)) (snd r)
        /\ JsMap.get Id_eq_dec (IdNum (issued_id issued))
                     (pendingRequests (snd (fst r)))
           = Some (mkPending (issued_ticket issued))
        /\ JsMap.get Nat.eq_dec (issued_ticket issued) (timers (snd (fst r)))
           = Some (issued_id issued)
        /\ (transport_closed s = false ->
            settlement (issued_ticket issued)
                       (snd r ++ snd (timer_fires (issued_ticket issued) (snd (fst r))))
            = Some (Rejected (MCPError TIMEOUT_ERROR "Request timeout" None))))
  /\ (forall (s : MCPServer) (t : nat) (i : Z),
        JsMap.get Nat.eq_dec t (timers s) = Some i ->
        let r := timer_fires t s in
        snd r = [EReject t (McpError (-32006) "Request timeout" None)]
        /\ JsMap.get Id_eq_dec (IdNum i) (pendingRequests (fst r)) = None
        /\ JsMap.get Nat.eq_dec t (timers (fst r)) = None
        /\ (forall (message : MCPMessage) (res : JSON),
              id message = Some (IdNum i) -> result message = Some res ->
              handleMessage message (fst r) = (Returns tt, fst r, []))).
Proof.
  split; [|split].
  - intros s ops r Hpos Hbound. subst r.
    destruct (run_ids ops s) as [_ Hids]. destruct (Hids Hbound) as [Hsorted Hall].
    split; [assumption|].
    eapply Forall_impl; [|exact Hall]. cbv beta. intros a Ha. lia.
  - intros s m p timeout r issued. subst issued r.
    unfold sendRequest, transport_send, timer_fires. simpl.
    destruct (transport_closed s) eqn:Hclosed; simpl;
      (split; [auto|]); (split; [apply JsMapFacts.get_set_eq|]);
      (split; [apply JsMapFacts.get_set_eq|]); intros Hopen; [discriminate|].
    rewrite JsMapFacts.get_set_eq. simpl. now rewrite Nat.eqb_refl.
  - intros s t i Harmed r. subst r. unfold timer_fires. rewrite Harmed. simpl.
    split; [reflexivity|]. split; [apply JsMapFacts.get_delete_eq|].
    split; [apply JsMapFacts.get_delete_eq|].
    intros message res Hid Hres.
    apply (handleMessage_unknown_response message (IdNum i) res); try assumption.
    apply JsMapFacts.get_delete_eq.
Qed.

(** ** Registries *)

Lemma keeps_tools_handleMessage (message : MCPMessage) :
  keeps tools (handleMessage message).
Proof.
  unfold Server.handleMessage, Server.handleRequest, handleResponse,
    handleErrorResponse, clearTimeout, sendResult, sendError,
    Server.dispatch, handleInitialize, handleInitialized, handleToolsList,
    Server.handleToolsCall, handleResourcesList, handleResourcesRead,
    handlePromptsList, handlePromptsGet, handleLoggingSetLevel.
  repeat keeps_step.
Qed.

Lemma keeps_resources_handleMessage (message : MCPMessage) :
  keeps resources (handleMessage message).
Proof.
  unfold Server.handleMessage, Server.handleRequest, handleResponse,
    handleErrorResponse, clearTimeout, sendResult, sendError,
    Server.dispatch, handleInitialize, handleInitialized, handleToolsList,
    Server.handleToolsCall, handleResourcesList, handleResourcesRead,
    handlePromptsList, handlePromptsGet, handleLoggingSetLevel.
  repeat keeps_step.
Qed.

Lemma keeps_prompts_handleMessage (message : MCPMessage) :
  keeps prompts (handleMessage message).
Proof.
  unfold Server.handleMessage, Server.handleRequest, handleResponse,
    handleErrorResponse, clearTimeout, sendResult, sendError,
    Server.dispatch, handleInitialize, handleInitialized, handleToolsList,
    Server.handleToolsCall, handleResourcesList, handleResourcesRead,
    handlePromptsList, handlePromptsGet, handleLoggingSetLevel.
  repeat keeps_step.
Qed.

Ltac registry_step keeps_lemma :=
  match goal with
  | |- forall (s : MCPServer) (op : Op), _ =>
      intros s op; destruct op as [message | m p timeout | t | exitCode
                                  | d h | d h | d h | name | u | name];
      unfold step; try reflexivity;
      [ pose proof (keeps_lemma message s) as Hk;
        destruct (handleMessage message s) as [[r s1] out1]; exact Hk
      | unfold sendRequest, transport_send; simpl;
        destruct (transport_closed s); reflexivity
      | unfold timer_fires;
        destruct (JsMap.get Nat.eq_dec t (timers s)); reflexivity
      | rewrite shutdown_spec; reflexivity ]
  end.

Lemma step_tools :
  forall (s : MCPServer) (op : Op),
    tools (fst (fst (step ajv JSON_stringify s op))) =
      match tool_op op with
      | Some r => JsMap.apply_op string_dec (tools s) r
      | None => tools s
      end.
Proof. registry_step keeps_tools_handleMessage. Qed.

Lemma step_resources :
  forall (s : MCPServer) (op : Op),
    resources (fst (fst (step ajv JSON_stringify s op))) =
      match resource_op op with
      | Some r => JsMap.apply_op string_dec (resources s) r
      | None => resources s
      end.
Proof. registry_step keeps_resources_handleMessage. Qed.

Lemma step_prompts :
  forall (s : MCPServer) (op : Op),
    prompts (fst (fst (step ajv JSON_stringify s op))) =
      match prompt_op op with
      | Some r => JsMap.apply_op string_dec (prompts s) r
      | None => prompts s
      end.
Proof. registry_step keeps_prompts_handleMessage. Qed.

(** The registry a run leaves is the one its registrations build. *)
Lemma run_registry {V : Type} (member : MCPServer -> JsMap.t string V)
      (select : Op -> option (JsMap.RegOp string V)) :
  (forall s op,
      member (fst (fst (step ajv JSON_stringify s op))) =
        match select op with
        | Some r => JsMap.apply_op string_dec (member s) r
        | None => member s
        end) ->
  forall (ops : list Op) (s : MCPServer),
    member (fst (fst (run ajv JSON_stringify s ops))) =
      JsMap.apply_ops string_dec (history select ops) (member s).
Proof.
  intros Hstep ops. induction ops as [|op rest IH]; intros s; [reflexivity|].
  simpl. specialize (Hstep s op).
  destruct (step ajv JSON_stringify s op) as [[s1 out1] issued].
  specialize (IH s1).
  destruct (run ajv JSON_stringify s1 rest) as [[s2 out2] ids].
  cbn [fst snd] in *. rewrite IH, Hstep.
  unfold history. simpl. unfold JsMap.apply_ops. rewrite fold_left_app.
  now destruct (select op).
Qed.

Lemma history_keyed {V : Type} (select : Op -> option (JsMap.RegOp string V))
      (key_of : V -> string) (ops : list Op) :
  (forall op k v, select op = Some (JsMap.Add k v) -> k = key_of v) ->
  Forall (fun r => match r with
                   | JsMap.Add k v => fst (k, v) = key_of (snd (k, v))
                   | JsMap.Remove _ => True
                   end) (history select ops).
Proof.
  intros Hsel. induction ops as [|op rest IH]; [constructor|].
  unfold history in *. simpl.
  destruct (select op) as [[k v | k]|] eqn:Hop; simpl; try assumption;
    constructor; try assumption; [|exact I].
  now apply (Hsel op).
Qed.

Lemma keys_by_definition {V : Type} (key_of : V -> string) (m : JsMap.t string V) :
  Forall (fun e => fst e = key_of (snd e)) m ->
  map key_of (JsMap.values m) = JsMap.keys m.
Proof.
  induction 1 as [|[k v] m Hk Hm IH]; simpl; [reflexivity|].
  simpl in Hk. now rewrite IH, Hk.
Qed.

Lemma remove_absent_tool (name : string) (s : MCPServer) :
  JsMap.get string_dec name (tools s) = None -> removeTool name s = s.
Proof.
  intros H. unfold removeTool. rewrite JsMapFacts.delete_absent by assumption.
  now destruct s.
Qed.

Lemma remove_absent_resource (u : string) (s : MCPServer) :
  JsMap.get string_dec u (resources s) = None -> removeResource u s = s.
Proof.
  intros H. unfold removeResource.
  rewrite JsMapFacts.delete_absent by assumption. now destruct s.
Qed.

Lemma remove_absent_prompt (name : string) (s : MCPServer) :
  JsMap.get string_dec name (prompts s) = None -> removePrompt name s = s.
Proof.
  intros H. unfold removePrompt.
  rewrite JsMapFacts.delete_absent by assumption. now destruct s.
Qed.

(** C7.  After any run of a new server, each registry follows the history
    of its registrations: a key maps to the definition registered last
    under it, or to nothing if it was removed since; iteration, and with
    it [tools/list], [resources/list] and [prompts/list], goes by rank of
    insertion, each definition under its own name or uri.  Removing an
    absent key changes nothing, so removal is idempotent. *)
Theorem registry_follows_history (level : option LogLevel) (info : option ServerInfo)
        (ops : list Op) :
  let s := fst (fst (run ajv JSON_stringify (MCPServer_new level info) ops)) in
  (JsMap.follows string_dec (history tool_op ops) (tools s)
   /\ JsMap.follows string_dec (history resource_op ops) (resources s)
   /\ JsMap.follows string_dec (history prompt_op ops) (prompts s))
  /\ (handleToolsList s =
        (Returns (JObj [("tools",
                         JArr (map (fun e => MCPTool_to_json (tool_definition e))
                                   (JsMap.values (tools s))))]), s, [])
      /\ handleResourcesList s =
           (Returns (JObj [("resources",
                            JArr (map (fun e => MCPResource_to_json (resource_definition e))
                                      (JsMap.values (resources s))))]), s, [])
      /\ handlePromptsList s =
           (Returns (JObj [("prompts",
                            JArr (map (fun e => MCPPrompt_to_json (prompt_definition e))
                                      (JsMap.values (prompts s))))]), s, []))
  /\ (map (fun e => tool_name (tool_definition e)) (JsMap.values (tools s))
        = JsMap.keys (tools s)
      /\ map (fun e => uri (resource_definition e)) (JsMap.values (resources s))
         = JsMap.keys (resources s)
      /\ map (fun e => prompt_name (prompt_definition e)) (JsMap.values (prompts s))
         = JsMap.keys (prompts s))
  /\ (forall name : string,
        (JsMap.get string_dec name (tools s) = None -> removeTool name s = s)
        /\ (JsMap.get string_dec name (resources s) = None -> removeResource name s = s)
        /\ (JsMap.get string_dec name (prompts s) = None -> removePrompt name s = s)
        /\ removeTool name (removeTool name s) = removeTool name s
        /\ removeResource name (removeResource name s) = removeResource name s
        /\ removePrompt name (removePrompt name s) = removePrompt name s).
Proof.
  intros s.
  assert (Ht : tools s = JsMap.apply_ops string_dec (history tool_op ops) (JsMap.empty _ _))
    by (subst s; now rewrite (run_registry tools tool_op step_tools)).
  assert (Hr : resources s =
               JsMap.apply_ops string_dec (history resource_op ops) (JsMap.empty _ _))
    by (subst s; now rewrite (run_registry resources resource_op step_resources)).
  assert (Hp : prompts s =
               JsMap.apply_ops string_dec (history prompt_op ops) (JsMap.empty _ _))
    by (subst s; now rewrite (run_registry prompts prompt_op step_prompts)).
  split; [|split; [|split]].
  - rewrite Ht, Hr, Hp. repeat split; apply JsMapFacts.follows_history.
  - repeat split.
  - rewrite Ht, Hr, Hp. repeat split; apply keys_by_definition.
    + apply JsMapFacts.Forall_apply_ops; [constructor|].
      apply (history_keyed tool_op (fun e => tool_name (tool_definition e))).
      intros [] k v; simpl; try discriminate. now intros [= <- <-].
    + apply JsMapFacts.Forall_apply_ops; [constructor|].
      apply (history_keyed resource_op (fun e => uri (resource_definition e))).
      intros [] k v; simpl; try discriminate. now intros [= <- <-].
    + apply JsMapFacts.Forall_apply_ops; [constructor|].
      apply (history_keyed prompt_op (fun e => prompt_name (prompt_definition e))).
      intros [] k v; simpl; try discriminate. now intros [= <- <-].
  - intros name.
    split; [apply remove_absent_tool|].
    split; [apply remove_absent_resource|].
    split; [apply remove_absent_prompt|].
    split; [|split].
    + apply remove_absent_tool. apply JsMapFacts.get_delete_eq.
    + apply remove_absent_resource. apply JsMapFacts.get_delete_eq.
    + apply remove_absent_prompt. apply JsMapFacts.get_delete_eq.
Qed.

(** ** Which cases of the switch answer *)

Lemma bind_Some_answers {A : Type} (c : M A) (s : MCPServer) :
  fst (fst ((res <- c ;; ret (Some res)) s)) <> Returns None.
Proof.
  unfold bind. destruct (c s) as [[[a|e] s1] out1]; simpl; discriminate.
Qed.

Lemma dispatch_answers (name : string) (p : option JSON) (s : MCPServer) :
  name <> "initialized" -> name <> "logging/setLevel" ->
  fst (fst (dispatch (Some name) p s)) <> Returns None.
Proof.
  intros Hinit Hlog. unfold Server.dispatch.
  apply String.eqb_neq in Hinit, Hlog. rewrite Hinit, Hlog.
  repeat match goal with
         | |- context [if ?b then _ else _] => destruct b
         end;
    solve [apply bind_Some_answers | discriminate].
Qed.

Lemma dispatch_initialized (p : option JSON) (s : MCPServer) :
  dispatch (Some "initialized") p s =
    (Returns None, set_initialized true s, [EEmit "initialized"]).
Proof. reflexivity. Qed.

Lemma dispatch_setLevel (obj : JSON) (level : string) (s : MCPServer) :
  obj <> JNull -> get_prop "level" obj = Some (JStr level) ->
  fst (fst (dispatch (Some "logging/setLevel") (Some obj) s)) = Returns None.
Proof.
  intros Hobj Hlevel. unfold Server.dispatch. simpl.
  unfold handleLoggingSetLevel, bind.
  destruct obj; try congruence; simpl in *; try discriminate.
  rewrite Hlevel.
  now destruct (LogLevel_member (JsString.toUpperCase level)).
Qed.

(** ** Nothing reads the [initialized] flag *)

Lemma blind_ret {A : Type} (a : A) : flag_blind (ret a).
Proof. intros s b; exists b; reflexivity. Qed.

Lemma blind_throw {A : Type} (e : JsError) : flag_blind (@throw A e).
Proof. intros s b; exists b; reflexivity. Qed.

Lemma blind_settle {A : Type} (o : Outcome A) : flag_blind (settle o).
Proof. intros s b; exists b; reflexivity. Qed.

Lemma blind_emit (e : Effect) : flag_blind (emit e).
Proof. intros s b; exists b; reflexivity. Qed.

Lemma blind_reads {A : Type} (member : MCPServer -> A) :
  (forall s b, member (set_initialized b s) = member s) ->
  flag_blind (reads member).
Proof. intros H s b; exists b. unfold reads. now rewrite H. Qed.

Lemma blind_modify (f : MCPServer -> MCPServer) :
  (forall s b, exists b', f (set_initialized b s) = set_initialized b' (f s)) ->
  flag_blind (modify f).
Proof.
  intros H s b. destruct (H s b) as [b' Hb']. exists b'.
  unfold modify. simpl. now rewrite Hb'.
Qed.

Lemma blind_bind {A B : Type} (c : M A) (k : A -> M B) :
  flag_blind c -> (forall a, flag_blind (k a)) -> flag_blind (bind c k).
Proof.
  intros Hc Hk s b. unfold bind. destruct (Hc s b) as [b1 H1]. rewrite H1.
  destruct (c s) as [[[a|e] s1] out1]; simpl.
  - destruct (Hk a s1 b1) as [b2 H2]. rewrite H2.
    destruct (k a s1) as [[r s2] out2]; simpl. now exists b2.
  - now exists b1.
Qed.

Lemma blind_try_catch {A : Type} (c : M A) (h : JsError -> M A) :
  flag_blind c -> (forall e, flag_blind (h e)) -> flag_blind (try_catch c h).
Proof.
  intros Hc Hh s b. unfold try_catch. destruct (Hc s b) as [b1 H1]. rewrite H1.
  destruct (c s) as [[[a|e] s1] out1]; simpl.
  - now exists b1.
  - destruct (Hh e s1 b1) as [b2 H2]. rewrite H2.
    destruct (h e s1) as [[r s2] out2]; simpl. now exists b2.
Qed.

Lemma blind_transport_send (m : MCPMessage) : flag_blind (transport_send m).
Proof.
  intros s b; exists b. unfold transport_send. simpl.
  now destruct (transport_closed s).
Qed.

Lemma blind_destructure (what k : string) (v : option JSON) :
  flag_blind (destructure what k v).
Proof.
  destruct v as [[]|]; simpl; first [apply blind_ret | apply blind_throw].
Qed.

Create HintDb blind.
Hint Resolve blind_ret blind_throw blind_settle blind_emit
     blind_transport_send blind_destructure : blind.

Ltac blind_step :=
  match goal with
  | |- flag_blind (bind _ _) => apply blind_bind; [|intros ?]
  | |- flag_blind (try_catch _ _) => apply blind_try_catch; [|intros ?]
  | |- flag_blind (reads _) => apply blind_reads; intros ? ?; reflexivity
  | |- flag_blind (modify _) =>
      apply blind_modify; intros ? ?; eexists; reflexivity
  | |- flag_blind (match ?x with _ => _ end) => destruct x
  | |- flag_blind _ => solve [auto with blind]
  end.

Lemma blind_dispatch (m : option string) (p : option JSON) :
  flag_blind (dispatch m p).
Proof.
  unfold Server.dispatch, handleInitialize, handleInitialized, handleToolsList,
    Server.handleToolsCall, handleResourcesList, handleResourcesRead,
    handlePromptsList, handlePromptsGet, handleLoggingSetLevel.
  repeat blind_step.
Qed.

Lemma blind_handleMessage (message : MCPMessage) :
  flag_blind (handleMessage message).
Proof.
  pose proof blind_dispatch.
  unfold Server.handleMessage, Server.handleRequest, handleResponse,
    handleErrorResponse, clearTimeout, sendResult, sendError.
  repeat blind_step.
Qed.

(** ** No error leaves with the code [INITIALIZATION_FAILED] *)

Lemma mild_ret {A : Type} (a : A) : mild (ret a).
Proof. intros s e; discriminate. Qed.

Lemma mild_reads {A : Type} (member : MCPServer -> A) : mild (reads member).
Proof. intros s e; discriminate. Qed.

Lemma mild_modify (f : MCPServer -> MCPServer) : mild (modify f).
Proof. intros s e; discriminate. Qed.

Lemma mild_emit (e : Effect) : mild (emit e).
Proof. intros s e'; discriminate. Qed.

Lemma mild_throw {A : Type} (e : JsError) :
  err_code (as_MCPError e) <> code_value INITIALIZATION_FAILED ->
  mild (@throw A e).
Proof. intros H s e' [= <-]. exact H. Qed.

Lemma mild_bind {A B : Type} (c : M A) (k : A -> M B) :
  mild c -> (forall a, mild (k a)) -> mild (bind c k).
Proof.
  intros Hc Hk s e. unfold bind. specialize (Hc s).
  destruct (c s) as [[[a|e1] s1] out1]; simpl in *.
  - specialize (Hk a s1). destruct (k a s1) as [[r s2] out2]. exact (Hk e).
  - intros [= <-]. now apply Hc.
Qed.

Lemma mild_try_catch {A : Type} (c : M A) (h : JsError -> M A) :
  (forall e, mild (h e)) -> mild (try_catch c h).
Proof.
  intros Hh s e. unfold try_catch.
  destruct (c s) as [[[a|e1] s1] out1]; simpl; [discriminate|].
  specialize (Hh e1 s1). destruct (h e1 s1) as [[r s2] out2]. exact (Hh e).
Qed.

Lemma mild_destructure (what k : string) (v : option JSON) :
  mild (destructure what k v).
Proof.
  destruct v as [[]|]; simpl;
    first [apply mild_ret | apply mild_throw; simpl; discriminate].
Qed.

Create HintDb mild.
Hint Resolve mild_ret mild_reads mild_modify mild_emit mild_destructure : mild.

Ltac mild_step :=
  match goal with
  | |- mild (bind _ _) => apply mild_bind; [|intros ?]
  | |- mild (try_catch _ _) => apply mild_try_catch; intros ?
  | |- mild (throw _) => apply mild_throw; simpl; discriminate
  | |- mild (match ?x with _ => _ end) => destruct x
  | |- mild _ => solve [auto with mild]
  end.

Lemma mild_dispatch (m : option string) (p : option JSON) : mild (dispatch m p).
Proof.
  unfold Server.dispatch, handleInitialize, handleInitialized, handleToolsList,
    Server.handleToolsCall, handleResourcesList, handleResourcesRead,
    handlePromptsList, handlePromptsGet, handleLoggingSetLevel.
  repeat mild_step.
Qed.

(** ** A closed transport carries nothing *)

Lemma hushed_quiet {A : Type} (c : M A) : quiet c -> hushed c.
Proof. intros Hq s Hs. destruct (Hq s) as [H1 H2]. split; congruence. Qed.

Lemma hushed_transport_send (m : MCPMessage) : hushed (transport_send m).
Proof. intros s Hs. unfold transport_send. rewrite Hs. now split. Qed.

Lemma hushed_bind {A B : Type} (c : M A) (k : A -> M B) :
  hushed c -> (forall a, hushed (k a)) -> hushed (bind c k).
Proof.
  intros Hc Hk s Hs. unfold bind. destruct (Hc s Hs) as [Hout Hst].
  destruct (c s) as [[[a|e] s1] out1]; simpl in *; [|now split].
  destruct (Hk a s1 Hst) as [Hout2 Hst2].
  destruct (k a s1) as [[r s2] out2]; simpl in *.
  rewrite sent_app, Hout, Hout2. now split.
Qed.

Lemma hushed_try_catch {A : Type} (c : M A) (h : JsError -> M A) :
  hushed c -> (forall e, hushed (h e)) -> hushed (try_catch c h).
Proof.
  intros Hc Hh s Hs. unfold try_catch. destruct (Hc s Hs) as [Hout Hst].
  destruct (c s) as [[[a|e] s1] out1]; simpl in *; [now split|].
  destruct (Hh e s1 Hst) as [Hout2 Hst2].
  destruct (h e s1) as [[r s2] out2]; simpl in *.
  rewrite sent_app, Hout, Hout2. now split.
Qed.

Lemma hushed_handleMessage (message : MCPMessage) : hushed (handleMessage message).
Proof.
  pose proof (fun m p => hushed_quiet _ (quiet_dispatch m p)) as Hd.
  pose proof (fun i r => hushed_quiet _ (quiet_handleResponse i r)) as Hr.
  pose proof (fun i e => hushed_quiet _ (quiet_handleErrorResponse i e)) as He.
  pose proof (fun A (a : A) => hushed_quiet _ (quiet_ret a)) as Hret.
  unfold Server.handleMessage, Server.handleRequest, sendResult, sendError.
  repeat match goal with
         | |- hushed (bind _ _) => apply hushed_bind; [|intros ?]
         | |- hushed (try_catch _ _) => apply hushed_try_catch; [|intros ?]
         | |- hushed (transport_send _) => apply hushed_transport_send
         | |- hushed (match ?x with _ => _ end) => destruct x
         | |- hushed _ => solve [auto]
         end.
Qed.

(** On an open transport, what [handleMessage] writes for a response is
    nothing, and for anything else what [handleRequest] writes. *)
Lemma handleMessage_sent_open (message : MCPMessage) (s : MCPServer) :
  transport_closed s = false ->
  sent (snd (handleMessage message s)) = []
  \/ sent (snd (handleMessage message s)) =
       reply_to (id message)
                (fst (fst (dispatch (method message) (params message) s))).
Proof.
  intros Hopen.
  destruct (handleRequest_open message s Hopen) as (Hr & _ & Hsent).
  unfold Server.handleMessage, try_catch.
  destruct (id message) as [i|] eqn:Hid;
    [destruct (result message) as [res|] eqn:Hres;
     [|destruct (error message) as [e|] eqn:Herr]|].
  - left. destruct (quiet_handleResponse i res s) as [Hq _].
    destruct (handleResponse i res s) as [[[[]|e] s1] out1] eqn:Heq; simpl in *;
      [assumption|].
    unfold handleResponse, bind, reads, clearTimeout, modify, emit in Heq.
    simpl in Heq.
    destruct (JsMap.get Id_eq_dec i (pendingRequests s)); discriminate.
  - left. destruct (quiet_handleErrorResponse i e s) as [Hq _].
    destruct (handleErrorResponse i e s) as [[[[]|e'] s1] out1] eqn:Heq;
      simpl in *; [assumption|].
    unfold handleErrorResponse, bind, reads, clearTimeout, modify, emit in Heq.
    simpl in Heq.
    destruct (JsMap.get Id_eq_dec i (pendingRequests s)); discriminate.
  - destruct (method message) as [name|] eqn:Hm; [|now left].
    destruct (name =? "")%string; [now left|]. right.
    rewrite <- Hm, <- Hid in *.
    destruct (handleRequest message s) as [[r s1] out1]; simpl in *.
    subst r. simpl. exact Hsent.
  - destruct (method message) as [name|] eqn:Hm; [|now left].
    destruct (name =? "")%string; [now left|]. right.
    rewrite <- Hm in *.
    destruct (handleRequest message s) as [[r s1] out1]; simpl in *.
    subst r. simpl. exact Hsent.
Qed.

(** C1, as the code has it.  Dispatch never consults the [initialized]
    flag: a message is handled the same, with the same lines written to
    the peer, whether or not the ['initialized'] notification has been
    processed; no response carries the code -32000; and a [tools/list]
    request is answered with the list of the registered tools in every
    state whose transport is open, before [initialize] too. *)
Theorem initialization_not_enforced (s : MCPServer) (message : MCPMessage) :
  (forall b : bool,
      snd (handleMessage message (set_initialized b s)) = snd (handleMessage message s)
      /\ fst (fst (handleMessage message (set_initialized b s)))
         = fst (fst (handleMessage message s)))
  /\ (forall (response : MCPMessage) (e : ErrorObject),
        In response (sent (snd (handleMessage message s))) ->
        error response = Some e ->
        err_code e <> code_value INITIALIZATION_FAILED)
  /\ (forall i : Id,
        transport_closed s = false ->
        id message = Some i -> method message = Some "tools/list" ->
        result message = None -> error message = None ->
        sent (snd (handleMessage message s)) =
          [result_envelope i
             (JObj [("tools",
                     JArr (map (fun tool => MCPTool_to_json (tool_definition tool))
                               (JsMap.values (tools s))))])]).
Proof.
  repeat split.
  - destruct (blind_handleMessage message s b) as [b' Hb]. now rewrite Hb.
  - destruct (blind_handleMessage message s b) as [b' Hb]. now rewrite Hb.
  - intros response e Hin Herr.
    destruct (transport_closed s) eqn:Hclosed.
    + destruct (hushed_handleMessage message s Hclosed) as [Hnone _].
      rewrite Hnone in Hin. destruct Hin.
    + destruct (handleMessage_sent_open message s Hclosed) as [Hnone | Hreply];
        [rewrite Hnone in Hin; destruct Hin|].
      rewrite Hreply in Hin. unfold reply_to in Hin.
      pose proof (mild_dispatch (method message) (params message) s) as Hmild.
      destruct (id message) as [i|]; [|destruct Hin].
      destruct (fst (fst (dispatch (method message) (params message) s)))
        as [[res|]|e'].
      * destruct Hin as [<- | []]. discriminate.
      * destruct Hin.
      * destruct Hin as [<- | []]. simpl in Herr. injection Herr as <-.
        now apply Hmild.
  - intros i Hopen Hid Hm Hres Herr.
    rewrite (handleMessage_request_open message "tools/list" s Hopen Hm
               ltac:(discriminate) (or_intror (conj Hres Herr))).
    destruct (handleRequest_open message s Hopen) as (_ & _ & Hsent).
    rewrite Hsent, Hid, Hm. reflexivity.
Qed.

(** C3, as the code has it.  While the transport is open, a message with a
    (non-empty) method gets: no response when it is a notification; exactly
    one response, a result or an error carrying the id of the request,
    when it is a request for any method, known or not, other than
    ['initialized'] and ['logging/setLevel']; no response for
    ['initialized'], with or without an id; no response for
    ['logging/setLevel'] with an id when its params hold a string
    [level]. *)
Theorem single_response (s : MCPServer) (message : MCPMessage) (name : string) :
  transport_closed s = false ->
  method message = Some name ->
  name <> "" ->
  let out := snd (handleMessage message s) in
  (id message = None -> sent out = [])
  /\ (forall i : Id,
        id message = Some i -> result message = None -> error message = None ->
        name <> "initialized" -> name <> "logging/setLevel" ->
        exists response : MCPMessage,
          sent out = [response]
          /\ id response = Some i
          /\ method response = None
          /\ ((exists res, result response = Some res /\ error response = None)
              \/ (exists e, error response = Some e /\ result response = None)))
  /\ (name = "initialized" ->
      result message = None -> error message = None -> sent out = [])
  /\ (forall (obj : JSON) (level : string),
        name = "logging/setLevel" ->
        result message = None -> error message = None ->
        params message = Some obj -> obj <> JNull ->
        get_prop "level" obj = Some (JStr level) ->
        sent out = []).
Proof.
  intros Hopen Hm Hname out. subst out.
  destruct (handleRequest_open message s Hopen) as (_ & _ & Hsent).
  repeat split.
  - intros Hid.
    rewrite (handleMessage_request_open message name s Hopen Hm Hname (or_introl Hid)).
    rewrite Hsent, Hid. reflexivity.
  - intros i Hid Hres Herr Hinit Hlog.
    rewrite (handleMessage_request_open message name s Hopen Hm Hname
               (or_intror (conj Hres Herr))).
    rewrite Hsent, Hid, Hm.
    pose proof (dispatch_answers name (params message) s Hinit Hlog) as Hans.
    destruct (fst (fst (dispatch (Some name) (params message) s))) as [[res|]|e];
      simpl.
    + eexists; repeat split. left. eexists; split; reflexivity.
    + congruence.
    + eexists; repeat split. right. eexists; split; reflexivity.
  - intros -> Hres Herr.
    rewrite (handleMessage_request_open message _ s Hopen Hm Hname
               (or_intror (conj Hres Herr))).
    rewrite Hsent, Hm, dispatch_initialized. simpl.
    now destruct (id message).
  - intros obj level -> Hres Herr Hp Hobj Hlevel.
    rewrite (handleMessage_request_open message _ s Hopen Hm Hname
               (or_intror (conj Hres Herr))).
    rewrite Hsent, Hm, Hp, (dispatch_setLevel obj level s Hobj Hlevel).
    now destruct (id message).
Qed.

(** ** More on dispatch *)

Lemma is_dispatched_spec (message : MCPMessage) :
  is_dispatched message = true ->
  exists name, method message = Some name /\ name <> ""
               /\ (id message = None \/ (result message = None /\ error message = None)).
Proof.
  unfold is_dispatched.
  destruct (id message) as [i|]; destruct (result message) as [r|];
    destruct (error message) as [e|]; try discriminate;
    destruct (method message) as [name|]; try discriminate;
    intros H; exists name; (split; [reflexivity|]);
    (split; [now apply String.eqb_neq, negb_true_iff|]); auto.
Qed.

(** What a dispatched message does on an open transport: what [dispatch]
    does, then the reply. *)
Lemma dispatched_open (message : MCPMessage) (s : MCPServer) :
  transport_closed s = false ->
  is_dispatched message = true ->
  let d := dispatch (method message) (params message) s in
  handleMessage message s =
    (Returns tt, snd (fst d),
     snd d ++ map ESend (reply_to (id message) (fst (fst d)))).
Proof.
  intros Hopen Hd d. subst d.
  destruct (is_dispatched_spec message Hd) as (name & Hm & Hname & Hcls).
  rewrite (handleMessage_request_open message name s Hopen Hm Hname Hcls).
  pose proof (handleRequest_open message s Hopen) as (H1 & H2 & _).
  pose proof (handleRequest_open_effects message s Hopen) as H3.
  destruct (handleRequest message s) as [[r s1] out1]. simpl in *.
  now subst.
Qed.


Lemma bind_throws {A B : Type} (c : M A) (k : A -> M B) (s s1 : MCPServer)
      (e : JsError) (out1 : list Effect) :
  c s = (Throws e, s1, out1) -> bind c k s = (Throws e, s1, out1).
Proof. intros H. unfold bind. now rewrite H. Qed.


Lemma destructure_nothing (what k : string) (p : option JSON) (s : MCPServer) :
  p = None \/ p = Some JNull ->
  exists msg, destructure what k p s = (Throws (PlainError msg), s, []).
Proof. intros [-> | ->]; eexists; reflexivity. Qed.





Lemma request_shape (message : MCPMessage) (i : Id) (name : string) :
  id message = Some i -> method message = Some name -> name <> "" ->
  result message = None -> error message = None ->
  is_dispatched message = true.
Proof.
  intros Hid Hm Hname Hres Herr. unfold is_dispatched.
  rewrite Hid, Hres, Herr, Hm. apply String.eqb_neq in Hname. now rewrite Hname.
Qed.



(** A request for a method the switch does not know gets the error
    -32601 with the method in its message, and changes nothing. *)
Theorem unknown_method_is_method_not_found (s : MCPServer) (message : MCPMessage)
        (i : Id) (name : string) :
  transport_closed s = false ->
  id message = Some i -> method message = Some name ->
  result message = None -> error message = None ->
  name <> "" -> ~ In name recognized ->
  handleMessage message s =
    (Returns tt, s,
     [ESend (error_envelope i
               (mkErrorObject (-32601) ("Method not found: " +++ name) None))]).
Proof.
  intros Hopen Hid Hm Hres Herr Hname Hnot.
  rewrite dispatched_open; [|assumption|].
  - rewrite Hm, Hid. unfold Server.dispatch.
    repeat match goal with
           | |- context [(name =? ?lit)%string] =>
               let E := fresh "E" in
               destruct (String.eqb_spec name lit) as [E|E];
               [elim Hnot; rewrite E; simpl; tauto|]
           end.
    reflexivity.
  - unfold is_dispatched. rewrite Hid, Hres, Herr, Hm.
    apply String.eqb_neq in Hname. now rewrite Hname.
Qed.

(** Whatever a tool handler throws, an [MCPError] with a code and data of
    its own included, the peer gets the code -32001, the handler's message
    behind ["Tool execution failed: "], and data that name the tool and
    echo the arguments as received. *)
Theorem tool_failure_is_masked (s : MCPServer) (message : MCPMessage) (i : Id)
        (name : string) (args : option JSON) (tool : ToolEntry) (err : JsError) :
  transport_closed s = false ->
  is_tools_call message i name args ->
  JsMap.get string_dec name (tools s) = Some tool ->
  check_arguments ajv tool args = Returns tt ->
  tool_handler tool (or_empty_object args) = Throws err ->
  snd (handleMessage message s) =
    [ECallTool name (or_empty_object args);
     ESend (error_envelope i
              (mkErrorObject (-32001)
                 ("Tool execution failed: " +++ message_of err)
                 (Some (JObj (obj_of [("tool", Some (JStr name));
                                      ("arguments", args)])))))].
Proof.
  intros Hopen Hcall Hget Hcheck Hthrow.
  rewrite (tools_call_effects s message i name args tool Hopen Hcall Hget).
  now rewrite Hcheck, Hthrow.
Qed.

(** What a tool handler returns reaches the peer as one text block: a
    string as it is, anything else through [JSON.stringify]. *)
Theorem tool_result_is_text (s : MCPServer) (message : MCPMessage) (i : Id)
        (name : string) (args : option JSON) (tool : ToolEntry) (res : JSON) :
  transport_closed s = false ->
  is_tools_call message i name args ->
  JsMap.get string_dec name (tools s) = Some tool ->
  check_arguments ajv tool args = Returns tt ->
  tool_handler tool (or_empty_object args) = Returns res ->
  snd (handleMessage message s) =
    [ECallTool name (or_empty_object args);
     ESend (result_envelope i
              (JObj [("content",
                      JArr [JObj [("type", JStr "text");
                                  ("text", JStr (match res with
                                                 | JStr text => text
                                                 | other => JSON_stringify other
                                                 end))]])]))].
Proof.
  intros Hopen Hcall Hget Hcheck Hret.
  rewrite (tools_call_effects s message i name args tool Hopen Hcall Hget).
  rewrite Hcheck, Hret. unfold text_content, as_text. now destruct res.
Qed.

(** ** [resources/read] and [prompts/get] *)







(** ** Requests without params *)

(** The four methods that read their params take them apart first: when
    the request has none, or [null], the [TypeError] of the destructuring
    is what the peer gets, under the code -32603, before any registry is
    looked at; [logging/setLevel], which otherwise never answers, answers
    here too. *)
Theorem missing_params_is_internal_error (s : MCPServer) (message : MCPMessage)
        (i : Id) (name : string) :
  transport_closed s = false ->
  id message = Some i -> method message = Some name ->
  result message = None -> error message = None ->
  In name ["tools/call"; "resources/read"; "prompts/get"; "logging/setLevel"] ->
  params message = None \/ params message = Some JNull ->
  exists msg : string,
    handleMessage message s =
      (Returns tt, s,
       [ESend (error_envelope i (mkErrorObject (-32603) msg None))]).
Proof.
  intros Hopen Hid Hm Hres Herr Hin Hp.
  assert (Hname : name <> "")
    by (simpl in Hin; intuition (subst; discriminate)).
  rewrite (dispatched_open message s Hopen
             (request_shape message i name Hid Hm Hname Hres Herr)).
  rewrite Hm, Hid.
  simpl in Hin.
  destruct Hin as [<- | [<- | [<- | [<- | []]]]];
    destruct Hp as [-> | ->]; eexists; reflexivity.
Qed.

(** ** Responses to outbound requests *)

Lemma handleResponse_pending (i : Id) (res : JSON) (pending : PendingRequest)
      (s : MCPServer) :
  JsMap.get Id_eq_dec i (pendingRequests s) = Some pending ->
  handleResponse i res s =
    (Returns tt,
     set_pendingRequests (JsMap.delete Id_eq_dec i (pendingRequests s))
       (set_timers (JsMap.delete Nat.eq_dec (ticket pending) (timers s)) s),
     [EClearTimeout (ticket pending); EResolve (ticket pending) res]).
Proof.
  intros Hget. unfold handleResponse, bind, reads. simpl. rewrite Hget.
  destruct s; reflexivity.
Qed.

Lemma handleErrorResponse_pending (i : Id) (e : ErrorObject) (pending : PendingRequest)
      (s : MCPServer) :
  JsMap.get Id_eq_dec i (pendingRequests s) = Some pending ->
  handleErrorResponse i e s =
    (Returns tt,
     set_pendingRequests (JsMap.delete Id_eq_dec i (pendingRequests s))
       (set_timers (JsMap.delete Nat.eq_dec (ticket pending) (timers s)) s),
     [EClearTimeout (ticket pending);
      EReject (ticket pending) (McpError (err_code e) (err_message e) (err_data e))]).
Proof.
  intros Hget. unfold handleErrorResponse, bind, reads. simpl. rewrite Hget.
  destruct s; reflexivity.
Qed.

Lemma handleMessage_unknown_error_response (message : MCPMessage) (i : Id)
      (e : ErrorObject) (s : MCPServer) :
  id message = Some i -> result message = None -> error message = Some e ->
  JsMap.get Id_eq_dec i (pendingRequests s) = None ->
  handleMessage message s = (Returns tt, s, []).
Proof.
  intros Hid Hres Herr Hget. unfold Server.handleMessage, try_catch.
  rewrite Hid, Hres, Herr. unfold handleErrorResponse, bind, reads. simpl.
  now rewrite Hget.
Qed.

Lemma handleMessage_response_pending (s : MCPServer) (message : MCPMessage) (i : Id)
      (res : JSON) (pending : PendingRequest) :
  id message = Some i -> result message = Some res ->
  JsMap.get Id_eq_dec i (pendingRequests s) = Some pending ->
  snd (handleMessage message s)
  = [EClearTimeout (ticket pending); EResolve (ticket pending) res]
  /\ pendingRequests (snd (fst (handleMessage message s)))
     = JsMap.delete Id_eq_dec i (pendingRequests s)
  /\ timers (snd (fst (handleMessage message s)))
     = JsMap.delete Nat.eq_dec (ticket pending) (timers s).
Proof.
  intros Hid Hres Hget.
  assert (Heq : handleMessage message s = handleResponse i res s).
  { unfold Server.handleMessage, try_catch. rewrite Hid, Hres.
    rewrite (handleResponse_pending i res pending s Hget). reflexivity. }
  rewrite Heq, (handleResponse_pending i res pending s Hget). cbn [fst snd].
  repeat split.
Qed.

(** A message with an id and a result is a response, whatever else it
    carries and whether or not the transport is open.  When its id is in
    the pending table, the deadline timer of the entry is cleared, the
    entry is removed and the promise is resolved with the result, and
    nothing is written.  After that neither the deadline nor the same
    response again does anything. *)
Theorem response_resolves_pending (s : MCPServer) (message : MCPMessage) (i : Id)
        (res : JSON) (pending : PendingRequest) :
  id message = Some i -> result message = Some res ->
  JsMap.get Id_eq_dec i (pendingRequests s) = Some pending ->
  let r := handleMessage message s in
  let s' := snd (fst r) in
  fst (fst r) = Returns tt
  /\ snd r = [EClearTimeout (ticket pending); EResolve (ticket pending) res]
  /\ pendingRequests s' = JsMap.delete Id_eq_dec i (pendingRequests s)
  /\ timers s' = JsMap.delete Nat.eq_dec (ticket pending) (timers s)
  /\ timer_fires (ticket pending) s' = (s', [])
  /\ handleMessage message s' = (Returns tt, s', []).
Proof.
  intros Hid Hres Hget r s'. subst s' r.
  assert (Heq : handleMessage message s = handleResponse i res s).
  { unfold Server.handleMessage, try_catch. rewrite Hid, Hres.
    rewrite (handleResponse_pending i res pending s Hget). reflexivity. }
  rewrite Heq, (handleResponse_pending i res pending s Hget). cbn [fst snd].
  repeat split.
  - unfold timer_fires. cbn [timers set_pendingRequests set_timers].
    now rewrite JsMapFacts.get_delete_eq.
  - apply (handleMessage_unknown_response message i res); try assumption.
    apply JsMapFacts.get_delete_eq.
Qed.

(** The same for an error response, a message with an id and an error but
    no result: the promise is rejected with an [MCPError] made of the
    peer's code, message and data. *)
Theorem error_response_rejects_pending (s : MCPServer) (message : MCPMessage)
        (i : Id) (e : ErrorObject) (pending : PendingRequest) :
  id message = Some i -> result message = None -> error message = Some e ->
  JsMap.get Id_eq_dec i (pendingRequests s) = Some pending ->
  let r := handleMessage message s in
  let s' := snd (fst r) in
  fst (fst r) = Returns tt
  /\ snd r = [EClearTimeout (ticket pending);
              EReject (ticket pending)
                      (McpError (err_code e) (err_message e) (err_data e))]
  /\ pendingRequests s' = JsMap.delete Id_eq_dec i (pendingRequests s)
  /\ timers s' = JsMap.delete Nat.eq_dec (ticket pending) (timers s)
  /\ timer_fires (ticket pending) s' = (s', [])
  /\ handleMessage message s' = (Returns tt, s', []).
Proof.
  intros Hid Hres Herr Hget r s'. subst s' r.
  assert (Heq : handleMessage message s = handleErrorResponse i e s).
  { unfold Server.handleMessage, try_catch. rewrite Hid, Hres, Herr.
    rewrite (handleErrorResponse_pending i e pending s Hget). reflexivity. }
  rewrite Heq, (handleErrorResponse_pending i e pending s Hget). cbn [fst snd].
  repeat split.
  - unfold timer_fires. cbn [timers set_pendingRequests set_timers].
    now rewrite JsMapFacts.get_delete_eq.
  - apply (handleMessage_unknown_error_response message i e); try assumption.
    apply JsMapFacts.get_delete_eq.
Qed.

(** A request and its response.  On an open transport the promise that
    [sendRequest] returned is resolved with the result of the response
    that carries the numeric id handed out.  On a closed transport the
    promise was rejected by the failed write already, yet the entry and
    the timer were left armed, and the response still clears them. *)
Theorem request_then_response (s : MCPServer) (m : string) (p : option JSON)
        (timeout : option Z) (message : MCPMessage) (res : JSON) :
  let r1 := sendRequest m p timeout s in
  let issued := fst (fst r1) in
  let r2 := handleMessage message (snd (fst r1)) in
  id message = Some (IdNum (issued_id issued)) ->
  result message = Some res ->
  settlement (issued_ticket issued) (snd r1 ++ snd r2)
  = Some (if transport_closed s
          then Rejected (PlainError "Transport is closed")
          else Resolved res)
  /\ JsMap.get Id_eq_dec (IdNum (issued_id issued)) (pendingRequests (snd (fst r2)))
     = None
  /\ JsMap.get Nat.eq_dec (issued_ticket issued) (timers (snd (fst r2))) = None
  /\ sent (snd r2) = [].
Proof.
  intros r1 issued r2 Hid Hres.
  assert (Hpending :
            JsMap.get Id_eq_dec (IdNum (issued_id issued))
                      (pendingRequests (snd (fst r1)))
            = Some (mkPending (issued_ticket issued))).
  { subst issued r1. unfold sendRequest, transport_send. simpl.
    destruct (transport_closed s); simpl; apply JsMapFacts.get_set_eq. }
  destruct (handleMessage_response_pending (snd (fst r1)) message _ res _
              Hid Hres Hpending) as (Hout & Hp & Ht).
  fold r2 in Hout, Hp, Ht. rewrite Hout, Hp, Ht. cbn [ticket].
  split; [|split; [apply JsMapFacts.get_delete_eq
                  |split; [apply JsMapFacts.get_delete_eq|reflexivity]]].
  subst issued r1. unfold sendRequest, transport_send. simpl.
  destruct (transport_closed s); simpl; now rewrite Nat.eqb_refl.
Qed.

(** ** The [initialized] flag *)

Lemma handleMessage_not_dispatched {B : Type} (member : MCPServer -> B)
      (message : MCPMessage) :
  (forall t s, member (set_timers t s) = member s) ->
  (forall t s, member (set_pendingRequests t s) = member s) ->
  is_dispatched message = false ->
  keeps member (handleMessage message).
Proof.
  intros Htimers Hpending Hnot.
  unfold is_dispatched in Hnot.
  unfold Server.handleMessage, handleResponse, handleErrorResponse, clearTimeout,
    sendError.
  destruct (id message) as [i|]; destruct (result message) as [res|];
    destruct (error message) as [e|];
    try (destruct (method message) as [name|];
         [apply negb_false_iff in Hnot; rewrite Hnot|]);
    repeat first [ apply keeps_modify; intros ?; first [apply Htimers | apply Hpending]
                 | keeps_step ].
Qed.

Lemma keeps_initialized_handleMessage (message : MCPMessage) :
  has_method "initialized" message = false ->
  keeps initialized (handleMessage message).
Proof.
  intros Hnot. unfold has_method in Hnot.
  unfold Server.handleMessage, Server.handleRequest, handleResponse,
    handleErrorResponse, clearTimeout, sendResult, sendError,
    Server.dispatch, handleInitialize, handleToolsList,
    Server.handleToolsCall, handleResourcesList, handleResourcesRead,
    handlePromptsList, handlePromptsGet, handleLoggingSetLevel.
  destruct (method message) as [name|]; [rewrite Hnot|]; repeat keeps_step.
Qed.

Lemma handleMessage_initialized (message : MCPMessage) (s : MCPServer) :
  is_dispatched message = true ->
  has_method "initialized" message = true ->
  handleMessage message s = (Returns tt, set_initialized true s, [EEmit "initialized"]).
Proof.
  unfold is_dispatched, has_method, Server.handleMessage, Server.handleRequest.
  destruct (method message) as [name|].
  - intros Hd Hname. apply String.eqb_eq in Hname. subst name.
    destruct (id message), (result message), (error message);
      try discriminate; reflexivity.
  - intros _ H. discriminate.
Qed.

Lemma step_initialized (s : MCPServer) (op : Op) :
  initialized (fst (fst (step ajv JSON_stringify s op)))
  = initialized s || sets_initialized op.
Proof.
  destruct op as [message | m p timeout | t | exitCode
                 | d h | d h | d h | name | u | name];
    unfold step, sets_initialized; cbn [fst snd];
    try (rewrite orb_false_r; reflexivity).
  - destruct (is_dispatched message) eqn:Hd;
      [destruct (has_method "initialized" message) eqn:Hm|]; cbn [andb].
    + rewrite (handleMessage_initialized message s Hd Hm). cbn [fst snd].
      now rewrite orb_true_r.
    + pose proof (keeps_initialized_handleMessage message Hm s) as Hk.
      destruct (handleMessage message s) as [[r s1] out1].
      cbn [fst snd] in *. now rewrite orb_false_r.
    + pose proof (handleMessage_not_dispatched initialized message
                    ltac:(reflexivity) ltac:(reflexivity) Hd s) as Hk.
      destruct (handleMessage message s) as [[r s1] out1].
      cbn [fst snd] in *. now rewrite orb_false_r.
  - unfold sendRequest, transport_send; simpl.
    rewrite orb_false_r. destruct (transport_closed s); reflexivity.
  - unfold timer_fires. rewrite orb_false_r.
    destruct (JsMap.get Nat.eq_dec t (timers s)); reflexivity.
  - rewrite shutdown_spec, orb_false_r. reflexivity.
Qed.

(** [isInitialized()] after a run: the flag is set by a message with the
    method ['initialized'] that is not a response, with or without an id
    and whatever the state of the transport, and by nothing else; nothing
    resets it, [shutdown] included. *)
Theorem initialized_flag_history (s : MCPServer) (ops : list Op) :
  isInitialized (fst (fst (run ajv JSON_stringify s ops)))
  = isInitialized s || existsb sets_initialized ops.
Proof.
  unfold isInitialized. revert s.
  induction ops as [|op rest IH]; intros s; simpl.
  - now rewrite orb_false_r.
  - pose proof (step_initialized s op) as Hstep.
    destruct (step ajv JSON_stringify s op) as [[s1 out1] issued].
    specialize (IH s1).
    destruct (run ajv JSON_stringify s1 rest) as [[s2 out2] ids].
    cbn [fst snd] in *. now rewrite IH, Hstep, orb_assoc.
Qed.

(** ** Requests on a closed transport *)

Lemma keeps_transport_closed_dispatch (m : option string) (p : option JSON) :
  keeps transport_closed (dispatch m p).
Proof.
  intros s. now destruct (quiet_dispatch m p s).
Qed.

(** A request that reaches [handleMessage] while the transport is closed
    is still dispatched, handlers included; the result cannot be written,
    nor can the error that [handleRequest] makes of that failure, nor the
    one [handleMessage] makes of the second: the promise of
    [handleMessage] is rejected with ["Transport is closed"]. *)
Theorem closed_transport_request (s : MCPServer) (message : MCPMessage) (i : Id) :
  transport_closed s = true ->
  is_dispatched message = true ->
  id message = Some i ->
  let d := dispatch (method message) (params message) s in
  fst (fst d) <> Returns None ->
  handleMessage message s =
    (Throws (PlainError "Transport is closed"), snd (fst d), snd d).
Proof.
  intros Hclosed Hd Hid d Hans. subst d.
  pose proof (keeps_transport_closed_dispatch (method message) (params message) s)
    as Hkeep.
  destruct (is_dispatched_spec message Hd) as (name & Hm & Hname & Hcls).
  destruct Hcls as [Hnone | [Hres Herr]]; [congruence|].
  unfold Server.handleMessage, Server.handleRequest.
  rewrite Hid, Hres, Herr, Hm.
  apply String.eqb_neq in Hname. rewrite Hname.
  rewrite <- Hm.
  unfold try_catch at 1 2. unfold bind.
  destruct (dispatch (method message) (params message) s) as [[[[res|]|e] s1] out1];
    cbn [fst snd] in *; [|congruence|];
    rewrite Hclosed in Hkeep;
    unfold sendResult, sendError, transport_send;
    repeat (rewrite Hkeep; cbn); rewrite ?app_nil_r; reflexivity.
Qed.

(** ** The pending table and the deadline timers *)

Lemma keeps_handleMessage_dispatched {B : Type} (member : MCPServer -> B)
      (message : MCPMessage) :
  (forall b s, member (set_initialized b s) = member s) ->
  (forall l s, member (set_logLevel l s) = member s) ->
  is_dispatched message = true ->
  keeps member (handleMessage message).
Proof.
  intros Hflag Hlevel Hd.
  destruct (is_dispatched_spec message Hd) as (name & Hm & Hname & Hcls).
  unfold Server.handleMessage, Server.handleRequest, sendResult, sendError,
    Server.dispatch, handleInitialize, handleInitialized, handleToolsList,
    Server.handleToolsCall, handleResourcesList, handleResourcesRead,
    handlePromptsList, handlePromptsGet, handleLoggingSetLevel.
  destruct Hcls as [Hid | [Hres Herr]];
    [rewrite Hid | rewrite Hres, Herr];
    repeat first [ apply keeps_modify; intros ?; first [apply Hflag | apply Hlevel]
                 | keeps_step ].
Qed.

Lemma consistent_ext (s s' : MCPServer) :
  pendingRequests s' = pendingRequests s -> timers s' = timers s ->
  tickets s' = tickets s -> requestId s' = requestId s ->
  consistent s -> consistent s'.
Proof. unfold consistent. intros -> -> -> ->. auto. Qed.

Lemma consistent_remove (s s' : MCPServer) (t : nat) (i : Z) :
  consistent s ->
  JsMap.get Nat.eq_dec t (timers s) = Some i ->
  pendingRequests s' = JsMap.delete Id_eq_dec (IdNum i) (pendingRequests s) ->
  timers s' = JsMap.delete Nat.eq_dec t (timers s) ->
  tickets s' = tickets s -> requestId s' = requestId s ->
  consistent s'.
Proof.
  intros [H1 H2] Ht Hp Htm Htk Hrid. unfold consistent.
  rewrite Hp, Htm, Htk, Hrid. split.
  - intros t' i' Hget.
    destruct (Nat.eq_dec t t') as [<-|Hne];
      [now rewrite JsMapFacts.get_delete_eq in Hget|].
    rewrite JsMapFacts.get_delete_ne in Hget by assumption.
    destruct (H1 t' i' Hget) as (Ha & Hb & Hc). split; [|split; assumption].
    rewrite JsMapFacts.get_delete_ne; [assumption|].
    intros [= ->]. destruct (H1 t i' Ht) as (Ha' & _). congruence.
  - intros k pending Hget.
    destruct (Id_eq_dec (IdNum i) k) as [<-|Hne];
      [now rewrite JsMapFacts.get_delete_eq in Hget|].
    rewrite JsMapFacts.get_delete_ne in Hget by assumption.
    destruct (H2 k pending Hget) as (i' & -> & Hi').
    exists i'. split; [reflexivity|].
    rewrite JsMapFacts.get_delete_ne; [assumption|].
    intros Heq. rewrite Heq in Ht. congruence.
Qed.

Lemma consistent_add (s s' : MCPServer) (i : Z) :
  consistent s ->
  (requestId s < i)%Z ->
  pendingRequests s'
  = JsMap.set Id_eq_dec (IdNum i) (mkPending (tickets s)) (pendingRequests s) ->
  timers s' = JsMap.set Nat.eq_dec (tickets s) i (timers s) ->
  tickets s' = S (tickets s) -> requestId s' = i ->
  consistent s'.
Proof.
  intros [H1 H2] Hfresh Hp Htm Htk Hrid. unfold consistent.
  rewrite Hp, Htm, Htk, Hrid. split.
  - intros t' i' Hget.
    destruct (Nat.eq_dec (tickets s) t') as [<-|Hne].
    + rewrite JsMapFacts.get_set_eq in Hget. injection Hget as <-.
      split; [apply JsMapFacts.get_set_eq|]. split; lia.
    + rewrite JsMapFacts.get_set_ne in Hget by assumption.
      destruct (H1 t' i' Hget) as (Ha & Hb & Hc).
      split; [|split; lia].
      rewrite JsMapFacts.get_set_ne; [assumption|].
      intros [= ->]. lia.
  - intros k pending Hget.
    destruct (Id_eq_dec (IdNum i) k) as [<-|Hne].
    + rewrite JsMapFacts.get_set_eq in Hget. injection Hget as <-.
      exists i. split; [reflexivity|]. apply JsMapFacts.get_set_eq.
    + rewrite JsMapFacts.get_set_ne in Hget by assumption.
      destruct (H2 k pending Hget) as (i' & -> & Hi').
      exists i'. split; [reflexivity|].
      rewrite JsMapFacts.get_set_ne; [assumption|].
      destruct (H1 _ _ Hi') as (_ & Hlt & _). lia.
Qed.

Lemma handleMessage_consistent (message : MCPMessage) (s : MCPServer) :
  consistent s -> consistent (snd (fst (handleMessage message s))).
Proof.
  intros Hc. destruct (is_dispatched message) eqn:Hd.
  - apply consistent_ext with (s := s); try assumption;
      apply (keeps_handleMessage_dispatched _ message); auto.
  - unfold is_dispatched in Hd. unfold Server.handleMessage, try_catch.
    destruct (id message) as [i|]; destruct (result message) as [res|];
      destruct (error message) as [e|];
      try (destruct (method message) as [name|];
           [apply negb_false_iff in Hd; rewrite Hd|]; exact Hc).
    + destruct (JsMap.get Id_eq_dec i (pendingRequests s)) as [pending|] eqn:Hget.
      * rewrite (handleResponse_pending i res pending s Hget). cbn [fst snd].
        destruct (proj2 Hc i pending Hget) as (i' & -> & Ht).
        now apply (consistent_remove s _ (ticket pending) i' Hc Ht).
      * unfold handleResponse, bind, reads. cbn [fst snd]. now rewrite Hget.
    + destruct (JsMap.get Id_eq_dec i (pendingRequests s)) as [pending|] eqn:Hget.
      * rewrite (handleResponse_pending i res pending s Hget). cbn [fst snd].
        destruct (proj2 Hc i pending Hget) as (i' & -> & Ht).
        now apply (consistent_remove s _ (ticket pending) i' Hc Ht).
      * unfold handleResponse, bind, reads. cbn [fst snd]. now rewrite Hget.
    + destruct (JsMap.get Id_eq_dec i (pendingRequests s)) as [pending|] eqn:Hget.
      * rewrite (handleErrorResponse_pending i e pending s Hget). cbn [fst snd].
        destruct (proj2 Hc i pending Hget) as (i' & -> & Ht).
        now apply (consistent_remove s _ (ticket pending) i' Hc Ht).
      * unfold handleErrorResponse, bind, reads. cbn [fst snd]. now rewrite Hget.
Qed.

Lemma get_cancel_all_armed (table : JsMap.t Id PendingRequest) (armed : list (nat * Z))
      (t : nat) (i : Z) :
  JsMap.get Nat.eq_dec t (cancel_all table armed) = Some i ->
  JsMap.get Nat.eq_dec t armed = Some i.
Proof.
  revert armed. induction table as [|entry rest IH]; intros armed H; [exact H|].
  simpl in H. apply IH in H.
  destruct (Nat.eq_dec (ticket (snd entry)) t) as [<-|Hne].
  - now rewrite JsMapFacts.get_delete_eq in H.
  - now rewrite JsMapFacts.get_delete_ne in H.
Qed.

Lemma cancel_all_consistent (s : MCPServer) :
  consistent s -> cancel_all (pendingRequests s) (timers s) = [].
Proof.
  intros [H1 _]. apply JsMapFacts.get_nowhere with (K_eq_dec := Nat.eq_dec).
  intros t.
  destruct (JsMap.get Nat.eq_dec t (cancel_all (pendingRequests s) (timers s)))
    as [i|] eqn:Hget; [|reflexivity].
  pose proof (get_cancel_all_armed _ _ _ _ Hget) as Harmed.
  destruct (H1 t i Harmed) as (Hentry & _).
  apply JsMapFacts.get_In in Hentry.
  pose proof (get_cancel_all _ (timers s) _ _ Hentry) as Hnone.
  cbn [ticket] in Hnone. congruence.
Qed.

Lemma step_consistent (s : MCPServer) (op : Op) :
  consistent s -> (requestId s < 2 ^ 53)%Z ->
  consistent (fst (fst (step ajv JSON_stringify s op))).
Proof.
  intros Hc Hbound.
  destruct op as [message | m p timeout | t | exitCode
                 | d h | d h | d h | name | u | name];
    unfold step; cbn [fst snd]; try exact Hc.
  - pose proof (handleMessage_consistent message s Hc) as H.
    now destruct (handleMessage message s) as [[r s1] out1].
  - assert (Hs : consistent (snd (fst (sendRequest m p timeout s)))).
    { apply (consistent_add s _ (js_incr (requestId s)) Hc);
        try (rewrite js_incr_exact by assumption; lia);
        unfold sendRequest, transport_send; simpl;
        destruct (transport_closed s); reflexivity. }
    now destruct (sendRequest m p timeout s) as [[issued s1] out1].
  - unfold timer_fires.
    destruct (JsMap.get Nat.eq_dec t (timers s)) as [i|] eqn:Hget; [|exact Hc].
    now apply (consistent_remove s _ t i Hc Hget).
  - rewrite shutdown_spec. cbn [fst snd].
    unfold consistent. cbn. rewrite (cancel_all_consistent s Hc).
    split; intros ? ? H; discriminate H.
Qed.

Lemma run_consistent (ops : list Op) (s : MCPServer) :
  consistent s ->
  (requestId (fst (fst (run ajv JSON_stringify s ops))) < 2 ^ 53)%Z ->
  consistent (fst (fst (run ajv JSON_stringify s ops))).
Proof.
  revert s. induction ops as [|op rest IH]; intros s Hc Hbound; [exact Hc|].
  simpl in *.
  pose proof (step_requestId s op) as Hstep.
  pose proof (step_consistent s op Hc) as Hcs.
  destruct (step ajv JSON_stringify s op) as [[s1 out1] issued].
  pose proof (run_ids rest s1) as [Hle _].
  specialize (IH s1).
  destruct (run ajv JSON_stringify s1 rest) as [[s2 out2] ids].
  cbn [fst snd] in *.
  apply IH; [|assumption].
  apply Hcs.
  destruct issued as [i|].
  - destruct Hstep as [-> Hs1]. pose proof (js_incr_le (requestId s)). lia.
  - lia.
Qed.

(** Over any run of a new server that stays in the exact range of the
    request counter, the pending table and the armed deadline timers
    match one to one: each timer belongs to the entry of its request and
    each entry has its timer armed.  The keys of the table are the
    numbers handed out, so a response whose id is a string settles
    nothing. *)
Theorem pending_table_matches_timers (level : option LogLevel)
        (info : option ServerInfo) (ops : list Op) :
  let s := fst (fst (run ajv JSON_stringify (MCPServer_new level info) ops)) in
  (requestId s < 2 ^ 53)%Z ->
  consistent s
  /\ (forall (message : MCPMessage) (x : string) (res : JSON),
        id message = Some (IdStr x) -> result message = Some res ->
        handleMessage message s = (Returns tt, s, [])).
Proof.
  intros s Hbound.
  assert (Hc : consistent s).
  { apply run_consistent; [|assumption]. split; intros ? ? H; discriminate H. }
  split; [assumption|].
  intros message x res Hid Hres.
  apply (handleMessage_unknown_response message (IdStr x) res); try assumption.
  destruct (JsMap.get Id_eq_dec (IdStr x) (pendingRequests s)) as [pending|] eqn:Hget;
    [|reflexivity].
  destruct (proj2 Hc _ _ Hget) as (i & Hi & _). discriminate.
Qed.

(** [shutdown] after such a run leaves no deadline timer armed: the timers
    it clears, those of the pending entries, are all there are. *)
Theorem no_timer_survives_shutdown (level : option LogLevel)
        (info : option ServerInfo) (ops : list Op) (exitCode : option Z) :
  let s := fst (fst (run ajv JSON_stringify (MCPServer_new level info) ops)) in
  let s' := snd (fst (shutdown exitCode s)) in
  (requestId s < 2 ^ 53)%Z ->
  timers s' = [] /\ pendingRequests s' = []
  /\ forall t : nat, timer_fires t s' = (s', []).
Proof.
  intros s s' Hbound.
  assert (Hc : consistent s).
  { apply run_consistent; [|assumption]. split; intros ? ? H; discriminate H. }
  assert (Htimers : timers s' = []).
  { subst s'. rewrite shutdown_spec. cbn. now apply cancel_all_consistent. }
  split; [assumption|]. split.
  - subst s'. rewrite shutdown_spec. reflexivity.
  - intros t. unfold timer_fires. now rewrite Htimers.
Qed.

(** ** Log level *)



(** The constructor takes [options.logLevel || LogLevel.INFO], and
    [DEBUG] is [0]: a new server drops debug entries whatever level it
    was asked for. *)
Theorem new_server_drops_debug (level : option LogLevel) (info : option ServerInfo) :
  Logger.filtered DEBUG (logLevel (MCPServer_new level info)) = true
  /\ (forall l : LogLevel,
        level = Some l -> l <> DEBUG ->
        logLevel (MCPServer_new level info) = LevelNumber l).
Proof.
  split.
  - now destruct level as [[]|].
  - intros l -> Hl. now destruct l.
Qed.

End Engine.

Lemma tools_call_shape (i : Z) (name : string) (args : option JSON) :
  is_tools_call (Examples.tools_call i name args) (IdNum i) name args.
Proof.
  unfold is_tools_call, Examples.tools_call, Examples.request. simpl.
  repeat split. eexists. split; [reflexivity|].
  destruct args; split; reflexivity.
Qed.

(** The calculator, not yet initialized, lists its tools. *)
Lemma initialization_not_enforced_witness :
  sent (snd (Examples.receive Examples.calculator
               (Examples.request 1 "tools/list" None)))
  = [result_envelope (IdNum 1)
       (JObj [("tools", JArr [MCPTool_to_json Examples.addTool_definition])])].
Proof.
  apply (proj2 (proj2 (initialization_not_enforced
                         Examples.toy_ajv Examples.toy_stringify
                         Examples.calculator
                         (Examples.request 1 "tools/list" None)))
           (IdNum 1)); reflexivity.
Defined.

(** C1 as stated fails: [tools/list] sent before [initialize] is answered
    with a result, not with an error of code -32000. *)
Lemma initialization_gate_counterexample :
  isInitialized Examples.calculator = false
  /\ sent (snd (Examples.receive Examples.calculator
                  (Examples.request 1 "tools/list" None)))
     = [mkMessage (Some (IdNum 1)) None None
          (Some (JObj [("tools", JArr [MCPTool_to_json Examples.addTool_definition])]))
          None].
Proof. split; reflexivity. Qed.

(** The [add] tool called with [{a: 5}]: one error, no handler call. *)
Lemma invalid_arguments_rejected_witness :
  let out := snd (Examples.receive Examples.calculator
                    (Examples.tools_call 1 "add" (Some (JObj [("a", JNum 5)])))) in
  (forall e, In e out -> is_call e = false)
  /\ exists e : ErrorObject, out = [ESend (error_envelope (IdNum 1) e)].
Proof.
  apply (proj1 (invalid_arguments_rejected
                  Examples.toy_ajv Examples.toy_stringify Examples.calculator
                  (Examples.tools_call 1 "add" (Some (JObj [("a", JNum 5)])))
                  (IdNum 1) "add" (Some (JObj [("a", JNum 5)]))
                  (mkToolEntry Examples.addTool_definition Examples.add_handler)
                  eq_refl (tools_call_shape 1 "add" _) eq_refl)
           Examples.add_schema (JObj [("a", JNum 5)])
           eq_refl eq_refl eq_refl eq_refl).
  discriminate.
Defined.

(** C2 as stated fails twice.  Arguments that miss a required property
    are answered with the code -32001 and data that name the tool and echo
    the arguments, not with -32005 and an instance path; and arguments
    that are present but falsy, here [null], are not validated: the
    handler runs and the request succeeds. *)
Lemma validation_error_counterexample :
  sent (snd (Examples.receive Examples.calculator
               (Examples.tools_call 1 "add" (Some (JObj [("a", JNum 5)])))))
  = [error_envelope (IdNum 1)
       (mkErrorObject (-32001)
          "Tool execution failed: Tool input validation failed:  must have required property 'b'"
          (Some (JObj [("tool", JStr "add");
                       ("arguments", JObj [("a", JNum 5)])])))]
  /\ Examples.toy_ajv Examples.add_schema JNull <> Validator.Valid
  /\ exists res : JSON,
       snd (Examples.receive Examples.calculator
              (Examples.tools_call 1 "add" (Some JNull)))
       = [ECallTool "add" (JObj []); ESend (result_envelope (IdNum 1) res)].
Proof.
  split; [reflexivity|]. split; [discriminate|].
  eexists. reflexivity.
Qed.

(** The [add] tool called without arguments. *)
Lemma absent_arguments_not_validated_witness :
  exists reply : MCPMessage,
    snd (Examples.receive Examples.calculator (Examples.tools_call 1 "add" None))
    = [ECallTool "add" (JObj []); ESend reply].
Proof.
  apply (proj1 (absent_arguments_not_validated
                  Examples.toy_ajv Examples.toy_stringify Examples.calculator
                  (Examples.tools_call 1 "add" None)
                  (Examples.tools_call 1 "add" (Some (JObj [])))
                  (IdNum 1) "add"
                  (mkToolEntry Examples.addTool_definition Examples.add_handler)
                  eq_refl (tools_call_shape 1 "add" None)
                  (tools_call_shape 1 "add" (Some (JObj []))) eq_refl)).
Defined.

(** C8 as stated fails: the [add] tool requires [a] and [b]; called
    without [arguments] its handler runs on the empty object and the
    request succeeds, called with the empty object it is refused and the
    handler does not run. *)
Lemma absent_arguments_counterexample :
  let absent := snd (Examples.receive Examples.calculator
                       (Examples.tools_call 1 "add" None)) in
  let empty := snd (Examples.receive Examples.calculator
                      (Examples.tools_call 1 "add" (Some (JObj [])))) in
  (exists res : JSON,
      absent = [ECallTool "add" (JObj []); ESend (result_envelope (IdNum 1) res)])
  /\ (exists e : ErrorObject, empty = [ESend (error_envelope (IdNum 1) e)])
  /\ absent <> empty.
Proof.
  repeat split.
  - eexists. reflexivity.
  - eexists. reflexivity.
  - discriminate.
Qed.

(** Two requests issued by a new server get the ids 1 and 2; when the
    deadline of the first passes it is rejected with the code -32006. *)
Lemma sendRequest_ids_and_deadline_witness :
  snd (run Examples.toy_ajv Examples.toy_stringify (MCPServer_new None None)
           [SendRequest "ping" None None; SendRequest "ping" None (Some 50%Z)])
  = [1; 2]%Z
  /\ StronglySorted Z.lt [1; 2]%Z
  /\ snd (timer_fires 0 Examples.pinged)
     = [EReject 0 (McpError (-32006) "Request timeout" None)].
Proof.
  split; [reflexivity|]. split.
  - apply (proj1 (sendRequest_ids_and_deadline Examples.toy_ajv Examples.toy_stringify)
            (MCPServer_new None None)
            [SendRequest "ping" None None; SendRequest "ping" None (Some 50%Z)]).
    + simpl. lia.
    + vm_compute. reflexivity.
  - apply (proj2 (proj2 (sendRequest_ids_and_deadline
                           Examples.toy_ajv Examples.toy_stringify))
            Examples.pinged 0 1%Z).
    reflexivity.
Defined.

(** The pending request of [pinged] at shutdown: timer cleared, promise
    rejected, timer no longer armed. *)
Lemma shutdown_rejects_pending_witness :
  In (EClearTimeout 0) (snd (shutdown None Examples.pinged))
  /\ In (EReject 0 (PlainError "Server shutting down"))
        (snd (shutdown None Examples.pinged))
  /\ JsMap.get Nat.eq_dec 0 (timers (snd (fst (shutdown None Examples.pinged)))) = None.
Proof.
  apply (proj1 (proj2 (proj2 (proj2 (shutdown_rejects_pending Examples.pinged None))))
           (IdNum 1) (mkPending 0)).
  left. reflexivity.
Defined.

(** C5 as stated fails: the pending request of [pinged] is rejected with a
    plain [Error] saying ["Server shutting down"], which is no
    [TimeoutError] and carries no code. *)
Lemma shutdown_counterexample :
  pendingRequests Examples.pinged = [(IdNum 1, mkPending 0)]
  /\ snd (shutdown None Examples.pinged)
     = [EClearTimeout 0; EReject 0 (PlainError "Server shutting down");
        EDestroyStdin; EEmit "close"; EEmit "shutdown"; EExitAfter 1000 0]
  /\ PlainError "Server shutting down"
     <> MCPError TIMEOUT_ERROR "shutting down" None.
Proof. repeat split. discriminate. Qed.

(** A history on the calculator: [subtract] is registered, [add] is
    registered anew, removed and registered again; it then comes last.
    Removing a name that is not registered changes nothing. *)
Lemma registry_follows_history_witness :
  let s := fst (fst (run Examples.toy_ajv Examples.toy_stringify
                         (MCPServer_new None None) Examples.registrations)) in
  JsMap.keys (tools s) = ["subtract"; "add"]
  /\ removeTool "multiply" s = s.
Proof.
  split; [reflexivity|].
  exact (proj1 (proj2 (proj2 (proj2 (registry_follows_history
                                       Examples.toy_ajv Examples.toy_stringify
                                       None None Examples.registrations)))
                  "multiply")
           eq_refl).
Defined.

(** The calculator answers [tools/list], sent with id 1, once. *)
Lemma single_response_witness :
  exists response : MCPMessage,
    sent (snd (Examples.receive Examples.calculator
                 (Examples.request 1 "tools/list" None))) = [response]
    /\ id response = Some (IdNum 1).
Proof.
  destruct (single_response Examples.toy_ajv Examples.toy_stringify
              Examples.calculator (Examples.request 1 "tools/list" None)
              "tools/list" eq_refl eq_refl ltac:(discriminate))
    as (_ & Hone & _).
  destruct (Hone (IdNum 1) eq_refl eq_refl eq_refl
              ltac:(discriminate) ltac:(discriminate))
    as (response & Hsent & Hid & _).
  exists response. split; [exact Hsent | exact Hid].
Defined.

(** C3 as stated fails: a request with an id whose method is
    ['initialized'] is left without any response. *)
Lemma single_response_counterexample :
  let message := Examples.request 1 "initialized" None in
  id message = Some (IdNum 1)
  /\ sent (snd (Examples.receive Examples.calculator message)) = [].
Proof. split; reflexivity. Qed.

(** ** The further properties at work *)


Lemma unknown_method_is_method_not_found_witness :
  Examples.receive Examples.calculator (Examples.request 1 "tools/lst" None)
  = (Examples.calculator,
     [ESend (error_envelope (IdNum 1)
               (mkErrorObject (-32601) "Method not found: tools/lst" None))]).
Proof.
  unfold Examples.receive.
  rewrite (unknown_method_is_method_not_found Examples.toy_ajv Examples.toy_stringify
             Examples.calculator (Examples.request 1 "tools/lst" None) (IdNum 1)
             "tools/lst");
    try reflexivity; try discriminate.
  simpl. intuition discriminate.
Defined.

Lemma divide_call_shape (i : Z) (a b : Z) :
  is_tools_call
    (Examples.tools_call i "divide"
       (Some (JObj [("a", JNum a); ("b", JNum b)])))
    (IdNum i) "divide" (Some (JObj [("a", JNum a); ("b", JNum b)])).
Proof.
  repeat split. eexists. split; [reflexivity|]. split; reflexivity.
Qed.

Lemma tool_failure_is_masked_witness :
  snd (Examples.receive Examples.workshop
         (Examples.tools_call 1 "divide"
            (Some (JObj [("a", JNum 1); ("b", JNum 0)]))))
  = [ECallTool "divide" (JObj [("a", JNum 1); ("b", JNum 0)]);
     ESend (error_envelope (IdNum 1)
              (mkErrorObject (-32001)
                 "Tool execution failed: Division by zero is not allowed"
                 (Some (JObj [("tool", JStr "divide");
                              ("arguments", JObj [("a", JNum 1); ("b", JNum 0)])]))))].
Proof.
  transitivity
    (snd (handleMessage Examples.toy_ajv Examples.toy_stringify
            (Examples.tools_call 1 "divide"
               (Some (JObj [("a", JNum 1); ("b", JNum 0)])))
            Examples.workshop)); [reflexivity|].
  apply (tool_failure_is_masked Examples.toy_ajv Examples.toy_stringify
           Examples.workshop _ (IdNum 1) "divide"
           (Some (JObj [("a", JNum 1); ("b", JNum 0)]))
           (mkToolEntry Examples.divideTool_definition Examples.divide_handler)
           (PlainError "Division by zero is not allowed"));
    [reflexivity | apply divide_call_shape | reflexivity | reflexivity | reflexivity].
Defined.

Lemma tool_result_is_text_witness :
  snd (Examples.receive Examples.workshop
         (Examples.tools_call 1 "divide"
            (Some (JObj [("a", JNum 1); ("b", JNum 2)]))))
  = [ECallTool "divide" (JObj [("a", JNum 1); ("b", JNum 2)]);
     ESend (result_envelope (IdNum 1)
              (JObj [("content",
                      JArr [JObj [("type", JStr "text");
                                  ("text",
                                   JStr (Examples.toy_stringify
                                           (JObj [("operation", JStr "division")])))]])]))].
Proof.
  transitivity
    (snd (handleMessage Examples.toy_ajv Examples.toy_stringify
            (Examples.tools_call 1 "divide"
               (Some (JObj [("a", JNum 1); ("b", JNum 2)])))
            Examples.workshop)); [reflexivity|].
  apply (tool_result_is_text Examples.toy_ajv Examples.toy_stringify
           Examples.workshop _ (IdNum 1) "divide"
           (Some (JObj [("a", JNum 1); ("b", JNum 2)]))
           (mkToolEntry Examples.divideTool_definition Examples.divide_handler)
           (JObj [("operation", JStr "division")]));
    [reflexivity | apply divide_call_shape | reflexivity | reflexivity | reflexivity].
Defined.



Lemma missing_params_is_internal_error_witness :
  exists msg : string,
    handleMessage Examples.toy_ajv Examples.toy_stringify
      (Examples.request 1 "logging/setLevel" None) Examples.calculator
    = (Returns tt, Examples.calculator,
       [ESend (error_envelope (IdNum 1) (mkErrorObject (-32603) msg None))]).
Proof.
  apply (missing_params_is_internal_error Examples.toy_ajv Examples.toy_stringify
           Examples.calculator (Examples.request 1 "logging/setLevel" None)
           (IdNum 1) "logging/setLevel");
    try reflexivity.
  - simpl. auto.
  - now left.
Defined.

Lemma response_resolves_pending_witness :
  snd (handleMessage Examples.toy_ajv Examples.toy_stringify
         (Examples.response 1 (JStr "pong")) Examples.pinged)
  = [EClearTimeout 0; EResolve 0 (JStr "pong")].
Proof.
  apply (proj1 (proj2 (response_resolves_pending
                         Examples.toy_ajv Examples.toy_stringify Examples.pinged
                         (Examples.response 1 (JStr "pong")) (IdNum 1) (JStr "pong")
                         (mkPending 0) eq_refl eq_refl eq_refl))).
Defined.

Lemma error_response_rejects_pending_witness :
  snd (handleMessage Examples.toy_ajv Examples.toy_stringify
         (Examples.error_response 1 (mkErrorObject (-32601) "no ping" None))
         Examples.pinged)
  = [EClearTimeout 0; EReject 0 (McpError (-32601) "no ping" None)].
Proof.
  apply (proj1 (proj2 (error_response_rejects_pending
                         Examples.toy_ajv Examples.toy_stringify Examples.pinged
                         (Examples.error_response 1
                            (mkErrorObject (-32601) "no ping" None))
                         (IdNum 1) (mkErrorObject (-32601) "no ping" None)
                         (mkPending 0) eq_refl eq_refl eq_refl eq_refl))).
Defined.

Lemma request_then_response_witness :
  settlement 0
    (snd (sendRequest "ping" None None (MCPServer_new None None))
     ++ snd (handleMessage Examples.toy_ajv Examples.toy_stringify
               (Examples.response 1 (JStr "pong")) Examples.pinged))
  = Some (Resolved (JStr "pong")).
Proof.
  apply (proj1 (request_then_response
                  Examples.toy_ajv Examples.toy_stringify (MCPServer_new None None)
                  "ping" None None (Examples.response 1 (JStr "pong")) (JStr "pong")
                  eq_refl eq_refl)).
Defined.

Lemma closed_transport_request_witness :
  let closed := snd (fst (shutdown None Examples.calculator)) in
  handleMessage Examples.toy_ajv Examples.toy_stringify
    (Examples.tools_call 1 "add" (Some (JObj [("a", JNum 1); ("b", JNum 2)]))) closed
  = (Throws (PlainError "Transport is closed"), closed,
     [ECallTool "add" (JObj [("a", JNum 1); ("b", JNum 2)])]).
Proof.
  intros closed.
  apply (closed_transport_request Examples.toy_ajv Examples.toy_stringify closed
           (Examples.tools_call 1 "add" (Some (JObj [("a", JNum 1); ("b", JNum 2)])))
           (IdNum 1)); try reflexivity.
  discriminate.
Defined.

Lemma pending_table_matches_timers_witness :
  consistent
    (fst (fst (run Examples.toy_ajv Examples.toy_stringify (MCPServer_new None None)
                   [SendRequest "ping" None None;
                    SendRequest "ping" None (Some 50%Z);
                    Receive (Examples.response 1 (JStr "pong"));
                    TimerFires 1]))).
Proof.
  apply (pending_table_matches_timers Examples.toy_ajv Examples.toy_stringify
           None None
           [SendRequest "ping" None None;
            SendRequest "ping" None (Some 50%Z);
            Receive (Examples.response 1 (JStr "pong"));
            TimerFires 1]).
  vm_compute. reflexivity.
Defined.

Lemma no_timer_survives_shutdown_witness :
  timers (snd (fst (shutdown None
                      (fst (fst (run Examples.toy_ajv Examples.toy_stringify
                                     (MCPServer_new None None)
                                     [SendRequest "ping" None None;
                                      SendRequest "ping" None (Some 50%Z)]))))))
  = [].
Proof.
  apply (no_timer_survives_shutdown Examples.toy_ajv Examples.toy_stringify
           None None
           [SendRequest "ping" None None; SendRequest "ping" None (Some 50%Z)] None).
  vm_compute. reflexivity.
Defined.


End ServerFacts.

Module AuthFacts.
Import Auth.

Lemma present_nonempty (a : string) : a <> "" -> present (Some a) = true.
Proof. intros H. simpl. apply String.eqb_neq in H. now rewrite H. Qed.

(** With a custom validator and credentials, the outcome is the
    validator's. *)
Lemma authenticate_custom (config : AuthConfig) (validator : string -> Outcome bool)
      (headers : option Headers) (authHeader : string) :
  customValidator config = Some validator ->
  authorization headers = Some authHeader ->
  authHeader <> "" ->
  authenticate config headers =
    match validator (extractToken authHeader) with
    | Returns true => Returns tt
    | Returns false =>
        Throws (MCPError PERMISSION_DENIED "Invalid authentication token" None)
    | Throws e => Throws e
    end.
Proof.
  intros Hv Ha Hne. unfold authenticate.
  rewrite Ha, Hv, (present_nonempty _ Hne). simpl. rewrite andb_false_r.
  destruct (validator (extractToken authHeader)) as [[|]|e]; reflexivity.
Qed.

(** C10, as the code has it.  With a [customValidator] configured and an
    authorization value presented, [authenticate] succeeds exactly when
    the validator resolves to [true] on the extracted token; it raises
    [PermissionDenied] (-32003) when the validator resolves to [false],
    and fails with the validator's own error when the validator rejects.
    The [apiKeys] list plays no part. *)
Theorem customValidator_decides (config : AuthConfig)
        (validator : string -> Outcome bool)
        (headers : option Headers) (authHeader : string) :
  customValidator config = Some validator ->
  authorization headers = Some authHeader ->
  authHeader <> "" ->
  let token := extractToken authHeader in
  (authenticate config headers = Returns tt <-> validator token = Returns true)
  /\ (validator token = Returns false ->
      authenticate config headers =
        Throws (McpError (-32003) "Invalid authentication token" None))
  /\ (forall e : JsError,
        validator token = Throws e -> authenticate config headers = Throws e)
  /\ (forall keys : option (list string),
        authenticate (mkAuthConfig keys (allowAnonymous config) (customValidator config))
                     headers
        = authenticate config headers).
Proof.
  intros Hv Ha Hne token. subst token.
  rewrite (authenticate_custom config validator headers authHeader Hv Ha Hne).
  split; [|split; [|split]].
  - destruct (validator (extractToken authHeader)) as [[|]|e];
      split; (reflexivity || discriminate).
  - intros ->. reflexivity.
  - intros e ->. reflexivity.
  - intros keys.
    now rewrite (authenticate_custom
                   (mkAuthConfig keys (allowAnonymous config) (customValidator config))
                   validator headers authHeader Hv Ha Hne).
Qed.

(** A validator that accepts the token ["s3cret"] only, next to a key list
    that holds ["other"]: the bearer of ["s3cret"] is let in. *)
Lemma customValidator_decides_witness :
  authenticate Examples.guarded (Some [("authorization", "Bearer s3cret")])
  = Returns tt
  <-> Examples.secret_validator "s3cret" = Returns true.
Proof.
  apply (proj1 (customValidator_decides
                  Examples.guarded Examples.secret_validator
                  (Some [("authorization", "Bearer s3cret")]) "Bearer s3cret"
                  eq_refl eq_refl ltac:(discriminate))).
Defined.

(** C10 as stated fails on its last alternative: when the validator
    rejects, [authenticate] fails with the validator's error, which is no
    [PermissionDenied], although the validator did not resolve to
    [true]. *)
Lemma customValidator_counterexample :
  let config := mkAuthConfig (Some ["s3cret"]) None (Some Examples.failing_validator) in
  let headers := Some [("authorization", "Bearer s3cret")] in
  Examples.failing_validator (extractToken "Bearer s3cret") <> Returns true
  /\ authenticate config headers = Throws (PlainError "key store unreachable")
  /\ authenticate config headers
     <> Throws (MCPError PERMISSION_DENIED "Invalid authentication token" None).
Proof. repeat split; discriminate. Qed.

End AuthFacts.

Module StdioFacts.
Import Transport Stdio.

Section Endpoint.

Variable Msg : Type.
Variable JSON_parse : jsstring -> option Msg.
Variable JSON_stringify : Msg -> Outcome jsstring.

Abbreviation feed := (Transport.feed JSON_parse).
Abbreviation run := (Stdio.run JSON_parse JSON_stringify).
Abbreviation line_events := (Transport.line_events JSON_parse).

(** ** Lines and streams *)

Lemma split_lines_lf_stream (lines : list jsstring) :
  Forall (fun l => indexOf_LF l = None) lines ->
  split_lines (lf_stream lines) = (lines, []).
Proof.
  induction 1 as [|l rest Hl Hrest IH]; [reflexivity|].
  unfold lf_stream in *. simpl. rewrite <- app_assoc.
  rewrite TransportFacts.split_lines_app.
  unfold complete_lines, partial_line.
  rewrite (TransportFacts.indexOf_LF_None l Hl). simpl.
  change (LF :: flat_map (fun l0 => l0 ++ [LF]) rest)
    with ([LF] ++ flat_map (fun l0 => l0 ++ [LF]) rest).
  rewrite app_assoc, TransportFacts.split_lines_app.
  unfold complete_lines, partial_line.
  rewrite (TransportFacts.split_lines_terminated l Hl). simpl.
  now rewrite IH.
Qed.

Lemma feed_stream (chunks : list jsstring) (stream : jsstring) :
  List.concat chunks = stream ->
  feed initial chunks =
    (mkState (partial_line stream) false,
     flat_map line_events (complete_lines stream)).
Proof.
  intros <-. now rewrite (TransportFacts.feed_spec Msg JSON_parse chunks initial).
Qed.

(** ** What [send] writes *)



(** ** A closed transport *)



(** ** A malformed line *)

(** A line that does not parse costs one [PARSE_ERROR] event, which
    carries the trimmed line, and nothing else: the lines before it and
    after it are handled as if it were not there, whatever the
    chunking.  Events are what the transport emits; their listeners are
    taken to return. *)
Theorem parse_error_is_local (before bad after : jsstring) (chunks : list jsstring) :
  partial_line before = [] ->
  indexOf_LF bad = None ->
  trim bad <> [] ->
  JSON_parse (trim bad) = None ->
  List.concat chunks = before ++ bad ++ [LF] ++ after ->
  snd (feed initial chunks) =
    snd (feed initial [before])
    ++ [@EvError Msg PARSE_ERROR "Invalid JSON received" (trim bad)]
    ++ snd (feed initial [after])
  /\ buffer (fst (feed initial chunks)) = buffer (fst (feed initial [after])).
Proof.
  intros Hbefore Hno Hne Hparse Hchunks.
  assert (Hbad : split_lines ((bad ++ [LF]) ++ after)
                 = (bad :: complete_lines after, partial_line after)).
  { rewrite TransportFacts.split_lines_app. unfold complete_lines, partial_line.
    now rewrite (TransportFacts.split_lines_terminated bad Hno). }
  assert (Hall : split_lines (before ++ bad ++ [LF] ++ after)
                 = (complete_lines before ++ bad :: complete_lines after,
                    partial_line after)).
  { rewrite TransportFacts.split_lines_app, Hbefore. simpl.
    change (bad ++ LF :: after) with (bad ++ [LF] ++ after).
    rewrite app_assoc. unfold complete_lines at 2, partial_line at 1.
    now rewrite Hbad. }
  assert (Hcl : complete_lines (before ++ bad ++ [LF] ++ after)
                = complete_lines before ++ bad :: complete_lines after)
    by (unfold complete_lines at 1; now rewrite Hall).
  assert (Hpl : partial_line (before ++ bad ++ [LF] ++ after) = partial_line after)
    by (unfold partial_line at 1; now rewrite Hall).
  rewrite (feed_stream chunks _ Hchunks).
  rewrite (feed_stream [before] before) by apply app_nil_r.
  rewrite (feed_stream [after] after) by apply app_nil_r.
  cbn [fst snd buffer]. rewrite Hcl, Hpl.
  split; [|reflexivity].
  rewrite flat_map_app. cbn [flat_map]. f_equal.
  change (line_events bad ++ flat_map line_events (complete_lines after)
          = [@EvError Msg PARSE_ERROR "Invalid JSON received" (trim bad)]
            ++ flat_map line_events (complete_lines after)).
  f_equal.
  unfold Transport.line_events, processLine.
  destruct (trim bad) as [|c r] eqn:Ht; [congruence|]. now rewrite Hparse.
Qed.

(** ** Carriage returns *)

Lemma trimStart_app (a b : jsstring) :
  trimStart (a ++ b) =
    match trimStart a with
    | [] => trimStart b
    | kept => kept ++ b
    end.
Proof.
  induction a as [|c a IH]; simpl; [now destruct (trimStart b)|].
  destruct (is_space c); [assumption | reflexivity].
Qed.

Lemma trim_space_end (l : jsstring) (c : code_unit) :
  is_space c = true -> trim (l ++ [c]) = trim l.
Proof.
  intros Hc. unfold trim. rewrite trimStart_app.
  destruct (trimStart l) as [|x kept] eqn:Hl.
  - simpl. rewrite Hc. reflexivity.
  - unfold trimEnd. rewrite rev_app_distr. simpl. now rewrite Hc.
Qed.

Lemma split_lines_crlf_stream (lines : list jsstring) :
  Forall (fun l => indexOf_LF l = None) lines ->
  split_lines (crlf_stream lines) = (map (fun l => l ++ [CR]) lines, []).
Proof.
  intros Hall.
  assert (Hs : crlf_stream lines = lf_stream (map (fun l => l ++ [CR]) lines)).
  { unfold crlf_stream, lf_stream. induction lines as [|l rest IH]; [reflexivity|].
    simpl. inversion Hall; subst. rewrite IH by assumption.
    now rewrite <- !app_assoc. }
  rewrite Hs. apply split_lines_lf_stream.
  apply Forall_map. eapply Forall_impl; [|exact Hall]. cbv beta.
  intros l Hl. clear - Hl. induction l as [|c l IH]; [reflexivity|].
  simpl in *. destruct (c =? LF)%N; [discriminate|].
  destruct (indexOf_LF l); [discriminate|]. now rewrite IH.
Qed.

(** Lines ended by carriage return and line feed are read as the same
    lines ended by a line feed alone: same events, same final state,
    whatever the chunking of either stream. *)
Theorem crlf_is_tolerated (lines : list jsstring) (chunks chunks' : list jsstring) :
  Forall (fun l => indexOf_LF l = None) lines ->
  List.concat chunks = crlf_stream lines ->
  List.concat chunks' = lf_stream lines ->
  feed initial chunks = feed initial chunks'.
Proof.
  intros Hall Hc Hc'.
  rewrite (feed_stream chunks _ Hc), (feed_stream chunks' _ Hc').
  unfold complete_lines, partial_line.
  rewrite (split_lines_crlf_stream lines Hall), (split_lines_lf_stream lines Hall).
  simpl. f_equal. clear. induction lines as [|l rest IH]; [reflexivity|].
  simpl. rewrite IH. f_equal.
  unfold Transport.line_events. now rewrite trim_space_end.
Qed.

End Endpoint.



(** [{"id":1}], then [oops], then [{}], each on its line. *)
Lemma parse_error_is_local_witness :
  snd (Transport.feed Examples.toy_parse initial
         [Examples.wire_id1 ++ [LF] ++ Examples.wire_oops;
          [LF] ++ Examples.wire_empty ++ [LF]])
  = [EvMessage Examples.wire_id1;
     EvError jsstring PARSE_ERROR "Invalid JSON received" Examples.wire_oops;
     EvMessage Examples.wire_empty].
Proof.
  apply (proj1 (parse_error_is_local jsstring Examples.toy_parse
                  (Examples.wire_id1 ++ [LF]) Examples.wire_oops
                  (Examples.wire_empty ++ [LF])
                  [Examples.wire_id1 ++ [LF] ++ Examples.wire_oops;
                   [LF] ++ Examples.wire_empty ++ [LF]]
                  eq_refl eq_refl ltac:(discriminate) eq_refl eq_refl)).
Defined.

(** [{"id":1}] and [{}] with either line ending. *)
Lemma crlf_is_tolerated_witness :
  Transport.feed Examples.toy_parse initial
    [Examples.wire_id1 ++ [CR]; [LF] ++ Examples.wire_empty ++ [CR; LF]]
  = Transport.feed Examples.toy_parse initial
      [Examples.wire_id1 ++ [LF] ++ Examples.wire_empty ++ [LF]].
Proof.
  apply (crlf_is_tolerated jsstring Examples.toy_parse
           [Examples.wire_id1; Examples.wire_empty]).
  - repeat constructor.
  - reflexivity.
  - reflexivity.
Defined.

End StdioFacts.

Module ValidatorFacts.
Import Validator.

Section WithAjv.

Variable ajv : JSON -> JSON -> AjvResult.

(** [validateToolInput] gives the input back, untouched, exactly when Ajv
    accepts it; whatever else happens, a rejected input or a schema that
    does not compile, it throws a [ValidationError], code -32005, and
    nothing else. *)
Theorem validateToolInput_throws_only_validation_errors (schema input : JSON) :
  (validateToolInput ajv schema input = Returns input <-> ajv schema input = Valid)
  /\ (forall v : JSON, validateToolInput ajv schema input = Returns v -> v = input)
  /\ (forall e : JsError,
        validateToolInput ajv schema input = Throws e ->
        exists (msg : string) (data : JSON), e = McpError (-32005) msg (Some data))
  /\ (forall msg : string,
        ajv schema input = CompileThrows msg ->
        validateToolInput ajv schema input =
          Throws (McpError (-32005) "Schema compilation failed"
                           (Some (JObj [("error", JStr msg)])))).
Proof.
  unfold validateToolInput.
  destruct (ajv schema input) as [msg | | errors]; repeat split;
    try discriminate; try congruence.
  - intros e [= <-]. do 2 eexists. reflexivity.
  - intros m [= <-]. reflexivity.
  - intros e [= <-]. do 2 eexists. reflexivity.
Qed.

(** [validate] and [validateToolInput] agree on inputs Ajv accepts and
    both throw code -32005 on inputs it rejects, but they part on a schema
    that does not compile: [validate] lets the compiler's own error
    through, which is no [MCPError], where [validateToolInput] wraps it. *)
Theorem validate_lets_compile_errors_through (schema data : JSON) :
  (ajv schema data = Valid ->
   validate ajv schema data = Returns data
   /\ validateToolInput ajv schema data = Returns data)
  /\ (forall errors,
        ajv schema data = Invalid errors ->
        exists msg msg' payload payload',
          validate ajv schema data = Throws (McpError (-32005) msg (Some payload))
          /\ validateToolInput ajv schema data
             = Throws (McpError (-32005) msg' (Some payload')))
  /\ (forall msg : string,
        ajv schema data = CompileThrows msg ->
        validate ajv schema data = Throws (PlainError msg)
        /\ instanceof_MCPError (PlainError msg) = false
        /\ validateToolInput ajv schema data
           = Throws (McpError (-32005) "Schema compilation failed"
                              (Some (JObj [("error", JStr msg)])))).
Proof.
  unfold validate, validateToolInput. repeat split.
  - now rewrite H.
  - now rewrite H.
  - intros errors ->. do 4 eexists. split; reflexivity.
  - now rewrite H.
  - now rewrite H.
Qed.

End WithAjv.

Lemma validate_lets_compile_errors_through_witness :
  validate Examples.broken_ajv Examples.add_schema (JObj [])
  = Throws (PlainError "schema is invalid")
  /\ validateToolInput Examples.broken_ajv Examples.add_schema (JObj [])
     = Throws (McpError (-32005) "Schema compilation failed"
                        (Some (JObj [("error", JStr "schema is invalid")]))).
Proof.
  destruct (proj2 (proj2 (validate_lets_compile_errors_through
                            Examples.broken_ajv Examples.add_schema (JObj [])))
              "schema is invalid" eq_refl) as (Hv & _ & Ht).
  split; [exact Hv | exact Ht].
Defined.

End ValidatorFacts.

Module AuthMore.
Import Auth JsString.

Lemma includes_In (token : string) (keys : list string) :
  includes token keys = true <-> In token keys.
Proof.
  induction keys as [|k rest IH]; simpl; [split; [discriminate | tauto]|].
  rewrite orb_true_iff, IH, String.eqb_eq. tauto.
Qed.

(** Without a [customValidator], credentials presented are accepted
    exactly when the extracted token is one of the [apiKeys]; every
    refusal is a [PermissionDenied], code -32003; with no key list at all
    every token is refused.  [allowAnonymous] does not let presented
    credentials through. *)
Theorem apiKeys_decide (config : AuthConfig) (headers : option Headers)
        (authHeader : string) :
  customValidator config = None ->
  authorization headers = Some authHeader ->
  authHeader <> "" ->
  (authenticate config headers = Returns tt
   <-> exists keys, apiKeys config = Some keys /\ In (extractToken authHeader) keys)
  /\ (authenticate config headers <> Returns tt ->
      authenticate config headers
      = Throws (McpError (-32003) "Invalid authentication credentials" None))
  /\ (forall anonymous : option bool,
        authenticate (mkAuthConfig (apiKeys config) anonymous None) headers
        = authenticate config headers).
Proof.
  intros Hv Ha Hne.
  assert (Heq : forall anonymous,
             authenticate (mkAuthConfig (apiKeys config) anonymous None) headers
             = match apiKeys config with
               | Some keys =>
                   if includes (extractToken authHeader) keys then Returns tt
                   else Throws (MCPError PERMISSION_DENIED
                                         "Invalid authentication credentials" None)
               | None => Throws (MCPError PERMISSION_DENIED
                                          "Invalid authentication credentials" None)
               end).
  { intros anonymous. unfold authenticate. cbn [customValidator apiKeys allowAnonymous].
    rewrite Ha, (AuthFacts.present_nonempty _ Hne). cbn [negb].
    now rewrite andb_false_r. }
  assert (Hc : authenticate config headers
               = authenticate (mkAuthConfig (apiKeys config) (allowAnonymous config) None)
                              headers)
    by (destruct config; simpl in *; now subst).
  split; [|split].
  - rewrite Hc, Heq. destruct (apiKeys config) as [keys|].
    + destruct (includes (extractToken authHeader) keys) eqn:Hi.
      * split; [|reflexivity]. intros _. exists keys. split; [reflexivity|].
        now apply includes_In.
      * split; [discriminate|]. intros (keys' & [= <-] & Hin).
        apply includes_In in Hin. congruence.
    + split; [discriminate|]. intros (keys & Hk & _). discriminate.
  - rewrite Hc, Heq. destruct (apiKeys config) as [keys|]; [|reflexivity].
    destruct (includes (extractToken authHeader) keys); [congruence | reflexivity].
  - intros anonymous. now rewrite Hc, !Heq.
Qed.

Lemma apiKeys_decide_witness :
  authenticate Examples.keyed (Some [("authorization", "Bearer beta")]) = Returns tt
  <-> exists keys, apiKeys Examples.keyed = Some keys
                   /\ In (extractToken "Bearer beta") keys.
Proof.
  apply (proj1 (apiKeys_decide Examples.keyed
                  (Some [("authorization", "Bearer beta")]) "Bearer beta"
                  eq_refl eq_refl ltac:(discriminate))).
Defined.

(** With no credentials (no headers, no [authorization] member, or an
    empty one), the outcome is decided by [allowAnonymous] alone: access
    when it is set, ["Authentication required"] with code -32003 when it
    is not; neither the validator nor the key list is looked at. *)
Theorem anonymous_access (config : AuthConfig) (headers : option Headers) :
  present (authorization headers) = false ->
  authenticate config headers =
    (if enabled (allowAnonymous config) then Returns tt
     else Throws (McpError (-32003) "Authentication required" None))
  /\ (forall keys validator,
        authenticate (mkAuthConfig keys (allowAnonymous config) validator) headers
        = authenticate config headers).
Proof.
  intros Hp.
  assert (Heq : forall keys validator,
             authenticate (mkAuthConfig keys (allowAnonymous config) validator) headers
             = if enabled (allowAnonymous config) then Returns tt
               else Throws (McpError (-32003) "Authentication required" None)).
  { intros keys validator. unfold authenticate. simpl. rewrite Hp. simpl.
    rewrite andb_true_r.
    destruct (enabled (allowAnonymous config)); [reflexivity|].
    destruct (authorization headers) as [a|]; [|reflexivity].
    simpl in Hp. simpl. now rewrite Hp. }
  assert (Hc : authenticate config headers
               = authenticate (mkAuthConfig (apiKeys config) (allowAnonymous config)
                                            (customValidator config)) headers)
    by now destruct config.
  split; [now rewrite Hc, Heq|].
  intros keys validator. now rewrite Hc, !Heq.
Qed.

Lemma anonymous_access_witness :
  authenticate Examples.keyed (Some [("authorization", "")]) = Returns tt.
Proof.
  apply (proj1 (anonymous_access Examples.keyed (Some [("authorization", "")]) eq_refl)).
Defined.

(** ** [extractToken] *)

Lemma split_space_no_space (s : string) :
  count_spaces s = 0 -> split_space s = [s].
Proof.
  induction s as [|c r IH]; simpl; [reflexivity|].
  destruct (Ascii.eqb c " "); [discriminate|].
  intros H. now rewrite IH.
Qed.

Lemma split_space_app (a b : string) :
  count_spaces a = 0 -> split_space (a +++ " " +++ b) = a :: split_space b.
Proof.
  change (" " +++ b) with (String " "%char b).
  induction a as [|c r IH]; simpl; [reflexivity|].
  destruct (Ascii.eqb c " "); [discriminate|].
  intros H. now rewrite IH.
Qed.

Lemma length_split_space (s : string) :
  List.length (split_space s) = S (count_spaces s).
Proof.
  induction s as [|c r IH]; simpl; [reflexivity|].
  destruct (Ascii.eqb c " "); simpl; [now rewrite IH|].
  destruct (split_space r); simpl in *; [discriminate | assumption].
Qed.

(** [extractToken] strips the scheme when the header is the word
    [bearer], in any letter case, one space, and a token without space;
    a header with no space, with more than one, or with another scheme is
    the token as a whole. *)
Theorem extractToken_cases :
  (forall scheme token,
      count_spaces scheme = 0 -> count_spaces token = 0 ->
      toLowerCase scheme = "bearer" ->
      extractToken (scheme +++ " " +++ token) = token)
  /\ (forall scheme token,
        count_spaces scheme = 0 -> count_spaces token = 0 ->
        toLowerCase scheme <> "bearer" ->
        extractToken (scheme +++ " " +++ token) = scheme +++ " " +++ token)
  /\ (forall authHeader,
        count_spaces authHeader <> 1 -> extractToken authHeader = authHeader).
Proof.
  split; [|split].
  - intros scheme token Hs Ht Hb. unfold extractToken.
    rewrite (split_space_app scheme token Hs), (split_space_no_space token Ht).
    now rewrite Hb.
  - intros scheme token Hs Ht Hb. unfold extractToken.
    rewrite (split_space_app scheme token Hs), (split_space_no_space token Ht).
    apply String.eqb_neq in Hb. now rewrite Hb.
  - intros authHeader Hn. unfold extractToken.
    pose proof (length_split_space authHeader) as Hl.
    destruct (split_space authHeader) as [|a [|b [|c rest]]]; try reflexivity.
    simpl in Hl. congruence.
Qed.

Lemma extractToken_cases_witness :
  extractToken "BEARER s3cret" = "s3cret"
  /\ extractToken "Basic s3cret" = "Basic s3cret"
  /\ extractToken "Bearer s3 cret" = "Bearer s3 cret".
Proof.
  destruct extractToken_cases as (Hb & Ho & Hw).
  split; [|split].
  - apply (Hb "BEARER" "s3cret"); reflexivity.
  - apply (Ho "Basic" "s3cret"); [reflexivity | reflexivity | discriminate].
  - apply (Hw "Bearer s3 cret"). discriminate.
Defined.

End AuthMore.

Module RateLimiterFacts.
Import Json Errors RateLimiter.

(** ** Samples and windows *)

Lemma recent_app (b : Z) (l l' : list Z) :
  recent b (l ++ l') = recent b l ++ recent b l'.
Proof. apply filter_app. Qed.

Lemma recent_recent (a b : Z) (l : list Z) :
  (a <= b)%Z -> recent b (recent a l) = recent b l.
Proof.
  intros Hab. unfold recent. induction l as [|x rest IH]; simpl; [reflexivity|].
  destruct (a <? x)%Z eqn:Ha; simpl.
  - now rewrite IH.
  - rewrite IH. destruct (b <? x)%Z eqn:Hb; [|reflexivity].
    apply Z.ltb_lt in Hb. apply Z.ltb_ge in Ha. lia.
Qed.

Lemma times_of_set (key key' : string) (v : list Z) (m : JsMap.t string (list Z)) :
  times_of key' (JsMap.set string_dec key v m)
  = if string_dec key key' then v else times_of key' m.
Proof.
  unfold times_of. destruct (string_dec key key') as [<-|Hne].
  - now rewrite JsMapFacts.get_set_eq.
  - now rewrite JsMapFacts.get_set_ne.
Qed.

Lemma times_of_delete (key key' : string) (m : JsMap.t string (list Z)) :
  times_of key' (JsMap.delete string_dec key m)
  = if string_dec key key' then [] else times_of key' m.
Proof.
  unfold times_of. destruct (string_dec key key') as [<-|Hne].
  - now rewrite JsMapFacts.get_delete_eq.
  - now rewrite JsMapFacts.get_delete_ne.
Qed.

Lemma times_of_cleanup_entry (ws : Z) (m : JsMap.t string (list Z)) (k : string)
      (v : list Z) (key : string) :
  times_of key (cleanup_entry ws m (k, v))
  = if string_dec k key then recent ws v else times_of key m.
Proof.
  unfold cleanup_entry. cbn [fst snd]. destruct (recent ws v) as [|x rest].
  - apply times_of_delete.
  - apply times_of_set.
Qed.

Lemma times_of_fold (ws : Z) (entries acc : JsMap.t string (list Z)) (key : string) :
  NoDup (JsMap.keys entries) ->
  times_of key (fold_left (cleanup_entry ws) entries acc)
  = match JsMap.get string_dec key entries with
    | Some v => recent ws v
    | None => times_of key acc
    end.
Proof.
  revert acc. induction entries as [|[k v] rest IH]; intros acc Hnd;
    [reflexivity|].
  cbn [JsMap.keys map fst] in Hnd. inversion Hnd as [|? ? Hnotin Hnd']; subst.
  cbn [fold_left JsMap.get]. rewrite IH by assumption.
  rewrite times_of_cleanup_entry.
  destruct (string_dec k key) as [->|Hne].
  - apply JsMapFacts.get_None_notin with (K_eq_dec := string_dec) in Hnotin.
    now rewrite Hnotin.
  - reflexivity.
Qed.

Lemma times_of_cleanup (now : Z) (rl : RateLimiter) (key : string) :
  NoDup (JsMap.keys (requests rl)) ->
  times_of key (requests (cleanup now rl))
  = recent (now - windowMs (config rl)) (times_of key (requests rl)).
Proof.
  intros Hnd. unfold cleanup. cbn [requests].
  rewrite times_of_fold by assumption. unfold times_of.
  now destruct (JsMap.get string_dec key (requests rl)).
Qed.

Lemma NoDup_fold (ws : Z) (entries acc : JsMap.t string (list Z)) :
  NoDup (JsMap.keys acc) ->
  NoDup (JsMap.keys (fold_left (cleanup_entry ws) entries acc)).
Proof.
  revert acc. induction entries as [|entry rest IH]; intros acc Hnd; [assumption|].
  simpl. apply IH. unfold cleanup_entry.
  destruct (recent ws (snd entry)).
  - now apply JsMapFacts.NoDup_keys_delete.
  - now apply JsMapFacts.NoDup_keys_set.
Qed.

Lemma accepted_times_app (key : string) (l l' : list (string * Z)) :
  accepted_times key (l ++ l') = accepted_times key l ++ accepted_times key l'.
Proof. unfold accepted_times. now rewrite filter_app, map_app. Qed.

Lemma accepted_times_single (key key' : string) (now : Z) :
  accepted_times key' [(key, now)] = if (key =? key')%string then [now] else [].
Proof.
  unfold accepted_times. cbn [filter fst].
  now destruct (key =? key')%string.
Qed.

Lemma agrees_accept (last now : Z) (m : JsMap.t string (list Z)) (w : Z)
      (key : string) (log : list (string * Z)) :
  agrees (last - w) m log -> (last <= now)%Z ->
  agrees (now - w)
         (JsMap.set string_dec key (recent (now - w) (times_of key m) ++ [now]) m)
         (log ++ [(key, now)]).
Proof.
  intros Hag Hle key' b Hb.
  rewrite times_of_set, accepted_times_app, recent_app.
  destruct (string_dec key key') as [<-|Hne].
  - rewrite recent_app, recent_recent by assumption.
    rewrite (Hag key b) by lia.
    now rewrite accepted_times_single, String.eqb_refl.
  - rewrite (Hag key' b) by lia. rewrite accepted_times_single.
    apply String.eqb_neq in Hne. rewrite Hne. now rewrite app_nil_r.
Qed.

Lemma length_filter_le {A : Type} (f g : A -> bool) (l : list A) :
  (forall x, f x = true -> g x = true) ->
  List.length (filter f l) <= List.length (filter g l).
Proof.
  intros H. induction l as [|a rest IH]; simpl; [lia|].
  destruct (f a) eqn:Ef.
  - rewrite (H a Ef). simpl. lia.
  - destruct (g a); simpl; lia.
Qed.

Lemma length_recent_accepted (key : string) (b : Z) (log : list (string * Z)) :
  List.length (recent b (accepted_times key log))
  = List.length (filter (fun a => (fst a =? key)%string && (b <? snd a)%Z) log).
Proof.
  unfold recent, accepted_times. induction log as [|a rest IH]; simpl; [reflexivity|].
  destruct (fst a =? key)%string; simpl; [|assumption].
  destruct (b <? snd a)%Z; simpl; now rewrite IH.
Qed.

Lemma bounded_accept (c : RateLimitConfig) (log : list (string * Z)) (key : string)
      (now : Z) :
  bounded c log ->
  (Z.of_nat (List.length (recent (now - windowMs c) (accepted_times key log)))
   < maxRequests c)%Z ->
  bounded c (log ++ [(key, now)]).
Proof.
  intros Hb Hlt key' t. unfold accepted_in_window.
  rewrite filter_app, length_app. cbn [filter fst snd].
  destruct ((key =? key')%string && (t - windowMs c <? now)%Z && (now <=? t)%Z) eqn:E;
    cbn [List.length].
  - apply andb_prop in E as [E Ht]. apply andb_prop in E as [Ek Ew].
    apply String.eqb_eq in Ek. subst key'.
    apply Z.leb_le in Ht.
    rewrite length_recent_accepted in Hlt.
    assert (Hle : List.length
                    (filter (fun a => (fst a =? key)%string
                                      && (t - windowMs c <? snd a)%Z
                                      && (snd a <=? t)%Z) log)
                  <= List.length
                       (filter (fun a => (fst a =? key)%string
                                         && (now - windowMs c <? snd a)%Z) log)).
    { apply length_filter_le. intros a Ha.
      apply andb_prop in Ha as [Ha _]. apply andb_prop in Ha as [Hk Hw].
      rewrite Hk. apply Z.ltb_lt in Hw. apply Z.ltb_lt. lia. }
    lia.
  - specialize (Hb key' t). unfold accepted_in_window in Hb. lia.
Qed.

Lemma run_bounded (calls : list Call) :
  forall (rl : RateLimiter) (last : Z) (log : list (string * Z)),
    NoDup (JsMap.keys (requests rl)) ->
    monotone last calls ->
    agrees (last - windowMs (config rl)) (requests rl) log ->
    bounded (config rl) log ->
    bounded (config rl) (log ++ snd (run rl calls)).
Proof.
  induction calls as [|[method params now | now] rest IH];
    intros rl last log Hnd Hmono Hag Hb.
  - simpl. now rewrite app_nil_r.
  - cbn [monotone clock] in Hmono. destruct Hmono as [Hle Hmono].
    cbn [run]. unfold checkLimit.
    set (key := key_of (config rl) method params).
    set (w := windowMs (config rl)) in *.
    destruct (maxRequests (config rl)
              <=? Z.of_nat (List.length (recent (now - w) (times_of key (requests rl)))))%Z
      eqn:Elim.
    + apply (IH rl now log); try assumption.
      intros k b Hk. apply Hag. lia.
    + apply Z.leb_gt in Elim.
      pose proof (agrees_accept last now (requests rl) w key log Hag Hle) as Hag'.
      specialize (IH (mkLimiter
                        (JsMap.set string_dec key
                           (recent (now - w) (times_of key (requests rl)) ++ [now])
                           (requests rl))
                        (config rl))
                     now (log ++ [(key, now)])).
      cbn [requests config] in IH.
      destruct (run _ rest) as [rl2 acc]. cbn [snd] in *.
      rewrite <- app_assoc in IH. apply IH; try assumption.
      * now apply JsMapFacts.NoDup_keys_set.
      * apply bounded_accept; [assumption|].
        fold w. rewrite <- (Hag key (now - w)%Z) by lia. exact Elim.
  - cbn [monotone clock] in Hmono. destruct Hmono as [Hle Hmono].
    cbn [run]. apply (IH (cleanup now rl) now log); try assumption.
    + now apply NoDup_fold.
    + intros key b Hk. cbn [config cleanup] in Hk.
      rewrite times_of_cleanup by assumption.
      rewrite recent_recent by exact Hk. apply Hag. lia.
Qed.

(** The limiter keeps its promise as long as the clock does not go back:
    for each key, the calls accepted within any window of [windowMs]
    milliseconds number at most [maxRequests]; a limit of zero or less
    accepts none.  The periodic [cleanup] may run at any point. *)
Theorem sliding_window_bound (c : RateLimitConfig) (calls : list Call) (start : Z)
        (key : string) (t : Z) :
  monotone start calls ->
  (Z.of_nat (List.length
               (accepted_in_window key (windowMs c) t
                  (snd (run (RateLimiter_new c) calls))))
   <= Z.max 0 (maxRequests c))%Z.
Proof.
  intros Hmono.
  apply (run_bounded calls (RateLimiter_new c) start [] (NoDup_nil _) Hmono).
  - intros k b _. reflexivity.
  - intros k t'. simpl. lia.
Qed.

Lemma run_alike (calls : list Call) :
  forall (m1 m2 : JsMap.t string (list Z)) (c : RateLimitConfig) (last : Z),
    NoDup (JsMap.keys m1) ->
    monotone last calls ->
    alike (last - windowMs c) m1 m2 ->
    snd (run (mkLimiter m1 c) calls)
    = snd (run (mkLimiter m2 c) (filter is_check calls)).
Proof.
  induction calls as [|[method params now | now] rest IH];
    intros m1 m2 c last Hnd Hmono Hal; [reflexivity| |].
  - cbn [monotone clock] in Hmono. destruct Hmono as [Hle Hmono].
    cbn [filter is_check run]. unfold checkLimit. cbn [requests config].
    set (key := key_of c method params).
    assert (Hsame : recent (now - windowMs c) (times_of key m1)
                    = recent (now - windowMs c) (times_of key m2))
      by (apply Hal; lia).
    rewrite <- Hsame.
    destruct (maxRequests c
              <=? Z.of_nat (List.length (recent (now - windowMs c) (times_of key m1))))%Z.
    + apply (IH m1 m2 c now); try assumption.
      intros k b Hk. apply Hal. lia.
    + specialize (IH (JsMap.set string_dec key
                        (recent (now - windowMs c) (times_of key m1) ++ [now]) m1)
                     (JsMap.set string_dec key
                        (recent (now - windowMs c) (times_of key m1) ++ [now]) m2)
                     c now).
      destruct (run (mkLimiter (JsMap.set string_dec key _ m1) c) rest) as [rl2 acc].
      destruct (run (mkLimiter (JsMap.set string_dec key _ m2) c) _) as [rl2' acc'].
      cbn [snd] in *. f_equal. apply IH; try assumption.
      * now apply JsMapFacts.NoDup_keys_set.
      * intros k b Hk. rewrite !times_of_set.
        destruct (string_dec key k); [reflexivity|]. apply Hal. lia.
  - cbn [monotone clock] in Hmono. destruct Hmono as [Hle Hmono].
    cbn [filter is_check run].
    change (cleanup now (mkLimiter m1 c))
      with (mkLimiter (requests (cleanup now (mkLimiter m1 c))) c).
    apply (IH _ m2 c now); try assumption.
    + now apply (NoDup_fold _ m1 m1).
    + intros k b Hk. rewrite (times_of_cleanup now (mkLimiter m1 c) k Hnd).
      cbn [requests config]. rewrite recent_recent by exact Hk.
      apply Hal. lia.
Qed.

(** [cleanup] only collects garbage: with a clock that does not go back,
    a run accepts the same calls with the cleanups as without them. *)
Theorem cleanup_changes_no_decision (c : RateLimitConfig) (calls : list Call)
        (start : Z) :
  monotone start calls ->
  snd (run (RateLimiter_new c) calls)
  = snd (run (RateLimiter_new c) (filter is_check calls)).
Proof.
  intros Hmono.
  apply (run_alike calls [] [] c start (NoDup_nil _) Hmono).
  intros k b _. reflexivity.
Qed.

Lemma ceil_seconds_positive (x : Z) : (0 < x)%Z -> (1 <= ceil_seconds x)%Z.
Proof.
  intros Hx. unfold ceil_seconds.
  assert ((- x) / 1000 < 0)%Z by (apply Z.div_lt_upper_bound; lia).
  lia.
Qed.

(** A refused call changes nothing in the limiter, not even the pruning
    of the samples it looked at.  Its error has the code -32004 and names
    the method and the limit; with a limit of at least one, [retryAfter]
    is a whole number of seconds, at least one; with a limit of zero or
    less no sample is needed to refuse, and [retryAfter] is not a
    number. *)
Theorem refusal_details (method : string) (params : option JSON) (now : Z)
        (rl : RateLimiter) (e : JsError) :
  fst (checkLimit method params now rl) = Throws e ->
  snd (checkLimit method params now rl) = rl
  /\ exists (msg : string) (fields : list (string * JSON)),
       e = McpError (-32004) msg (Some (JObj fields))
       /\ assoc "method" fields = Some (JStr method)
       /\ assoc "limit" fields = Some (JNum (maxRequests (config rl)))
       /\ ((1 <= maxRequests (config rl))%Z ->
           exists n : Z, assoc "retryAfter" fields = Some (JNum n) /\ (1 <= n)%Z)
       /\ ((maxRequests (config rl) <= 0)%Z ->
           times_of (key_of (config rl) method params) (requests rl) = [] ->
           assoc "retryAfter" fields = Some JNull).
Proof.
  unfold checkLimit.
  set (key := key_of (config rl) method params).
  set (ws := (now - windowMs (config rl))%Z).
  destruct (maxRequests (config rl)
            <=? Z.of_nat (List.length (recent ws (times_of key (requests rl)))))%Z
    eqn:Elim; [|discriminate].
  cbn [fst snd]. intros [= <-]. split; [reflexivity|].
  eexists. eexists. split; [reflexivity|].
  split; [reflexivity|]. split; [reflexivity|]. split.
  - intros Hone. apply Z.leb_le in Elim. cbn [assoc String.eqb Ascii.eqb Bool.eqb].
    unfold retryAfter.
    destruct (recent ws (times_of key (requests rl))) as [|first others] eqn:Erecent;
      [simpl in Elim; lia|].
    eexists. split; [reflexivity|].
    apply ceil_seconds_positive.
    assert (Hin : In first (recent ws (times_of key (requests rl))))
      by (rewrite Erecent; now left).
    apply filter_In in Hin as [_ Hin]. apply Z.ltb_lt in Hin. subst ws. lia.
  - intros Hzero Hnone. rewrite Hnone. reflexivity.
Qed.

Lemma get_getStats (now : Z) (rl : RateLimiter) (key : string) :
  JsMap.get string_dec key (getStats now rl)
  = match JsMap.get string_dec key (requests rl) with
    | Some times =>
        let n := Z.of_nat (List.length (recent (now - windowMs (config rl)) times)) in
        Some (mkStats n (Z.max 0 (maxRequests (config rl) - n)))
    | None => None
    end.
Proof.
  unfold getStats. induction (requests rl) as [|[k v] rest IH]; [reflexivity|].
  cbn [map JsMap.get fst snd]. now destruct (string_dec k key).
Qed.

(** [getStats] and [checkLimit] read the store the same way: for a key
    that has an entry, a call made at the same instant is accepted exactly
    when the entry shows something remaining, and the counts it shows add
    up to the limit unless the limit is already exceeded. *)
Theorem stats_predict_checkLimit (method : string) (params : option JSON) (now : Z)
        (rl : RateLimiter) (stats : Stats) :
  JsMap.get string_dec (key_of (config rl) method params) (getStats now rl)
  = Some stats ->
  (fst (checkLimit method params now rl) = Returns tt
   <-> (0 < stat_remaining stats)%Z)
  /\ (0 <= stat_remaining stats)%Z
  /\ ((stat_requests stats <= maxRequests (config rl))%Z ->
      (stat_requests stats + stat_remaining stats = maxRequests (config rl))%Z).
Proof.
  rewrite get_getStats. unfold checkLimit, times_of.
  destruct (JsMap.get string_dec (key_of (config rl) method params) (requests rl))
    as [times|]; [|discriminate].
  cbv zeta. intros [= <-]. cbn [stat_remaining stat_requests].
  set (n := Z.of_nat (List.length (recent (now - windowMs (config rl)) times))).
  split; [|split; lia].
  destruct (maxRequests (config rl) <=? n)%Z eqn:Elim; cbn [fst].
  - apply Z.leb_le in Elim. split; [discriminate | lia].
  - apply Z.leb_gt in Elim. split; [lia | reflexivity].
Qed.

(** [reset(key)] gives the key its whole budget back and leaves the
    decisions for the other keys as they were; without a key it empties
    the store, and so it does for the empty string, which is a key like
    any other to [checkLimit]. *)
Theorem reset_restores_budget (key : option string) (rl : RateLimiter)
        (method : string) (params : option JSON) (now : Z) :
  let called := key_of (config rl) method params in
  (key = None \/ key = Some "" -> requests (reset key rl) = [])
  /\ (forall k : string,
        key = Some k -> k <> "" ->
        (called = k -> (1 <= maxRequests (config rl))%Z ->
         fst (checkLimit method params now (reset key rl)) = Returns tt)
        /\ (called <> k ->
            fst (checkLimit method params now (reset key rl))
            = fst (checkLimit method params now rl)))
  /\ config (reset key rl) = config rl.
Proof.
  intros called. split; [|split].
  - intros [-> | ->]; reflexivity.
  - intros k -> Hk. apply String.eqb_neq in Hk.
    unfold reset. rewrite Hk. unfold checkLimit. cbn [requests config].
    fold called. split.
    + intros Heq Hone. rewrite times_of_delete.
      destruct (string_dec k called) as [_|Hne]; [|congruence].
      cbn [recent filter List.length].
      destruct (maxRequests (config rl) <=? Z.of_nat 0)%Z eqn:Elim; [|reflexivity].
      apply Z.leb_le in Elim. simpl in Elim. lia.
    + intros Hne. rewrite times_of_delete.
      destruct (string_dec k called) as [Heq|_]; [congruence|].
      now destruct (maxRequests (config rl) <=? _)%Z.
  - destruct key as [k|]; [|reflexivity].
    unfold reset. now destruct (k =? "")%string.
Qed.

Lemma sliding_window_bound_witness :
  (Z.of_nat (List.length
               (accepted_in_window "tools/call" 1000 1500
                  (snd (run (RateLimiter_new Examples.two_per_second)
                            [Check "tools/call" None 1000;
                             Check "tools/call" None 1200;
                             Cleanup 1300;
                             Check "tools/call" None 1400;
                             Check "tools/call" None 2300]))))
   <= Z.max 0 (maxRequests Examples.two_per_second))%Z.
Proof.
  apply (sliding_window_bound Examples.two_per_second _ 0). simpl. lia.
Defined.

Lemma cleanup_changes_no_decision_witness :
  snd (run (RateLimiter_new Examples.PER_SECOND_5)
           [Check "ping" None 10; Cleanup 500; Check "ping" None 1200; Cleanup 2300])
  = snd (run (RateLimiter_new Examples.PER_SECOND_5)
             [Check "ping" None 10; Check "ping" None 1200]).
Proof.
  apply (cleanup_changes_no_decision Examples.PER_SECOND_5
           [Check "ping" None 10; Cleanup 500; Check "ping" None 1200; Cleanup 2300] 0).
  simpl. lia.
Defined.

Lemma refusal_details_witness :
  let busy := fst (run (RateLimiter_new Examples.two_per_second)
                       [Check "ping" None 1000; Check "ping" None 1200]) in
  snd (checkLimit "ping" None 1400 busy) = busy.
Proof.
  intros busy.
  apply (refusal_details "ping" None 1400 busy
           (limit_error Examples.two_per_second "ping" [1000; 1200]%Z 1400)).
  reflexivity.
Defined.

Lemma stats_predict_checkLimit_witness :
  let busy := fst (run (RateLimiter_new Examples.two_per_second)
                       [Check "ping" None 1000; Check "ping" None 1200]) in
  fst (checkLimit "ping" None 1400 busy) = Returns tt <-> (0 < 0)%Z.
Proof.
  intros busy.
  apply (stats_predict_checkLimit "ping" None 1400 busy (mkStats 2 0)).
  reflexivity.
Defined.

End RateLimiterFacts.
